(** * TripAdvisor sync scheduler: a shallow embedding and its properties

    The development follows the TypeScript class [TripAdvisorSyncScheduler]
    (daily sweep, per-account dispatch, job ledger, status counts).

    - Data: the [profiles] and [review_sync_jobs] tables are lists of rows.
      Timestamps are integers (milliseconds since the epoch, UTC); the ISO
      date [YYYY-MM-DD] obtained by [toISOString().split('T')[0]] is the day
      number [t / 86400000], and a literal such as [`${today}T23:59:59Z`] is
      the instant it denotes.
    - Effects: every [async] method is a process ([Proc]): a tree whose nodes
      are the requests the method issues (Supabase queries, the worker POST,
      timers, the clock, the console) and whose edges are the answers, which
      may be rejections.  The environment owns the answers: a fault plan in
      the world decides which requests fail and how.
    - Concurrency: [Promise.allSettled] over a batch interleaves the
      processes of the batch at their await points, in an order chosen by
      the environment (a schedule).
    - The service: the cron task of [start] and [stop], the HTTP handlers
      of the scheduler module and the webhook, start-up and shutdown of
      [index.ts] come last, over a registry of tasks for node-cron.
    - Left out: when node-cron fires a task; the debug and minimal
      servers; the worker's own processing of a job. *)

From Stdlib Require Import ZArith Lia Bool.
From stdpp Require Import base strings list pretty.

Set Default Proof Using "Type".

(** ** Data model *)

Definition Timestamp := Z.
Definition JobId := nat.
Definition JsError := string.

Definition ms_per_day : Z := 86400000.

(** [new Date(t).toISOString().split('T')[0]] *)
Definition utc_date (t : Timestamp) : Z := (t / ms_per_day)%Z.

(** [`${date}Thh:mm:ssZ`] *)
Definition at_utc (date h m s : Z) : Timestamp :=
  (date * ms_per_day + ((h * 60 + m) * 60 + s) * 1000)%Z.

Inductive JobStatus := pending | running | completed | failed.

#[global] Instance JobStatus_eq_dec : EqDecision JobStatus.
Proof. solve_decision. Defined.

(** [interface SyncAccount] *)
Record SyncAccount := {
  user_id : string;
  company_name : string;
  tripadvisor_location_id : string;
  last_tripadvisor_sync_at : option Timestamp;
  timezone : option string
}.

(** A row of the [profiles] table: the selected columns and the lock column
    the queries filter on. *)
Module Profile.
Record row := {
  user_id : string;
  company_name : string;
  tripadvisor_location_id : option string;
  tripadvisor_url_locked_at : option Timestamp;
  last_tripadvisor_sync_at : option Timestamp;
  timezone : option string
}.
End Profile.

(** A row of the [review_sync_jobs] table ([interface SyncJob] is the view
    the code takes of it). [id] and [created_at] are filled in by the store. *)
Module SyncJob.
Record row := {
  id : JobId;
  tour_operator_id : string;
  platform : string;
  status : JobStatus;
  full_history : bool;
  total_available : Z;
  imported_count : Z;
  created_at : Timestamp;
  started_at : option Timestamp;
  completed_at : option Timestamp;
  error : option string
}.
End SyncJob.

(** ** Requests *)

Inductive ProfileFilter :=
| eq_user_id (v : string)
| not_is_null_tripadvisor_location_id
| not_is_null_tripadvisor_url_locked_at.

Inductive JobFilter :=
| eq_tour_operator_id (v : string)
| eq_platform (v : string)
| in_status (vs : list JobStatus)
| eq_status (v : JobStatus)
| gte_created_at (t : Timestamp)
| lt_created_at (t : Timestamp)
| eq_id (v : JobId).

(** The object passed to [.insert(...)] in [createSyncJob]. *)
Record JobInsert := {
  ins_tour_operator_id : string;
  ins_platform : string;
  ins_status : JobStatus;
  ins_full_history : bool;
  ins_total_available : Z;
  ins_imported_count : Z;
  ins_started_at : Timestamp
}.

(** The object passed to [.update(...)] in [markJobFailed]. *)
Record JobUpdate := {
  upd_status : JobStatus;
  upd_error : string;
  upd_completed_at : Timestamp
}.

(** The JSON body of the worker POST. *)
Record WorkerRequest := {
  jobId : JobId;
  userId : string;
  tripAdvisorUrl : string;
  fullHistory : bool;
  priority : string
}.

Inductive LogLevel := log_info | log_error.

Inductive Call :=
| profiles_select (filters : list ProfileFilter)
| profiles_select_single (filters : list ProfileFilter)
| profiles_count (filters : list ProfileFilter)
| jobs_select_latest_single (filters : list JobFilter)
    (* .order('created_at', {ascending: false}).limit(1).single() *)
| jobs_insert_single (values : JobInsert)
| jobs_update (values : JobUpdate) (filters : list JobFilter)
| jobs_count (filters : list JobFilter)
| worker_post (body : WorkerRequest)
| set_timeout (ms : Z)
| date_now
| console (level : LogLevel) (line : string).

(** Requests that complete without giving up control. *)
Definition synchronous (c : Call) : bool :=
  match c with
  | date_now | console _ _ => true
  | _ => false
  end.

Record PgError := { code : string; message : string }.

(** The [{ data, error, count }] object a Supabase query resolves to. *)
Record PgResponse (A : Type) := {
  data : option A;
  error : option PgError;
  count : option nat
}.
Arguments data {A} _.
Arguments error {A} _.
Arguments count {A} _.

(** What [fetch] resolves to; [text] is the body read by [response.text()]. *)
Record HttpResponse := { ok : bool; http_status : nat; text : string }.

Definition Resp (c : Call) : Type :=
  match c with
  | profiles_select _ => PgResponse (list SyncAccount)
  | profiles_select_single _ => PgResponse SyncAccount
  | profiles_count _ => PgResponse unit
  | jobs_select_latest_single _ => PgResponse SyncJob.row
  | jobs_insert_single _ => PgResponse SyncJob.row
  | jobs_update _ _ => PgResponse unit
  | jobs_count _ => PgResponse unit
  | worker_post _ => HttpResponse
  | set_timeout _ => unit
  | date_now => Timestamp
  | console _ _ => unit
  end.

Inductive Settled (A : Type) :=
| Fulfilled (a : A)
| Rejected (e : JsError).
Arguments Fulfilled {A} _.
Arguments Rejected {A} _.

(** ** Processes *)

Inductive Proc (A : Type) : Type :=
| Ret (a : A)
| Throw (e : JsError)
| Vis (c : Call) (k : Settled (Resp c) -> Proc A).
Arguments Ret {A} _.
Arguments Throw {A} _.
Arguments Vis {A} _ _.

Fixpoint bind {A B} (p : Proc A) (f : A -> Proc B) : Proc B :=
  match p with
  | Ret a => f a
  | Throw e => Throw e
  | Vis c k => Vis c (fun o => bind (k o) f)
  end.

(** [try { p } catch (e) { h e }] *)
Fixpoint try_catch {A} (p : Proc A) (h : JsError -> Proc A) : Proc A :=
  match p with
  | Ret a => Ret a
  | Throw e => h e
  | Vis c k => Vis c (fun o => try_catch (k o) h)
  end.

(** [await c]: a rejection is rethrown at the await. *)
Definition await (c : Call) : Proc (Resp c) :=
  Vis c (fun o => match o with Fulfilled r => Ret r | Rejected e => Throw e end).

(** The promise is left to settle; nothing is rethrown. *)
Definition settle (c : Call) : Proc (Settled (Resp c)) :=
  Vis c (fun o => Ret o).

#[global] Instance Proc_ret : MRet Proc := fun A a => Ret a.
#[global] Instance Proc_bind : MBind Proc := fun A B f p => bind p f.

Definition console_log (line : string) : Proc unit := await (console log_info line).
Definition console_error (line : string) : Proc unit := await (console log_error line).

(** ** The scheduler's methods, as processes *)

(** [if (error && P(error))] *)
Definition error_and {A} (r : PgResponse A) (P : PgError -> bool) : bool :=
  from_option P false (error r).

Definition eligible_filters : list ProfileFilter :=
  [not_is_null_tripadvisor_location_id; not_is_null_tripadvisor_url_locked_at].

Definition getAccountsForSync : Proc (list SyncAccount) :=
  try_catch
    (r ← await (profiles_select eligible_filters);
     match error r with
     | Some e => Throw ("Failed to fetch accounts: " +:+ message e)
     | None => mret (default [] (data r))
     end)
    (fun err =>
       console_error ("Error fetching accounts for sync: " +:+ err);;
       mret []).

(** The dedup query of [getRunningJob]. *)
Definition running_job_query (userId : string) : Call :=
  jobs_select_latest_single
    [eq_tour_operator_id userId; eq_platform "tripadvisor";
     in_status [pending; running]].

Definition getRunningJob (userId : string) : Proc (option SyncJob.row) :=
  try_catch
    (r ← await (running_job_query userId);
     if error_and r (fun e => negb (String.eqb (code e) "PGRST116")) then
       console_error "Error checking running jobs:";;
       mret None
     else mret (data r))
    (fun err =>
       console_error ("Error checking running jobs: " +:+ err);;
       mret None).

(** The row [createSyncJob] inserts; [now] is [new Date()]. *)
Definition new_job (userId : string) (fullHistory : bool) (now : Timestamp)
  : JobInsert :=
  {| ins_tour_operator_id := userId;
     ins_platform := "tripadvisor";
     ins_status := pending;
     ins_full_history := fullHistory;
     ins_total_available := 0;
     ins_imported_count := 0;
     ins_started_at := now |}.

Definition createSyncJob (userId : string) (fullHistory : bool)
  : Proc (option SyncJob.row) :=
  try_catch
    (now ← await date_now;
     r ← await (jobs_insert_single (new_job userId fullHistory now));
     if error_and r (fun _ => true) then
       console_error "Error creating sync job:";;
       mret None
     else mret (data r))
    (fun err =>
       console_error ("Error creating sync job: " +:+ err);;
       mret None).

(** The body [triggerWorkerSync] posts. *)
Definition worker_request (jobId : JobId) (account : SyncAccount) : WorkerRequest :=
  {| jobId := jobId;
     userId := user_id account;
     tripAdvisorUrl := tripadvisor_location_id account;
     fullHistory := false;   (* daily sync is incremental *)
     priority := "normal" |}.

Definition triggerWorkerSync (jobId : JobId) (account : SyncAccount) : Proc bool :=
  try_catch
    (response ← await (worker_post (worker_request jobId account));
     if negb (ok response) then
       console_error ("Worker API error: " +:+ pretty (http_status response)
                        +:+ " - " +:+ text response);;
       mret false
     else mret true)
    (fun err =>
       console_error ("Error triggering worker sync: " +:+ err);;
       mret false).

(** The update of [markJobFailed]; [now] is [new Date()]. *)
Definition failed_update (jobId : JobId) (errorMessage : string) (now : Timestamp)
  : Call :=
  jobs_update
    {| upd_status := failed;
       upd_error := errorMessage;
       upd_completed_at := now |}
    [eq_id jobId].

Definition markJobFailed (jobId : JobId) (errorMessage : string) : Proc unit :=
  try_catch
    (now ← await date_now;
     _ ← await (failed_update jobId errorMessage now);
     mret tt)
    (fun err => console_error ("Error marking job as failed: " +:+ err)).

Definition logSyncError (errorType : string) (err : JsError) (userId : option string)
  : Proc unit :=
  try_catch
    (console_error ("Sync Error [" +:+ errorType +:+ "]: " +:+ err))
    (fun logError => console_error ("Error logging sync error: " +:+ logError)).

Definition syncAccount (account : SyncAccount) : Proc unit :=
  try_catch
    (console_log ("Starting sync for " +:+ company_name account
                    +:+ " (" +:+ user_id account +:+ ")");;
     existingJob ← getRunningJob (user_id account);
     match existingJob with
     | Some _ =>
         console_log ("Sync already running for " +:+ company_name account
                        +:+ ", skipping...")
     | None =>
         job ← createSyncJob (user_id account) false;
         match job with
         | None =>
             console_error ("Failed to create sync job for " +:+ company_name account)
         | Some job =>
             success ← triggerWorkerSync (SyncJob.id job) account;
             if success : bool then
               console_log ("Sync triggered successfully for " +:+ company_name account)
             else
               console_error ("Failed to trigger sync for " +:+ company_name account);;
               markJobFailed (SyncJob.id job) "Failed to trigger worker sync"
         end
     end)
    (fun err =>
       console_error ("Error syncing account " +:+ company_name account +:+ ": " +:+ err);;
       logSyncError "account_sync_error" err (Some (user_id account))).

Record SyncStats := {
  totalAccounts : nat;
  activeJobs : nat;
  completedToday : nat;
  failedToday : nat
}.

(** [Promise.all] over four promises that have all been started: it
    rejects as soon as one of them does. *)
Definition promise_all4 {A B C D}
  (a : Settled A) (b : Settled B) (c : Settled C) (d : Settled D)
  : Proc (A * B * C * D) :=
  match a, b, c, d with
  | Fulfilled x, Fulfilled y, Fulfilled z, Fulfilled t => mret (x, y, z, t)
  | Rejected e, _, _, _ => Throw e
  | _, Rejected e, _, _ => Throw e
  | _, _, Rejected e, _ => Throw e
  | _, _, _, Rejected e => Throw e
  end.

Definition getSyncStats : Proc SyncStats :=
  try_catch
    (now ← await date_now;
     let today := utc_date now in
     a ← settle (profiles_count eligible_filters);
     b ← settle (jobs_count [eq_platform "tripadvisor"; in_status [pending; running]]);
     c ← settle (jobs_count [eq_platform "tripadvisor"; eq_status completed;
                             gte_created_at (at_utc today 0 0 0);
                             lt_created_at (at_utc today 23 59 59)]);
     d ← settle (jobs_count [eq_platform "tripadvisor"; eq_status failed;
                             gte_created_at (at_utc today 0 0 0);
                             lt_created_at (at_utc today 23 59 59)]);
     '(accountsResult, activeJobsResult, completedResult, failedResult) ←
       promise_all4 a b c d;
     mret {| totalAccounts := default 0 (count accountsResult);
             activeJobs := default 0 (count activeJobsResult);
             completedToday := default 0 (count completedResult);
             failedToday := default 0 (count failedResult) |})
    (fun err =>
       console_error ("Error getting sync stats: " +:+ err);;
       mret {| totalAccounts := 0; activeJobs := 0;
               completedToday := 0; failedToday := 0 |}).

(** [chunkArray]: the loop [for (i = 0; i < array.length; i += size)].
    The fuel bounds the number of iterations; [None] stands for a loop
    that has not finished within it (with [size = 0] it never does). *)
Definition slice {T} (array : list T) (i j : nat) : list T :=
  take (j - i) (drop i array).

Fixpoint chunkArray_loop {T} (fuel : nat) (array : list T) (size i : nat)
  (chunks : list (list T)) : option (list (list T)) :=
  if i <? length array then
    match fuel with
    | 0 => None
    | S fuel' =>
        chunkArray_loop fuel' array size (i + size)
          (chunks ++ [slice array i (i + size)])
    end
  else Some chunks.

Definition chunkArray {T} (array : list T) (size : nat) : option (list (list T)) :=
  chunkArray_loop (length array) array size 0 [].

(** ** The world: record store, clock, scheduler state, environment *)

Inductive Fault :=
| store_error (e : PgError)                  (* the query resolves to [{ error }] *)
| http_error (status : nat) (body : string)  (* the worker answers with a non-2xx status *)
| thrown (e : JsError).                      (* the request rejects *)

Inductive Event :=
| ev_call (c : Call)
| ev_isRunning (b : bool).

Record World := {
  profiles : list Profile.row;
  review_sync_jobs : list SyncJob.row;
  next_job_id : JobId;
  clock : Timestamp;
  isRunning : bool;                       (* [private isRunning = false] *)
  faults : nat -> Call -> option Fault;   (* by number of requests so far *)
  schedule : nat -> list nat;             (* by number of requests so far *)
  trace : list Event;
  stdout : list (LogLevel * string)
}.

Definition with_jobs (js : list SyncJob.row) (n : JobId) (w : World) : World :=
  {| profiles := profiles w; review_sync_jobs := js; next_job_id := n;
     clock := clock w; isRunning := isRunning w; faults := faults w;
     schedule := schedule w; trace := trace w; stdout := stdout w |}.

Definition with_clock (t : Timestamp) (w : World) : World :=
  {| profiles := profiles w; review_sync_jobs := review_sync_jobs w;
     next_job_id := next_job_id w; clock := t; isRunning := isRunning w;
     faults := faults w; schedule := schedule w; trace := trace w;
     stdout := stdout w |}.

Definition with_trace (t : list Event) (w : World) : World :=
  {| profiles := profiles w; review_sync_jobs := review_sync_jobs w;
     next_job_id := next_job_id w; clock := clock w; isRunning := isRunning w;
     faults := faults w; schedule := schedule w; trace := t;
     stdout := stdout w |}.

Definition with_stdout (o : list (LogLevel * string)) (w : World) : World :=
  {| profiles := profiles w; review_sync_jobs := review_sync_jobs w;
     next_job_id := next_job_id w; clock := clock w; isRunning := isRunning w;
     faults := faults w; schedule := schedule w; trace := trace w;
     stdout := o |}.

(** [this.isRunning = b] *)
Definition set_isRunning (b : bool) (w : World) : World :=
  {| profiles := profiles w; review_sync_jobs := review_sync_jobs w;
     next_job_id := next_job_id w; clock := clock w; isRunning := b;
     faults := faults w; schedule := schedule w;
     trace := trace w ++ [ev_isRunning b]; stdout := stdout w |}.

(** *** Query evaluation *)

Definition profile_matches (f : ProfileFilter) (r : Profile.row) : bool :=
  match f with
  | eq_user_id v => String.eqb (Profile.user_id r) v
  | not_is_null_tripadvisor_location_id =>
      bool_decide (Profile.tripadvisor_location_id r ≠ None)
  | not_is_null_tripadvisor_url_locked_at =>
      bool_decide (Profile.tripadvisor_url_locked_at r ≠ None)
  end.

Definition job_matches (f : JobFilter) (j : SyncJob.row) : bool :=
  match f with
  | eq_tour_operator_id v => String.eqb (SyncJob.tour_operator_id j) v
  | eq_platform v => String.eqb (SyncJob.platform j) v
  | in_status vs => bool_decide (SyncJob.status j ∈ vs)
  | eq_status v => bool_decide (SyncJob.status j = v)
  | gte_created_at t => (t <=? SyncJob.created_at j)%Z
  | lt_created_at t => (SyncJob.created_at j <? t)%Z
  | eq_id v => SyncJob.id j =? v
  end.

Definition matches_all {F R} (m : F -> R -> bool) (fs : list F) (r : R) : bool :=
  forallb (fun f => m f r) fs.

Definition select_where {F R} (m : F -> R -> bool) (fs : list F) (rows : list R)
  : list R :=
  filter (fun r => matches_all m fs r) rows.

(** The five columns every [profiles] query of the scheduler selects.  A
    null location would be carried as such in JavaScript; every query in the
    source filters those rows out before they are read. *)
Definition selected_columns (r : Profile.row) : SyncAccount :=
  {| user_id := Profile.user_id r;
     company_name := Profile.company_name r;
     tripadvisor_location_id := default "" (Profile.tripadvisor_location_id r);
     last_tripadvisor_sync_at := Profile.last_tripadvisor_sync_at r;
     timezone := Profile.timezone r |}.

(** [.order('created_at', { ascending: false })] *)
Fixpoint insert_desc (j : SyncJob.row) (l : list SyncJob.row) : list SyncJob.row :=
  match l with
  | [] => [j]
  | x :: l' =>
      if (SyncJob.created_at x <=? SyncJob.created_at j)%Z then j :: l
      else x :: insert_desc j l'
  end.

Definition order_created_at_desc (l : list SyncJob.row) : list SyncJob.row :=
  foldr insert_desc [] l.

Definition no_rows : PgError :=
  {| code := "PGRST116";
     message := "JSON object requested, multiple (or no) rows returned" |}.

Definition pg_ok {A} (d : option A) (n : option nat) : PgResponse A :=
  {| data := d; error := None; count := n |}.

Definition pg_error {A} (e : PgError) : PgResponse A :=
  {| data := None; error := Some e; count := None |}.

(** [.single()] *)
Definition single {A} (rows : list A) : PgResponse A :=
  match rows with
  | [r] => pg_ok (Some r) None
  | _ => pg_error no_rows
  end.

Definition inserted_row (v : JobInsert) (w : World) : SyncJob.row :=
  {| SyncJob.id := next_job_id w;
     SyncJob.tour_operator_id := ins_tour_operator_id v;
     SyncJob.platform := ins_platform v;
     SyncJob.status := ins_status v;
     SyncJob.full_history := ins_full_history v;
     SyncJob.total_available := ins_total_available v;
     SyncJob.imported_count := ins_imported_count v;
     SyncJob.created_at := clock w;
     SyncJob.started_at := Some (ins_started_at v);
     SyncJob.completed_at := None;
     SyncJob.error := None |}.

Definition updated_row (v : JobUpdate) (j : SyncJob.row) : SyncJob.row :=
  {| SyncJob.id := SyncJob.id j;
     SyncJob.tour_operator_id := SyncJob.tour_operator_id j;
     SyncJob.platform := SyncJob.platform j;
     SyncJob.status := upd_status v;
     SyncJob.full_history := SyncJob.full_history j;
     SyncJob.total_available := SyncJob.total_available j;
     SyncJob.imported_count := SyncJob.imported_count j;
     SyncJob.created_at := SyncJob.created_at j;
     SyncJob.started_at := SyncJob.started_at j;
     SyncJob.completed_at := Some (upd_completed_at v);
     SyncJob.error := Some (upd_error v) |}.

(** What a request does and answers when nothing goes wrong. *)
Definition perform (c : Call) : World -> Resp c * World :=
  match c return World -> Resp c * World with
  | profiles_select fs => fun w =>
      (pg_ok (Some (selected_columns <$> select_where profile_matches fs (profiles w)))
         None, w)
  | profiles_select_single fs => fun w =>
      (single (selected_columns <$> select_where profile_matches fs (profiles w)), w)
  | profiles_count fs => fun w =>
      (pg_ok None (Some (length (select_where profile_matches fs (profiles w)))), w)
  | jobs_select_latest_single fs => fun w =>
      (single (take 1 (order_created_at_desc
                         (select_where job_matches fs (review_sync_jobs w)))), w)
  | jobs_insert_single v => fun w =>
      let row := inserted_row v w in
      (single [row],
       with_jobs (review_sync_jobs w ++ [row]) (S (next_job_id w)) w)
  | jobs_update v fs => fun w =>
      (pg_ok None None,
       with_jobs ((fun j => if matches_all job_matches fs j then updated_row v j else j)
                    <$> review_sync_jobs w)
         (next_job_id w) w)
  | jobs_count fs => fun w =>
      (pg_ok None (Some (length (select_where job_matches fs (review_sync_jobs w)))), w)
  | worker_post _ => fun w =>
      ({| ok := true; http_status := 200; text := "" |}, w)
  | set_timeout ms => fun w => (tt, with_clock (clock w + ms)%Z w)
  | date_now => fun w => (clock w, w)
  | console level line => fun w => (tt, with_stdout (stdout w ++ [(level, line)]) w)
  end.

(** How a fault shows at a request, when it applies to it. *)
Definition fail (c : Call) (f : Fault) : option (Settled (Resp c)) :=
  match c return option (Settled (Resp c)) with
  | profiles_select _ | profiles_select_single _ | profiles_count _ =>
      match f with
      | store_error e => Some (Fulfilled (pg_error e))
      | thrown e => Some (Rejected e)
      | http_error _ _ => None
      end
  | jobs_select_latest_single _ | jobs_insert_single _ | jobs_update _ _
  | jobs_count _ =>
      match f with
      | store_error e => Some (Fulfilled (pg_error e))
      | thrown e => Some (Rejected e)
      | http_error _ _ => None
      end
  | worker_post _ =>
      match f with
      | http_error s b => Some (Fulfilled {| ok := false; http_status := s; text := b |})
      | thrown e => Some (Rejected e)
      | store_error _ => None
      end
  | set_timeout _ | date_now | console _ _ => None
  end.

(** The fault the environment has planned for request [c] now, if any. *)
Definition planned (w : World) (c : Call) : option (Settled (Resp c)) :=
  faults w (length (trace w)) c ≫= fail c.

Definition issued (c : Call) (w : World) : World :=
  with_trace (trace w ++ [ev_call c]) w.

(** A request that gives up control is recorded in the trace; a fault
    planned for it replaces its effect and answer. *)
Definition handle (c : Call) (w : World) : Settled (Resp c) * World :=
  if synchronous c then
    let '(r, w') := perform c w in (Fulfilled r, w')
  else
    match planned w c with
    | Some o => (o, issued c w)
    | None => let '(r, w') := perform c (issued c w) in (Fulfilled r, w')
    end.

(** A process run without interruption. *)
Fixpoint run {A} (p : Proc A) (w : World) : Settled A * World :=
  match p with
  | Ret a => (Fulfilled a, w)
  | Throw e => (Rejected e, w)
  | Vis c k => let '(o, w') := handle c w in run (k o) w'
  end.

(** ** Interleaving at await points *)

(** Run up to the next request that gives up control. *)
Fixpoint park {A} (p : Proc A) (w : World) : Proc A * World :=
  match p with
  | Vis c k =>
      if synchronous c then let '(o, w') := handle c w in park (k o) w'
      else (p, w)
  | _ => (p, w)
  end.

(** The pending request of a parked process is served and the process runs
    on to its next await. *)
Definition resume {A} (p : Proc A) (w : World) : Proc A * World :=
  match p with
  | Vis c k => let '(o, w') := handle c w in park (k o) w'
  | _ => (p, w)
  end.

(** [batch.map(account => this.syncAccount(account))]: each call runs to its
    first await before the next one starts. *)
Fixpoint start_all {A} (ps : list (Proc A)) (w : World) : list (Proc A) * World :=
  match ps with
  | [] => ([], w)
  | p :: ps' =>
      let '(p1, w1) := park p w in
      let '(ps1, w2) := start_all ps' w1 in
      (p1 :: ps1, w2)
  end.

Definition resume_at {A} (i : nat) (ps : list (Proc A)) (w : World)
  : list (Proc A) * World :=
  match ps !! i with
  | Some p => let '(p', w') := resume p w in (<[i := p']> ps, w')
  | None => (ps, w)
  end.

Fixpoint interleave {A} (sched : list nat) (ps : list (Proc A)) (w : World)
  : list (Proc A) * World :=
  match sched with
  | [] => (ps, w)
  | i :: sched' => let '(ps', w') := resume_at i ps w in interleave sched' ps' w'
  end.

(** Whatever the schedule left pending is completed, one process after the
    other. *)
Fixpoint drain {A} (ps : list (Proc A)) (w : World) : World :=
  match ps with
  | [] => w
  | p :: ps' => drain ps' (run p w).2
  end.

(** [await Promise.allSettled(ps)]; the array of outcomes is not used by
    the caller. *)
Definition allSettled {A} (ps : list (Proc A)) (w : World) : World :=
  let sched := schedule w (length (trace w)) in
  let '(ps1, w1) := start_all ps w in
  let '(ps2, w2) := interleave sched ps1 w1 in
  drain ps2 w2.

(** ** Top-level methods: state passing with rejection *)

Definition M (A : Type) : Type := World -> Settled A * World.

#[global] Instance M_ret : MRet M := fun A a w => (Fulfilled a, w).
#[global] Instance M_bind : MBind M := fun A B f m w =>
  match m w with
  | (Fulfilled a, w') => f a w'
  | (Rejected e, w') => (Rejected e, w')
  end.

(** [try { body } catch (e) { handler e } finally { finalizer }] *)
Definition try_catch_finally {A} (body : M A) (handler : JsError -> M A)
  (finalizer : World -> World) : M A := fun w =>
  let '(o, w1) := body w in
  let '(o', w2) := match o with
                   | Fulfilled a => (Fulfilled a, w1)
                   | Rejected e => handler e w1
                   end in
  (o', finalizer w2).

Fixpoint for_each {T} (l : list T) (body : T -> M unit) : M unit :=
  match l with
  | [] => mret tt
  | x :: l' => body x;; for_each l' body
  end.

Definition sleep (ms : Z) : Proc unit := await (set_timeout ms).

Section Sweep.
(** The sweep, over the two methods it calls for its work. *)
Variable getAccounts : M (list SyncAccount).
Variable dispatchBatch : list SyncAccount -> M unit.

(** [for (let i = 0; i < batches.length; i++) { ... }] *)
Definition sweep_batches (batches : list (list SyncAccount)) : M unit :=
  for_each (seq 0 (length batches)) (fun i =>
    let batch := default [] (batches !! i) in
    run (console_log ("Processing batch " +:+ pretty (i + 1) +:+ "/"
                        +:+ pretty (length batches) +:+ " ("
                        +:+ pretty (length batch) +:+ " accounts)"));;
    dispatchBatch batch;;
    if i <? length batches - 1 then run (sleep 30000) else mret tt).

Definition runDailySyncWith : M unit := fun w =>
  if isRunning w then
    run (console_log "Daily sync already running, skipping...") w
  else
    ((fun w => (Fulfilled tt, set_isRunning true w));;
     run (console_log "Starting daily TripAdvisor sync process...");;
     try_catch_finally
       (accounts ← getAccounts;
        run (console_log ("Found " +:+ pretty (length accounts)
                            +:+ " accounts for sync"));;
        if length accounts =? 0 then
          run (console_log "No accounts found for sync")
        else
          let batchSize := 5 in
          match chunkArray accounts batchSize with
          | Some batches =>
              sweep_batches batches;;
              run (console_log "Daily sync process completed")
          | None => mret tt   (* not reached: [batchSize] is positive *)
          end)
       (fun err =>
          run (console_error ("Error during daily sync: " +:+ err));;
          run (logSyncError "daily_sync_error" err None))
       (set_isRunning false)) w.
End Sweep.

(** [batch.map(account => this.syncAccount(account))] under
    [Promise.allSettled] *)
Definition dispatchBatch (batch : list SyncAccount) : M unit := fun w =>
  (Fulfilled tt, allSettled (syncAccount <$> batch) w).

Definition runDailySync : M unit :=
  runDailySyncWith (run getAccountsForSync) dispatchBatch.

(** [if (userId)]: [undefined] and the empty string are falsy. *)
Definition truthy (userId : option string) : bool :=
  match userId with
  | Some s => negb (String.eqb s "")
  | None => false
  end.

Definition triggerManualSync (userId : option string) : M unit :=
  run (console_log "Triggering manual sync...");;
  if truthy userId then
    r ← run (await (profiles_select_single
                      [eq_user_id (default "" userId);
                       not_is_null_tripadvisor_location_id]));
    match error r, data r with
    | None, Some account => run (syncAccount account)
    | _, _ => run (console_error "Account not found or no TripAdvisor integration")
    end
  else runDailySync.

(** A fresh scheduler object over a given store and environment. *)
Definition initial_world (ps : list Profile.row) (now : Timestamp)
  (fs : nat -> Call -> option Fault) (sc : nat -> list nat) : World :=
  {| profiles := ps; review_sync_jobs := []; next_job_id := 0; clock := now;
     isRunning := false; faults := fs; schedule := sc; trace := [];
     stdout := [] |}.

(** * Properties *)

(** ** [chunkArray] *)

Definition ceil_div (n d : nat) : nat := (n + d - 1) / d.

Lemma ceil_div_step (n d : nat) :
  0 < d → 0 < n → ceil_div n d = S (ceil_div (n - d) d).
Proof.
  intros Hd Hn. unfold ceil_div.
  replace (n + d - 1) with ((n - 1) + 1 * d) by lia.
  rewrite Nat.div_add by lia.
  destruct (decide (n ≤ d)) as [Hle|Hgt].
  - replace (n - d + d - 1) with (d - 1) by lia.
    rewrite !Nat.div_small by lia. lia.
  - replace (n - d + d - 1) with (n - 1) by lia. lia.
Qed.

Lemma ceil_div_0 (d : nat) : 0 < d → ceil_div 0 d = 0.
Proof. intros Hd. unfold ceil_div. apply Nat.div_small. lia. Qed.

(** What the loop appends: the remaining elements, cut every [size]. *)
Record chunked {T} (size : nat) (l : list T) (rest : list (list T)) : Prop := {
  chunked_concat : concat rest = l;
  chunked_length : length rest = ceil_div (length l) size;
  chunked_bound : Forall (fun c => length c ≤ size) rest;
  chunked_full : ∀ k c, rest !! k = Some c → S k < length rest → length c = size
}.

Lemma chunkArray_loop_eq {T} (fuel : nat) (array : list T) (size i : nat)
  (chunks : list (list T)) :
  chunkArray_loop fuel array size i chunks =
  if i <? length array then
    match fuel with
    | 0 => None
    | S fuel' =>
        chunkArray_loop fuel' array size (i + size)
          (chunks ++ [slice array i (i + size)])
    end
  else Some chunks.
Proof. by destruct fuel. Qed.

Lemma chunkArray_loop_spec {T} (fuel : nat) (array : list T) (size i : nat)
  (chunks : list (list T)) :
  0 < size → length array - i ≤ fuel →
  ∃ rest, chunkArray_loop fuel array size i chunks = Some (chunks ++ rest)
          ∧ chunked size (drop i array) rest.
Proof.
  intros Hsize. revert i chunks.
  induction fuel as [|fuel IH]; intros i chunks Hfuel.
  - exists []. assert (Hi : length array ≤ i) by lia.
    rewrite chunkArray_loop_eq.
    apply Nat.ltb_ge in Hi as Hb. rewrite Hb, app_nil_r. split; [done|].
    rewrite drop_ge by done.
    split; [done | by cbn; rewrite ceil_div_0 | constructor |].
    intros k c Hk. by rewrite lookup_nil in Hk.
  - rewrite chunkArray_loop_eq. destruct (i <? length array) eqn:Hb.
    + apply Nat.ltb_lt in Hb.
      destruct (IH (i + size) (chunks ++ [slice array i (i + size)]))
        as (rest & Hrun & [Hcat Hlen Hbound Hfull]); [lia|].
      exists (slice array i (i + size) :: rest).
      rewrite Hrun, <- app_assoc. split; [done|].
      assert (Hsl : slice array i (i + size) = take size (drop i array)).
      { unfold slice. f_equal. lia. }
      assert (Hdd : drop (i + size) array = drop size (drop i array)).
      { rewrite drop_drop. done. }
      split.
      * cbn. rewrite Hcat, Hsl, Hdd. apply take_drop.
      * cbn. rewrite Hlen, !length_drop.
        rewrite (ceil_div_step (length array - i)) by lia.
        do 2 f_equal. lia.
      * constructor; [|done]. rewrite Hsl, length_take. lia.
      * intros [|k] c Hk Hlt; cbn in Hk, Hlt.
        -- injection Hk as <-. rewrite Hsl, length_take, length_drop.
           assert (0 < length rest) as Hpos by lia.
           rewrite Hlen, length_drop in Hpos.
           destruct (decide (length array - (i + size) = 0)) as [Hz|Hnz].
           ++ rewrite Hz, ceil_div_0 in Hpos by done. lia.
           ++ lia.
        -- apply (Hfull k c Hk). lia.
    + exists []. rewrite app_nil_r. split; [done|].
      apply Nat.ltb_ge in Hb. rewrite drop_ge by done.
      split; [done | by cbn; rewrite ceil_div_0 | constructor |].
      intros k c Hk. by rewrite lookup_nil in Hk.
Qed.

Lemma chunkArray_spec {T} (array : list T) (size : nat) :
  0 < size → ∃ chunks, chunkArray array size = Some chunks ∧ chunked size array chunks.
Proof.
  intros Hsize.
  destruct (chunkArray_loop_spec (length array) array size 0 [] Hsize)
    as (rest & Hrun & Hch); [lia|].
  exists rest. split; [exact Hrun|]. by rewrite drop_0 in Hch.
Qed.

(** C9. For every list and every positive batch size, [chunkArray] returns
    batches whose concatenation is the input list (so every element is in
    exactly one batch, in the original order), every batch has at most
    [size] elements and every batch but the last has exactly [size]. *)
Theorem chunkArray_partitions {T} (array : list T) (size : nat) :
  0 < size →
  ∃ chunks, chunkArray array size = Some chunks
    ∧ concat chunks = array
    ∧ Forall (fun c => length c ≤ size) chunks
    ∧ (∀ k c, chunks !! k = Some c → S k < length chunks → length c = size).
Proof.
  intros Hsize. destruct (chunkArray_spec array size Hsize) as (chunks & Hrun & Hch).
  exists chunks. destruct Hch. auto.
Qed.

Lemma chunkArray_partitions_witness :
  ∃ chunks, chunkArray [1; 2; 3; 4; 5; 6; 7] 3 = Some chunks
    ∧ concat chunks = [1; 2; 3; 4; 5; 6; 7]
    ∧ Forall (fun c => length c ≤ 3) chunks
    ∧ (∀ k c, chunks !! k = Some c → S k < length chunks → length c = 3).
Proof. apply (chunkArray_partitions [1; 2; 3; 4; 5; 6; 7] 3). lia. Defined.

(** ** What no request changes *)

(** Requests never touch the profiles, the scheduler's flag or the
    environment's plans, and extend the trace by requests only. *)
Record frame (w w' : World) : Prop := {
  frame_profiles : profiles w' = profiles w;
  frame_isRunning : isRunning w' = isRunning w;
  frame_faults : faults w' = faults w;
  frame_schedule : schedule w' = schedule w;
  frame_trace : ∃ cs, trace w' = trace w ++ (ev_call <$> cs)
}.

#[global] Instance frame_preorder : PreOrder frame.
Proof.
  split.
  - intros w. split; try done. exists []. by rewrite app_nil_r.
  - intros w1 w2 w3 [Hp Hr Hf Hs [cs Ht]] [Hp' Hr' Hf' Hs' [cs' Ht']].
    split; try congruence.
    exists (cs ++ cs'). rewrite Ht', Ht, fmap_app. by rewrite app_assoc.
Qed.

Lemma perform_frame c w : frame w (perform c w).2.
Proof. destruct c; cbn; split; try done; exists []; by rewrite app_nil_r. Qed.

Lemma handle_frame c w : frame w (handle c w).2.
Proof.
  unfold handle. destruct (synchronous c) eqn:Hc.
  - pose proof (perform_frame c w) as H. by destruct (perform c w).
  - assert (frame w (issued c w)) as H1.
    { split; try done. by exists [c]. }
    destruct (planned w c); [done|].
    pose proof (perform_frame c (issued c w)) as H.
    destruct (perform c (issued c w)). cbn in *. by etrans.
Qed.

Lemma run_frame {A} (p : Proc A) w : frame w (run p w).2.
Proof.
  revert w. induction p as [a|e|c k IH]; intros w; cbn; try done.
  pose proof (handle_frame c w) as H. destruct (handle c w) as [o w1]. cbn in H.
  etrans; [exact H|]. apply IH.
Qed.

Lemma park_frame {A} (p : Proc A) w : frame w (park p w).2.
Proof.
  revert w. induction p as [a|e|c k IH]; intros w; cbn; try done.
  destruct (synchronous c); [|done].
  pose proof (handle_frame c w) as H. destruct (handle c w) as [o w1]. cbn in H.
  etrans; [exact H|]. apply IH.
Qed.

Lemma resume_frame {A} (p : Proc A) w : frame w (resume p w).2.
Proof.
  destruct p as [a|e|c k]; cbn; try done.
  pose proof (handle_frame c w) as H. destruct (handle c w) as [o w1]. cbn in H.
  etrans; [exact H|]. apply park_frame.
Qed.

Lemma start_all_frame {A} (ps : list (Proc A)) w : frame w (start_all ps w).2.
Proof.
  revert w. induction ps as [|p ps IH]; intros w; cbn; [done|].
  pose proof (park_frame p w) as H. destruct (park p w) as [p1 w1].
  pose proof (IH w1) as H'. destruct (start_all ps w1) as [ps1 w2]. cbn in *.
  by etrans.
Qed.

Lemma resume_at_frame {A} i (ps : list (Proc A)) w : frame w (resume_at i ps w).2.
Proof.
  unfold resume_at. destruct (ps !! i) as [p|]; [|done].
  pose proof (resume_frame p w) as H. by destruct (resume p w).
Qed.

Lemma interleave_frame {A} sched (ps : list (Proc A)) w :
  frame w (interleave sched ps w).2.
Proof.
  revert ps w. induction sched as [|i sched IH]; intros ps w; cbn; [done|].
  pose proof (resume_at_frame i ps w) as H. destruct (resume_at i ps w) as [ps' w'].
  etrans; [exact H|]. apply IH.
Qed.

Lemma drain_frame {A} (ps : list (Proc A)) w : frame w (drain ps w).
Proof.
  revert w. induction ps as [|p ps IH]; intros w; cbn; [done|].
  etrans; [apply (run_frame p)|]. apply IH.
Qed.

Lemma allSettled_frame {A} (ps : list (Proc A)) w : frame w (allSettled ps w).
Proof.
  unfold allSettled.
  pose proof (start_all_frame ps w) as H1. destruct (start_all ps w) as [ps1 w1].
  pose proof (interleave_frame (schedule w (length (trace w))) ps1 w1) as H2.
  destruct (interleave _ ps1 w1) as [ps2 w2]. cbn in *.
  etrans; [exact H1|]. etrans; [exact H2|]. apply drain_frame.
Qed.

(** ** Interleavings: an invariant rule for [allSettled] *)

Definition parked {A} (p : Proc A) : Prop :=
  match p with
  | Vis c _ => synchronous c = false
  | _ => True
  end.

Definition settled {A} (p : Proc A) : Prop :=
  match p with
  | Vis _ _ => False
  | _ => True
  end.

Lemma park_parked {A} (p : Proc A) w : parked (park p w).1.
Proof.
  revert w. induction p as [a|e|c k IH]; intros w; cbn; try done.
  destruct (synchronous c) eqn:Hc; [|done].
  destruct (handle c w) as [o w1]. apply IH.
Qed.

Lemma park_of_parked {A} (p : Proc A) w : parked p → park p w = (p, w).
Proof. destruct p as [a|e|c k]; cbn; try done. by intros ->. Qed.

Lemma resume_parked {A} (p : Proc A) w : parked (resume p w).1.
Proof.
  destruct p as [a|e|c k]; cbn; try done.
  destruct (handle c w) as [o w1]. apply park_parked.
Qed.

Lemma run_park {A} (p : Proc A) w : run p w = run (park p w).1 (park p w).2.
Proof.
  revert w. induction p as [a|e|c k IH]; intros w; cbn; try done.
  destruct (synchronous c); [|done].
  destruct (handle c w) as [o w1]. apply IH.
Qed.

Lemma start_all_parked {A} (ps : list (Proc A)) w : Forall parked (start_all ps w).1.
Proof.
  revert w. induction ps as [|p ps IH]; intros w; cbn; [constructor|].
  pose proof (park_parked p w) as Hp. destruct (park p w) as [p1 w1].
  specialize (IH w1). destruct (start_all ps w1) as [ps1 w2].
  by constructor.
Qed.

Lemma start_all_length {A} (ps : list (Proc A)) w : length (start_all ps w).1 = length ps.
Proof.
  revert w. induction ps as [|p ps IH]; intros w; cbn; [done|].
  destruct (park p w) as [p1 w1].
  specialize (IH w1). destruct (start_all ps w1) as [ps1 w2]. cbn in *. lia.
Qed.

Lemma resume_at_middle {A} i (ps : list (Proc A)) p w :
  ps !! i = Some p →
  ∃ l1 l2, ps = l1 ++ p :: l2
           ∧ resume_at i ps w = (l1 ++ (resume p w).1 :: l2, (resume p w).2).
Proof.
  intros Hi. exists (take i ps), (drop (S i) ps). split.
  - by rewrite take_drop_middle.
  - unfold resume_at. rewrite Hi. destruct (resume p w) as [p' w']. cbn.
    f_equal. apply insert_take_drop. by eapply lookup_lt_Some.
Qed.

Lemma resume_at_parked {A} i (ps : list (Proc A)) w :
  Forall parked ps → Forall parked (resume_at i ps w).1.
Proof.
  intros Hps. destruct (ps !! i) as [p|] eqn:Hi.
  - destruct (resume_at_middle i ps p w Hi) as (l1 & l2 & -> & ->). cbn.
    apply Forall_app in Hps as [H1 H2]. apply Forall_cons in H2 as [_ H2].
    apply Forall_app. split; [done|]. constructor; [apply resume_parked|done].
  - unfold resume_at. by rewrite Hi.
Qed.

Lemma resume_at_length {A} i (ps : list (Proc A)) w :
  length (resume_at i ps w).1 = length ps.
Proof.
  unfold resume_at. destruct (ps !! i) as [p|]; [|done].
  destruct (resume p w). cbn. apply length_insert.
Qed.

Lemma interleave_parked {A} sched (ps : list (Proc A)) w :
  Forall parked ps → Forall parked (interleave sched ps w).1.
Proof.
  revert ps w. induction sched as [|i sched IH]; intros ps w Hps; cbn; [done|].
  pose proof (resume_at_parked i ps w Hps) as H.
  destruct (resume_at i ps w) as [ps' w']. by apply IH.
Qed.

Lemma interleave_length {A} sched (ps : list (Proc A)) w :
  length (interleave sched ps w).1 = length ps.
Proof.
  revert ps w. induction sched as [|i sched IH]; intros ps w; cbn; [done|].
  pose proof (resume_at_length i ps w) as H.
  destruct (resume_at i ps w) as [ps' w']. rewrite IH. done.
Qed.

Section Invariant.
Context {A : Type} (I : list (Proc A) → World → Prop).

(** The invariant survives the resumption of any one process. *)
Hypothesis I_resume : ∀ l1 p l2 w,
  I (l1 ++ p :: l2) w → I (l1 ++ (resume p w).1 :: l2) (resume p w).2.

Lemma resume_at_inv i ps w :
  I ps w → I (resume_at i ps w).1 (resume_at i ps w).2.
Proof using I_resume.
  intros HI. destruct (ps !! i) as [p|] eqn:Hi.
  - destruct (resume_at_middle i ps p w Hi) as (l1 & l2 & -> & ->).
    by apply I_resume.
  - unfold resume_at. by rewrite Hi.
Qed.

Lemma interleave_inv sched ps w :
  I ps w → I (interleave sched ps w).1 (interleave sched ps w).2.
Proof using I_resume.
  revert ps w. induction sched as [|i sched IH]; intros ps w HI; cbn; [done|].
  pose proof (resume_at_inv i ps w HI) as H.
  destruct (resume_at i ps w) as [ps' w']. by apply IH.
Qed.

Lemma run_inv l1 (p : Proc A) l2 w :
  I (l1 ++ (park p w).1 :: l2) (park p w).2 →
  ∃ q, settled q ∧ I (l1 ++ q :: l2) (run p w).2.
Proof using I_resume.
  revert w. induction p as [a|e|c k IH]; intros w; cbn.
  - intros HI. by exists (Ret a).
  - intros HI. by exists (Throw e).
  - destruct (synchronous c) eqn:Hc.
    + destruct (handle c w) as [o w1]. apply IH.
    + cbn. intros HI. apply I_resume in HI. cbn in HI.
      destruct (handle c w) as [o w1]. by apply IH.
Qed.

Lemma drain_inv ps : ∀ l1 w,
  Forall parked ps → I (l1 ++ ps) w →
  ∃ ps', Forall settled ps' ∧ length ps' = length ps ∧ I (l1 ++ ps') (drain ps w).
Proof using I_resume.
  induction ps as [|p ps IH]; intros l1 w Hps HI.
  - by exists [].
  - apply Forall_cons in Hps as [Hp Hps]. cbn.
    destruct (run_inv l1 p ps w) as (q & Hq & HI').
    { by rewrite park_of_parked. }
    destruct (IH (l1 ++ [q]) (run p w).2 Hps) as (ps' & Hs & Hl & HI'').
    { by rewrite <- app_assoc. }
    exists (q :: ps'). split; [by constructor|]. split; [cbn; lia|].
    by rewrite <- app_assoc in HI''.
Qed.

Theorem allSettled_inv ps w :
  I (start_all ps w).1 (start_all ps w).2 →
  ∃ ps', Forall settled ps' ∧ length ps' = length ps ∧ I ps' (allSettled ps w).
Proof using I_resume.
  unfold allSettled. intros HI.
  pose proof (start_all_parked ps w) as Hp.
  pose proof (start_all_length ps w) as Hl.
  destruct (start_all ps w) as [ps1 w1]. cbn in *.
  set (sched := schedule w (length (trace w))).
  pose proof (interleave_inv sched ps1 w1 HI) as HI2.
  pose proof (interleave_parked sched ps1 w1 Hp) as Hp2.
  pose proof (interleave_length sched ps1 w1) as Hl2.
  destruct (interleave sched ps1 w1) as [ps2 w2]. cbn in *.
  destruct (drain_inv ps2 [] w2 Hp2 HI2) as (ps' & Hs & Hl' & HI3).
  exists ps'. split; [done|]. split; [congruence|done].
Qed.
End Invariant.

(** ** The await points of [syncAccount] *)

(** What [getRunningJob] makes of the answer to its query. *)
Definition existing_job (o : Settled (PgResponse SyncJob.row)) : option SyncJob.row :=
  match o with
  | Fulfilled r =>
      if error_and r (fun e => negb (String.eqb (code e) "PGRST116")) then None
      else data r
  | Rejected _ => None
  end.

(** What [createSyncJob] makes of the answer to its insert. *)
Definition created_job (o : Settled (PgResponse SyncJob.row)) : option SyncJob.row :=
  match o with
  | Fulfilled r => if error_and r (fun _ => true) then None else data r
  | Rejected _ => None
  end.

(** What [triggerWorkerSync] makes of the answer to its POST. *)
Definition worker_accepted (o : Settled HttpResponse) : bool :=
  match o with
  | Fulfilled r => ok r
  | Rejected _ => false
  end.

(** Up to its next await the process only writes to the console, and is
    then as [Q] says. *)
Definition parks_to {A} (p : Proc A) (Q : World → Proc A → Prop) : Prop :=
  ∀ w, ∃ out, Q w (park p w).1 ∧ (park p w).2 = with_stdout out w.

Definition at_update (jid : JobId) (t : Timestamp) (p : Proc unit) : Prop :=
  ∃ k, p = Vis (failed_update jid "Failed to trigger worker sync" t) k
       ∧ ∀ o, parks_to (k o) (fun _ q => q = Ret tt).

Definition at_post (acc : SyncAccount) (job : SyncJob.row) (p : Proc unit) : Prop :=
  ∃ k, p = Vis (worker_post (worker_request (SyncJob.id job) acc)) k
       ∧ ∀ o, parks_to (k o) (fun w q =>
                if worker_accepted o then q = Ret tt
                else at_update (SyncJob.id job) (clock w) q).

Definition at_insert (acc : SyncAccount) (t : Timestamp) (p : Proc unit) : Prop :=
  ∃ k, p = Vis (jobs_insert_single (new_job (user_id acc) false t)) k
       ∧ ∀ o, parks_to (k o) (fun _ q =>
                match created_job o with
                | Some job => at_post acc job q
                | None => q = Ret tt
                end).

Definition at_dedup (acc : SyncAccount) (p : Proc unit) : Prop :=
  ∃ k, p = Vis (running_job_query (user_id acc)) k
       ∧ ∀ o, parks_to (k o) (fun w q =>
                match existing_job o with
                | Some _ => q = Ret tt
                | None => at_insert acc (clock w) q
                end).

Lemma with_stdout_id w : w = with_stdout (stdout w) w.
Proof. by destruct w. Qed.

Ltac protocol_step :=
  lazymatch goal with
  | |- parks_to _ _ => intros ?
  | |- at_dedup _ _ => eexists; split; [reflexivity|]; intros [[? [?|] ?]|?]; cbn
  | |- at_insert _ _ _ => eexists; split; [reflexivity|]; intros [[? [?|] ?]|?]; cbn
  | |- at_post _ _ _ => eexists; split; [reflexivity|]; intros [[[] ? ?]|?]; cbn
  | |- at_update _ _ _ => eexists; split; [reflexivity|]; intros [?|?]; cbn
  | |- context [String.eqb ?a ?b] => destruct (String.eqb a b); cbn
  | |- context [match ?d with Some _ => _ | None => _ end] =>
      is_var d; destruct d; cbn
  | |- ∃ out, _ ∧ _ = with_stdout out _ =>
      eexists; cbn; split; [|first [reflexivity | apply with_stdout_id]]
  | |- _ = _ => reflexivity
  end.

(** [syncAccount] follows the sequence dedup query, insert, POST, update,
    leaving it as the answers dictate. *)
Lemma syncAccount_starts acc : parks_to (syncAccount acc) (fun _ q => at_dedup acc q).
Proof. unfold syncAccount. repeat protocol_step. Qed.

Inductive Stage :=
| st_dedup
| st_insert (t : Timestamp)
| st_post (job : SyncJob.row)
| st_update (jid : JobId) (t : Timestamp)
| st_done.

Definition at_stage (acc : SyncAccount) (s : Stage) (p : Proc unit) : Prop :=
  match s with
  | st_dedup => at_dedup acc p
  | st_insert t => at_insert acc t p
  | st_post job => at_post acc job p
  | st_update jid t => at_update jid t p
  | st_done => p = Ret tt
  end.

(** One resumption, stage by stage. *)
Lemma resume_at_stage acc s p w :
  at_stage acc s p →
  match s with
  | st_dedup =>
      let '(o, w1) := handle (running_job_query (user_id acc)) w in
      ∃ out, (resume p w).2 = with_stdout out w1
        ∧ at_stage acc (match existing_job o with
                        | Some _ => st_done
                        | None => st_insert (clock w1)
                        end) (resume p w).1
  | st_insert t =>
      let '(o, w1) := handle (jobs_insert_single (new_job (user_id acc) false t)) w in
      ∃ out, (resume p w).2 = with_stdout out w1
        ∧ at_stage acc (match created_job o with
                        | Some job => st_post job
                        | None => st_done
                        end) (resume p w).1
  | st_post job =>
      let '(o, w1) := handle (worker_post (worker_request (SyncJob.id job) acc)) w in
      ∃ out, (resume p w).2 = with_stdout out w1
        ∧ at_stage acc (if worker_accepted o then st_done
                        else st_update (SyncJob.id job) (clock w1)) (resume p w).1
  | st_update jid t =>
      let '(o, w1) := handle (failed_update jid "Failed to trigger worker sync" t) w in
      ∃ out, (resume p w).2 = with_stdout out w1
        ∧ at_stage acc st_done (resume p w).1
  | st_done => resume p w = (p, w)
  end.
Proof.
  destruct s; unfold at_stage; [| | | |by intros ->]; intros (k & -> & Hk);
    unfold resume; destruct (handle _ w) as [o w1];
    destruct (Hk o w1) as (out & HQ & Hw); exists out; (split; [done|]).
  - by destruct (existing_job o).
  - by destruct (created_job o).
  - by destruct (worker_accepted o).
  - done.
Qed.

(** ** The sweep and its flag *)

Definition framed {A} (m : M A) : Prop := ∀ w, frame w (m w).2.

Lemma framed_run {A} (p : Proc A) : framed (run p).
Proof. intros w. apply run_frame. Qed.

Lemma framed_ret {A} (a : A) : framed (mret a).
Proof. intros w. done. Qed.

Lemma framed_bind {A B} (m : M A) (f : A → M B) :
  framed m → (∀ a, framed (f a)) → framed (m ≫= f).
Proof.
  intros Hm Hf w. unfold mbind, M_bind. specialize (Hm w).
  destruct (m w) as [[a|e] w1]; cbn in *; [|done].
  etrans; [exact Hm|]. apply Hf.
Qed.

Lemma framed_for_each {T} (l : list T) (body : T → M unit) :
  (∀ x, framed (body x)) → framed (for_each l body).
Proof.
  intros Hb. induction l as [|x l IH]; cbn.
  - apply framed_ret.
  - apply framed_bind; [apply Hb|]. intros _. apply IH.
Qed.

Lemma framed_dispatchBatch batch : framed (dispatchBatch batch).
Proof. intros w. apply allSettled_frame. Qed.

Lemma framed_sweep_batches batches : framed (sweep_batches dispatchBatch batches).
Proof.
  apply framed_for_each. intros i.
  apply framed_bind; [apply framed_run|]. intros _.
  apply framed_bind; [apply framed_dispatchBatch|]. intros _.
  destruct (i <? length batches - 1); [apply framed_run | apply framed_ret].
Qed.

(** The work of a sweep: the body of the [try] block. *)
Definition sweep_body (getAccounts : M (list SyncAccount))
  (dispatch : list SyncAccount → M unit) : M unit :=
  accounts ← getAccounts;
  run (console_log ("Found " +:+ pretty (length accounts) +:+ " accounts for sync"));;
  if length accounts =? 0 then
    run (console_log "No accounts found for sync")
  else
    match chunkArray accounts 5 with
    | Some batches =>
        sweep_batches dispatch batches;;
        run (console_log "Daily sync process completed")
    | None => mret tt
    end.

Definition sweep_handler (err : JsError) : M unit :=
  run (console_error ("Error during daily sync: " +:+ err));;
  run (logSyncError "daily_sync_error" err None).

Lemma runDailySyncWith_idle getAccounts dispatch w :
  isRunning w = false →
  runDailySyncWith getAccounts dispatch w =
  try_catch_finally (sweep_body getAccounts dispatch) sweep_handler
    (set_isRunning false)
    (with_stdout (stdout w ++ [(log_info, "Starting daily TripAdvisor sync process...")])
       (set_isRunning true w)).
Proof. intros Hw. unfold runDailySyncWith. rewrite Hw. reflexivity. Qed.

Lemma runDailySyncWith_busy getAccounts dispatch w :
  isRunning w = true →
  runDailySyncWith getAccounts dispatch w =
  (Fulfilled tt,
   with_stdout (stdout w ++ [(log_info, "Daily sync already running, skipping...")]) w).
Proof. intros Hw. unfold runDailySyncWith. rewrite Hw. reflexivity. Qed.

Lemma framed_sweep_handler err : framed (sweep_handler err).
Proof.
  apply framed_bind; [apply framed_run|]. intros _. apply framed_run.
Qed.

Lemma framed_sweep_body :
  framed (sweep_body (run getAccountsForSync) dispatchBatch).
Proof.
  apply framed_bind; [apply framed_run|]. intros accounts.
  apply framed_bind; [apply framed_run|]. intros _.
  destruct (length accounts =? 0); [apply framed_run|].
  destruct (chunkArray accounts 5) as [batches|]; [|apply framed_ret].
  apply framed_bind; [apply framed_sweep_batches|]. intros _. apply framed_run.
Qed.

(** Whatever the body does, the sweep ends fulfilled with the flag down. *)
Lemma sweep_releases (body : M unit) w :
  let r := try_catch_finally body sweep_handler (set_isRunning false) w in
  r.1 = Fulfilled tt ∧ isRunning r.2 = false.
Proof.
  unfold try_catch_finally.
  destruct (body w) as [[[]|e] w1]; cbn; done.
Qed.

Lemma sweep_trace w :
  ∃ cs, trace (try_catch_finally (sweep_body (run getAccountsForSync) dispatchBatch)
                 sweep_handler (set_isRunning false) w).2
        = trace w ++ (ev_call <$> cs) ++ [ev_isRunning false].
Proof.
  unfold try_catch_finally.
  pose proof (framed_sweep_body w) as [_ _ _ _ [cs Hcs]].
  destruct (sweep_body _ _ w) as [[[]|e] w1]; cbn [fst snd] in *.
  - exists cs. cbn. by rewrite Hcs, app_assoc.
  - pose proof (framed_sweep_handler e w1) as [_ _ _ _ [cs' Hcs']].
    destruct (sweep_handler e w1) as [o w2]; cbn [fst snd] in *.
    exists (cs ++ cs'). cbn. rewrite Hcs', Hcs, fmap_app. by rewrite !app_assoc.
Qed.

(** C3. A call of [runDailySync] while a sweep is in progress only writes
    a line to the console: it issues no request (so no account fetch and no
    job row), and leaves the store, the clock and the flag as they are. *)
Theorem runDailySync_while_running_is_noop (w : World) :
  isRunning w = true →
  let r := runDailySync w in
  r = (Fulfilled tt,
       with_stdout (stdout w ++ [(log_info, "Daily sync already running, skipping...")]) w)
  ∧ trace r.2 = trace w
  ∧ review_sync_jobs r.2 = review_sync_jobs w
  ∧ next_job_id r.2 = next_job_id w
  ∧ isRunning r.2 = true.
Proof.
  intros Hw. cbv zeta. unfold runDailySync.
  rewrite (runDailySyncWith_busy _ _ w Hw). cbn. auto.
Qed.

Definition quiet_plan : nat → Call → option Fault := fun _ _ => None.
Definition no_schedule : nat → list nat := fun _ => [].

Lemma runDailySync_while_running_is_noop_witness :
  let w := set_isRunning true (initial_world [] 0%Z quiet_plan no_schedule) in
  let r := runDailySync w in
  r = (Fulfilled tt,
       with_stdout (stdout w ++ [(log_info, "Daily sync already running, skipping...")]) w)
  ∧ trace r.2 = trace w
  ∧ review_sync_jobs r.2 = review_sync_jobs w
  ∧ next_job_id r.2 = next_job_id w
  ∧ isRunning r.2 = true.
Proof.
  apply (runDailySync_while_running_is_noop
           (set_isRunning true (initial_world [] 0%Z quiet_plan no_schedule))).
  reflexivity.
Defined.

(** C2. The flag is down on a fresh scheduler.  A sweep entered with the
    flag down raises it before anything else, ends fulfilled and lowers it
    on every path, whatever the account fetch and the batch dispatch do
    (returning no account, rejecting, ...).  For the scheduler's own fetch
    and dispatch the trace shows it: the flag is raised, then come the
    requests of the sweep, then the flag is lowered. *)
Theorem isRunning_released_on_every_path
  (getAccounts : M (list SyncAccount)) (dispatch : list SyncAccount → M unit)
  (w : World) :
  isRunning w = false →
  (∀ ps now fs sc, isRunning (initial_world ps now fs sc) = false)
  ∧ (runDailySyncWith getAccounts dispatch w).1 = Fulfilled tt
  ∧ isRunning (runDailySyncWith getAccounts dispatch w).2 = false
  ∧ ∃ cs, trace (runDailySync w).2
          = trace w ++ [ev_isRunning true] ++ (ev_call <$> cs) ++ [ev_isRunning false].
Proof.
  intros Hw. split; [done|].
  rewrite (runDailySyncWith_idle _ _ w Hw).
  split; [apply sweep_releases|]. split; [apply sweep_releases|].
  unfold runDailySync. rewrite (runDailySyncWith_idle _ _ w Hw).
  destruct (sweep_trace
              (with_stdout (stdout w ++ [(log_info, "Starting daily TripAdvisor sync process...")])
                 (set_isRunning true w))) as [cs Hcs].
  exists cs. rewrite Hcs. cbn. by rewrite <- app_assoc.
Qed.

(** A fetch that rejects and a dispatch that rejects. *)
Definition rejecting_fetch : M (list SyncAccount) := fun w => (Rejected "fetch", w).
Definition rejecting_dispatch : list SyncAccount → M unit :=
  fun _ w => (Rejected "dispatch", w).

Lemma isRunning_released_on_every_path_witness :
  let w := initial_world [] 0%Z quiet_plan no_schedule in
  (∀ ps now fs sc, isRunning (initial_world ps now fs sc) = false)
  ∧ (runDailySyncWith rejecting_fetch rejecting_dispatch w).1 = Fulfilled tt
  ∧ isRunning (runDailySyncWith rejecting_fetch rejecting_dispatch w).2 = false
  ∧ ∃ cs, trace (runDailySync w).2
          = trace w ++ [ev_isRunning true] ++ (ev_call <$> cs) ++ [ev_isRunning false].
Proof.
  apply (isRunning_released_on_every_path rejecting_fetch rejecting_dispatch
           (initial_world [] 0%Z quiet_plan no_schedule)).
  reflexivity.
Defined.

(** ** Requests and their answers *)

Lemma handle_async c w :
  synchronous c = false →
  handle c w = match planned w c with
               | Some o => (o, issued c w)
               | None => (Fulfilled (perform c (issued c w)).1,
                          (perform c (issued c w)).2)
               end.
Proof.
  intros Hc. unfold handle. rewrite Hc.
  destruct (planned w c); [done|]. by destruct (perform c (issued c w)).
Qed.

Lemma handle_trace c w :
  synchronous c = false → trace (handle c w).2 = trace w ++ [ev_call c].
Proof.
  intros Hc. rewrite handle_async by done.
  destruct (planned w c); [done|]. by destruct c.
Qed.

(** A planned fault makes each method take its failure branch. *)
Lemma planned_query_fails w fs o :
  planned w (jobs_select_latest_single fs) = Some o → existing_job o = None.
Proof.
  unfold planned. destruct (faults w _ _) as [[e|s b|e]|]; cbn; intros [= <-]; cbn; try done.
  unfold error_and. cbn. by destruct (negb _).
Qed.

Lemma planned_insert_fails w v o :
  planned w (jobs_insert_single v) = Some o → created_job o = None.
Proof.
  unfold planned. by destruct (faults w _ _) as [[e|s b|e]|]; cbn; intros [= <-].
Qed.

Lemma planned_post_fails w b o :
  planned w (worker_post b) = Some o → worker_accepted o = false.
Proof.
  unfold planned. by destruct (faults w _ _) as [[e|s b'|e]|]; cbn; intros [= <-].
Qed.

(** *** The requests a process can issue *)

Fixpoint all_calls {A} (P : Call → Prop) (p : Proc A) : Prop :=
  match p with
  | Vis c k => P c ∧ ∀ o, all_calls P (k o)
  | _ => True
  end.

Lemma all_calls_bind {A B} P (p : Proc A) (f : A → Proc B) :
  all_calls P p → (∀ a, all_calls P (f a)) → all_calls P (p ≫= f).
Proof.
  intros Hp Hf. unfold mbind, Proc_bind.
  induction p as [a|e|c k IH]; cbn in *; [apply Hf|done|].
  destruct Hp as [Hc Hk]. split; [done|]. intros o. apply IH, Hk.
Qed.

Lemma all_calls_try_catch {A} P (p : Proc A) (h : JsError → Proc A) :
  all_calls P p → (∀ e, all_calls P (h e)) → all_calls P (try_catch p h).
Proof.
  intros Hp Hh. induction p as [a|e|c k IH]; cbn in *; [done|apply Hh|].
  destruct Hp as [Hc Hk]. split; [done|]. intros o. apply IH, Hk.
Qed.

Lemma all_calls_await P c : P c → all_calls P (await c).
Proof. intros Hc. split; [done|]. by intros [r|e]. Qed.

Lemma all_calls_mono {A} (P Q : Call → Prop) (p : Proc A) :
  (∀ c, P c → Q c) → all_calls P p → all_calls Q p.
Proof.
  intros HPQ. induction p as [a|e|c k IH]; cbn; try done.
  intros [Hc Hk]. split; [by apply HPQ|]. intros o. apply IH, Hk.
Qed.

(** The requests of a dispatch for [acc]. *)
Definition request_of (acc : SyncAccount) (c : Call) : Prop :=
  match c with
  | date_now | console _ _ => True
  | jobs_select_latest_single _ => c = running_job_query (user_id acc)
  | jobs_insert_single v => ∃ t, v = new_job (user_id acc) false t
  | worker_post b => ∃ jid, b = worker_request jid acc
  | jobs_update _ _ =>
      ∃ jid t, c = failed_update jid "Failed to trigger worker sync" t
  | _ => False
  end.

Ltac calls_step :=
  lazymatch goal with
  | |- all_calls _ (try_catch _ _) => apply all_calls_try_catch
  | |- all_calls _ (_ ≫= _) => apply all_calls_bind
  | |- all_calls _ (await _) => apply all_calls_await
  | |- all_calls _ (mret _) => exact I
  | |- all_calls _ (Throw _) => exact I
  | |- all_calls _ (if ?b then _ else _) => destruct b
  | |- all_calls _ (match ?x with _ => _ end) => destruct x
  | |- ∀ _, _ => intros ?
  | |- request_of _ _ =>
      cbn; first [ exact I | reflexivity | eexists; reflexivity
                 | eexists; eexists; reflexivity ]
  end.

Lemma syncAccount_requests acc : all_calls (request_of acc) (syncAccount acc).
Proof.
  unfold syncAccount, getRunningJob, createSyncJob, triggerWorkerSync,
    markJobFailed, logSyncError, console_log, console_error.
  repeat calls_step.
Qed.

Arguments planned : simpl never.
Arguments select_where : simpl never.

(** ** Job creation *)

(** The fields of a row as [createSyncJob] writes it. *)
Definition initialised (userId : string) (fullHistory : bool) (now : Timestamp)
  (j : SyncJob.row) : Prop :=
  SyncJob.tour_operator_id j = userId
  ∧ SyncJob.platform j = "tripadvisor"
  ∧ SyncJob.status j = pending
  ∧ SyncJob.full_history j = fullHistory
  ∧ SyncJob.total_available j = 0%Z
  ∧ SyncJob.imported_count j = 0%Z
  ∧ SyncJob.started_at j = Some now
  ∧ SyncJob.completed_at j = None
  ∧ SyncJob.error j = None.

Lemma createSyncJob_run userId fullHistory w :
  let r := run (createSyncJob userId fullHistory) w in
  match r.1 with
  | Fulfilled (Some job) =>
      review_sync_jobs r.2 = review_sync_jobs w ++ [job]
      ∧ initialised userId fullHistory (clock w) job
  | Fulfilled None => review_sync_jobs r.2 = review_sync_jobs w
  | Rejected _ => False
  end.
Proof.
  cbv zeta. unfold createSyncJob. cbn.
  destruct (planned w _) as [o|] eqn:Hp.
  - apply planned_insert_fails in Hp.
    destruct o as [[d [e|] n]|e]; cbn in *; try done.
    by subst d.
  - cbn. unfold initialised. cbn. done.
Qed.

(** What [createSyncJob] does, by the answer to its insert. *)
Lemma createSyncJob_answered userId fullHistory w :
  let insert := jobs_insert_single (new_job userId fullHistory (clock w)) in
  run (createSyncJob userId fullHistory) w
  = match planned w insert with
    | None =>
        let job := inserted_row (new_job userId fullHistory (clock w)) w in
        (Fulfilled (Some job),
         with_jobs (review_sync_jobs w ++ [job]) (S (next_job_id w)) (issued insert w))
    | Some (Fulfilled _) =>
        (Fulfilled None,
         with_stdout (stdout w ++ [(log_error, "Error creating sync job:")])
           (issued insert w))
    | Some (Rejected e) =>
        (Fulfilled None,
         with_stdout (stdout w ++ [(log_error, "Error creating sync job: " +:+ e)])
           (issued insert w))
    end.
Proof.
  cbv zeta. unfold createSyncJob, await, mbind, Proc_bind. cbn [run try_catch bind].
  change (handle date_now w) with (Fulfilled (clock w), w). cbn [run try_catch bind].
  rewrite handle_async by done. unfold planned.
  destruct (faults w (length (trace w)) _) as [[e|s b|e]|]; cbn; try done.
Qed.

(** C10. A row created through [createSyncJob] is appended with status
    [pending], the flag it was given, both counters at zero and [started_at]
    set to the clock reading taken at creation, so [started_at] is filled
    while the job is pending; when no row is returned none was created.
    Every insert [syncAccount] can issue is such a row with the flag
    [false].  And a row is created: when the insert is answered,
    [createSyncJob] appends and returns one row, with the next id, the
    given user, the platform [tripadvisor] and the fields above; when the
    insert fails it returns null. *)
Theorem createSyncJob_initial_row (userId : string) (fullHistory : bool)
  (acc : SyncAccount) (w : World) :
  let r := run (createSyncJob userId fullHistory) w in
  match r.1 with
  | Fulfilled (Some job) =>
      review_sync_jobs r.2 = review_sync_jobs w ++ [job]
      ∧ SyncJob.status job = pending
      ∧ SyncJob.full_history job = fullHistory
      ∧ SyncJob.total_available job = 0%Z
      ∧ SyncJob.imported_count job = 0%Z
      ∧ SyncJob.started_at job = Some (clock w)
  | Fulfilled None => review_sync_jobs r.2 = review_sync_jobs w
  | Rejected _ => False
  end
  ∧ all_calls (fun c => ∀ v, c = jobs_insert_single v →
                 ∃ now, v = new_job (user_id acc) false now
                        ∧ ins_status v = pending ∧ ins_full_history v = false)
      (syncAccount acc)
  ∧ match planned w (jobs_insert_single (new_job userId fullHistory (clock w))) with
    | None =>
        ∃ job, r.1 = Fulfilled (Some job)
          ∧ review_sync_jobs r.2 = review_sync_jobs w ++ [job]
          ∧ SyncJob.id job = next_job_id w
          ∧ SyncJob.tour_operator_id job = userId
          ∧ SyncJob.platform job = "tripadvisor"
          ∧ SyncJob.status job = pending
          ∧ SyncJob.full_history job = fullHistory
          ∧ SyncJob.total_available job = 0%Z
          ∧ SyncJob.imported_count job = 0%Z
          ∧ SyncJob.started_at job = Some (clock w)
          ∧ SyncJob.completed_at job = None
          ∧ SyncJob.error job = None
    | Some _ =>
        r.1 = Fulfilled None ∧ review_sync_jobs r.2 = review_sync_jobs w
    end.
Proof.
  split; [|split].
  - pose proof (createSyncJob_run userId fullHistory w) as H. cbv zeta in *.
    destruct (run (createSyncJob userId fullHistory) w).1 as [[job|]|e]; try done.
    destruct H as (? & ? & ? & ? & ? & ? & ? & ? & ? & ?). auto 10.
  - eapply all_calls_mono; [|apply syncAccount_requests].
    intros c Hc v ->. cbn in Hc. destruct Hc as [t ->]. by exists t.
  - pose proof (createSyncJob_answered userId fullHistory w) as H. cbv zeta in *.
    rewrite H.
    destruct (planned w (jobs_insert_single _)) as [[r|e]|]; cbn [fst snd]; try done.
    eexists. split; [reflexivity|]. cbn. auto 20.
Qed.

(** An answered insert into an empty table. *)
Lemma createSyncJob_initial_row_witness :
  let w := initial_world [] 1000%Z quiet_plan no_schedule in
  let r := run (createSyncJob "u1" true) w in
  ∃ job, r.1 = Fulfilled (Some job)
    ∧ review_sync_jobs r.2 = review_sync_jobs w ++ [job]
    ∧ SyncJob.id job = next_job_id w
    ∧ SyncJob.tour_operator_id job = "u1"
    ∧ SyncJob.platform job = "tripadvisor"
    ∧ SyncJob.status job = pending
    ∧ SyncJob.full_history job = true
    ∧ SyncJob.total_available job = 0%Z
    ∧ SyncJob.imported_count job = 0%Z
    ∧ SyncJob.started_at job = Some (clock w)
    ∧ SyncJob.completed_at job = None
    ∧ SyncJob.error job = None.
Proof.
  exact (proj2 (proj2 (createSyncJob_initial_row "u1" true
                         {| user_id := "u1"; company_name := "Harbor Tours";
                            tripadvisor_location_id := "g60763-d1234";
                            last_tripadvisor_sync_at := None; timezone := None |}
                         (initial_world [] 1000%Z quiet_plan no_schedule)))).
Defined.

(** ** The dedup check *)

Lemma run_parked {A} (p : Proc A) w :
  parked p → run p w = run (resume p w).1 (resume p w).2.
Proof.
  destruct p as [a|e|c k]; cbn; try done. intros Hc.
  destruct (handle c w) as [o w1]. apply run_park.
Qed.

Lemma at_stage_parked acc s p : at_stage acc s p → parked p.
Proof. destruct s; cbn; [| | | |by intros ->]; by intros (k & -> & _). Qed.

Lemma getRunningJob_run userId w :
  let '(o, w1) := handle (running_job_query userId) w in
  ∃ out, run (getRunningJob userId) w = (Fulfilled (existing_job o), with_stdout out w1).
Proof.
  unfold getRunningJob, await, mbind, Proc_bind. cbn [run try_catch bind].
  destruct (handle (running_job_query userId) w) as [o w1].
  destruct o as [[d [e|] n]|e]; cbn; unfold error_and; cbn.
  - destruct (String.eqb _ _); cbn; eexists; first [reflexivity | by rewrite <- with_stdout_id].
  - eexists. by rewrite <- with_stdout_id.
  - eexists. reflexivity.
Qed.

(** C7. When the dedup query fails, by an error result or by a rejection,
    [getRunningJob] resolves to null without touching the job table, and
    [syncAccount] goes on to the insert of [createSyncJob]. *)
Theorem dedup_failure_fails_open (acc : SyncAccount) (w : World) (f : Fault) :
  faults w (length (trace w)) (running_job_query (user_id acc)) = Some f →
  (∀ s b, f ≠ http_error s b) →
  (∃ w', run (getRunningJob (user_id acc)) w = (Fulfilled None, w')
         ∧ review_sync_jobs w' = review_sync_jobs w)
  ∧ ∃ cs, trace (run (syncAccount acc) w).2
          = trace w
            ++ [ev_call (running_job_query (user_id acc));
                ev_call (jobs_insert_single (new_job (user_id acc) false (clock w)))]
            ++ (ev_call <$> cs).
Proof.
  intros Hf Hkind.
  assert (∃ o, planned w (running_job_query (user_id acc)) = Some o) as [o Hp].
  { unfold planned. rewrite Hf. destruct f as [e|s b|e]; cbn; eauto.
    by destruct (Hkind s b). }
  pose proof (planned_query_fails _ _ _ Hp) as Ho.
  split.
  - pose proof (getRunningJob_run (user_id acc) w) as H.
    rewrite handle_async, Hp in H by done. destruct H as [out H].
    rewrite Ho in H. eexists. split; [exact H|]. done.
  - destruct (syncAccount_starts acc w) as (out0 & Hst & Hw0).
    rewrite run_park. destruct (park (syncAccount acc) w) as [p0 w0]. cbn in *.
    subst w0.
    rewrite run_parked by (by eapply (at_stage_parked acc st_dedup)).
    pose proof (resume_at_stage acc st_dedup p0 (with_stdout out0 w) Hst) as H1.
    cbv beta iota in H1.
    rewrite handle_async in H1 by done.
    change (planned (with_stdout out0 w) ?c) with (planned w c) in H1.
    rewrite Hp, Ho in H1. destruct H1 as (out1 & Hw1 & Hst1).
    destruct (resume p0 (with_stdout out0 w)) as [p1 w1]. cbn in *. subst w1.
    rewrite run_parked by (by eapply (at_stage_parked acc (st_insert _))).
    match goal with
    | |- context [resume p1 ?w1] => set (w1' := w1) in *
    end.
    pose proof (resume_at_stage acc (st_insert (clock w)) p1 w1' Hst1) as H2.
    cbv beta iota in H2.
    pose proof (handle_trace
                  (jobs_insert_single (new_job (user_id acc) false (clock w)))
                  w1' eq_refl) as Ht.
    destruct (handle _ w1') as [o2 w2']. destruct H2 as (out2 & Hw2 & _).
    destruct (resume p1 w1') as [p2 w2'']. cbn [fst snd] in *. subst w2''.
    pose proof (run_frame p2 (with_stdout out2 w2')) as [_ _ _ _ [cs Hcs]].
    exists cs. rewrite Hcs. cbn. rewrite Ht. unfold w1', issued. cbn.
    by rewrite <- !app_assoc.
Qed.

Definition store_down : nat → Call → option Fault := fun _ c =>
  match c with
  | jobs_select_latest_single _ =>
      Some (store_error {| code := "57014"; message := "statement timeout" |})
  | _ => None
  end.

Definition harbor_tours : SyncAccount :=
  {| user_id := "u1"; company_name := "Harbor Tours";
     tripadvisor_location_id := "g60763-d1234";
     last_tripadvisor_sync_at := None; timezone := None |}.

Lemma dedup_failure_fails_open_witness :
  let w := initial_world [] 1000%Z store_down no_schedule in
  (∃ w', run (getRunningJob "u1") w = (Fulfilled None, w')
         ∧ review_sync_jobs w' = review_sync_jobs w)
  ∧ ∃ cs, trace (run (syncAccount harbor_tours) w).2
          = trace w
            ++ [ev_call (running_job_query "u1");
                ev_call (jobs_insert_single (new_job "u1" false 1000%Z))]
            ++ (ev_call <$> cs).
Proof.
  apply (dedup_failure_fails_open harbor_tours
           (initial_world [] 1000%Z store_down no_schedule)
           (store_error {| code := "57014"; message := "statement timeout" |})).
  - reflexivity.
  - intros s b. discriminate.
Defined.

(** ** Manual trigger *)

(** A profile with a location but no lock timestamp. *)
Definition unlocked_profile : Profile.row :=
  {| Profile.user_id := "u1"; Profile.company_name := "Harbor Tours";
     Profile.tripadvisor_location_id := Some "g60763-d1234";
     Profile.tripadvisor_url_locked_at := None;
     Profile.last_tripadvisor_sync_at := None; Profile.timezone := None |}.

Definition unlocked_world : World :=
  initial_world [unlocked_profile] 1000%Z quiet_plan no_schedule.

(** C6. The manual trigger is meant to look the account up under the
    eligibility predicate of the sweep (location and lock timestamp both
    present); the lookup of [triggerManualSync] filters on the location
    only.  For a profile with a location and no lock timestamp the sweep
    finds no account, while the manual trigger creates a job row and posts
    it to the worker. *)
Theorem triggerManualSync_ignores_lock :
  (run getAccountsForSync unlocked_world).1 = Fulfilled []
  ∧ review_sync_jobs (triggerManualSync (Some "u1") unlocked_world).2
    = [inserted_row (new_job "u1" false 1000%Z) unlocked_world]
  ∧ trace (triggerManualSync (Some "u1") unlocked_world).2
    = [ev_call (profiles_select_single
                  [eq_user_id "u1"; not_is_null_tripadvisor_location_id]);
       ev_call (running_job_query "u1");
       ev_call (jobs_insert_single (new_job "u1" false 1000%Z));
       ev_call (worker_post (worker_request 0 harbor_tours))].
Proof. vm_compute. auto. Qed.

(** What does hold: without a location, or without a profile, the manual
    trigger stops after the lookup. *)
Lemma triggerManualSync_without_location userId w :
  truthy (Some userId) = true →
  planned w (profiles_select_single
               [eq_user_id userId; not_is_null_tripadvisor_location_id]) = None →
  Forall (fun r => Profile.user_id r = userId →
                   Profile.tripadvisor_location_id r = None) (profiles w) →
  review_sync_jobs (triggerManualSync (Some userId) w).2 = review_sync_jobs w
  ∧ trace (triggerManualSync (Some userId) w).2
    = trace w ++ [ev_call (profiles_select_single
                             [eq_user_id userId; not_is_null_tripadvisor_location_id])].
Proof.
  intros Ht Hp Hall. unfold triggerManualSync. rewrite Ht.
  unfold mbind at 1, M_bind. cbn [run console_log await].
  unfold mbind, M_bind. cbn.
  change (planned (with_stdout ?o w) ?c) with (planned w c). rewrite Hp. cbn.
  assert (select_where profile_matches
            [eq_user_id userId; not_is_null_tripadvisor_location_id] (profiles w) = [])
    as ->.
  { unfold select_where. induction (profiles w) as [|r l IH]; [done|].
    apply Forall_cons in Hall as [Hr Hl]. rewrite filter_cons, IH by done.
    rewrite decide_False; [done|]. cbn. intros H.
    apply andb_prop_elim in H as [H1 H2]. apply andb_prop_elim in H2 as [H2 _].
    apply Is_true_true, String.eqb_eq in H1.
    apply bool_decide_unpack in H2. by rewrite Hr in H2. }
  cbn. done.
Qed.

(** ** Status counts *)

(** An eligible account: location and lock timestamp both present. *)
Definition eligible (r : Profile.row) : Prop :=
  Profile.tripadvisor_location_id r ≠ None ∧ Profile.tripadvisor_url_locked_at r ≠ None.

Definition active (j : SyncJob.row) : Prop :=
  SyncJob.status j = pending ∨ SyncJob.status j = running.

Definition tripadvisor_job (j : SyncJob.row) : Prop := SyncJob.platform j = "tripadvisor".

Definition created_on (day : Z) (s : JobStatus) (j : SyncJob.row) : Prop :=
  tripadvisor_job j ∧ SyncJob.status j = s ∧ utc_date (SyncJob.created_at j) = day.

Definition last_second (day : Z) (t : Timestamp) : Prop :=
  (at_utc day 23 59 59 ≤ t < at_utc (day + 1) 0 0 0)%Z.

Lemma select_eligible ps :
  select_where profile_matches eligible_filters ps = filter eligible ps.
Proof.
  unfold select_where. apply list_filter_iff. intros r. cbn. unfold eligible.
  rewrite !andb_True, !bool_decide_spec. intuition.
Qed.

Lemma select_active js :
  select_where job_matches [eq_platform "tripadvisor"; in_status [pending; running]] js
  = filter (fun j => tripadvisor_job j ∧ active j) js.
Proof.
  unfold select_where. apply list_filter_iff. intros j. cbn.
  unfold tripadvisor_job, active.
  rewrite !andb_True, bool_decide_spec, Is_true_true, String.eqb_eq.
  rewrite !elem_of_cons, elem_of_nil. intuition.
Qed.

(** The rows a count of today's jobs selects. *)
Definition in_window (today : Z) (s : JobStatus) (j : SyncJob.row) : Prop :=
  tripadvisor_job j ∧ SyncJob.status j = s
  ∧ (at_utc today 0 0 0 ≤ SyncJob.created_at j < at_utc today 23 59 59)%Z.

#[global] Instance in_window_dec today s j : Decision (in_window today s j).
Proof. unfold in_window, tripadvisor_job. apply _. Defined.

Lemma select_in_window today s js :
  select_where job_matches
    [eq_platform "tripadvisor"; eq_status s;
     gte_created_at (at_utc today 0 0 0); lt_created_at (at_utc today 23 59 59)] js
  = filter (in_window today s) js.
Proof.
  unfold select_where. apply list_filter_iff. intros j. cbn.
  unfold in_window, tripadvisor_job.
  rewrite !andb_True, bool_decide_spec, Is_true_true, String.eqb_eq.
  rewrite !Is_true_true, Z.leb_le, Z.ltb_lt. intuition.
Qed.


Definition quiet_counts (w : World) : Prop :=
  (∀ n fs, faults w n (profiles_count fs) = None)
  ∧ (∀ n fs, faults w n (jobs_count fs) = None).

Lemma getSyncStats_run w :
  quiet_counts w →
  let today := utc_date (clock w) in
  (run getSyncStats w).1 =
  Fulfilled
    {| totalAccounts := length (select_where profile_matches eligible_filters (profiles w));
       activeJobs :=
         length (select_where job_matches
                   [eq_platform "tripadvisor"; in_status [pending; running]]
                   (review_sync_jobs w));
       completedToday :=
         length (select_where job_matches
                   [eq_platform "tripadvisor"; eq_status completed;
                    gte_created_at (at_utc today 0 0 0);
                    lt_created_at (at_utc today 23 59 59)]
                   (review_sync_jobs w));
       failedToday :=
         length (select_where job_matches
                   [eq_platform "tripadvisor"; eq_status failed;
                    gte_created_at (at_utc today 0 0 0);
                    lt_created_at (at_utc today 23 59 59)]
                   (review_sync_jobs w)) |}.
Proof.
  intros [Hp Hj]. cbv zeta. unfold getSyncStats. cbn.
  unfold planned. cbn. repeat (first [rewrite Hp | rewrite Hj]; cbn). reflexivity.
Qed.


Definition day (d h m : Z) : Timestamp := at_utc d h m 0.

Definition locked_profile (u : string) : Profile.row :=
  {| Profile.user_id := u; Profile.company_name := "Co " +:+ u;
     Profile.tripadvisor_location_id := Some ("g-" +:+ u);
     Profile.tripadvisor_url_locked_at := Some (day 19000 9 0);
     Profile.last_tripadvisor_sync_at := None; Profile.timezone := None |}.

Definition job_row (i : JobId) (u : string) (s : JobStatus)
  (created : Timestamp) (completed : option Timestamp) : SyncJob.row :=
  {| SyncJob.id := i; SyncJob.tour_operator_id := u;
     SyncJob.platform := "tripadvisor"; SyncJob.status := s;
     SyncJob.full_history := false; SyncJob.total_available := 0;
     SyncJob.imported_count := 0; SyncJob.created_at := created;
     SyncJob.started_at := Some created; SyncJob.completed_at := completed;
     SyncJob.error := None |}.

Definition with_table (js : list SyncJob.row) (w : World) : World :=
  with_jobs js (length js) w.

(** Three eligible accounts and one without lock; one pending job, two
    jobs created and completed today, one completed yesterday. *)
Definition status_world : World :=
  with_table
    [job_row 0 "a" completed (day 19999 2 0) (Some (day 19999 2 5));
     job_row 1 "a" completed (day 20000 2 0) (Some (day 20000 2 5));
     job_row 2 "b" completed (day 20000 2 0) (Some (day 20000 2 7));
     job_row 3 "c" pending (day 20000 11 0) None]
    (initial_world
       [locked_profile "a"; locked_profile "b"; locked_profile "c"; unlocked_profile]
       (day 20000 12 0) quiet_plan no_schedule).


(** The scenario of the claim: 3 eligible accounts, 1 pending job, 2 jobs
    completed today, none failed. *)
Example getSyncStats_scenario :
  (run getSyncStats status_world).1 =
  Fulfilled {| totalAccounts := 3; activeJobs := 1;
               completedToday := 2; failedToday := 0 |}.
Proof. vm_compute. reflexivity. Qed.




(** ** The job ledger under dispatch *)

Definition active_for (u : string) (j : SyncJob.row) : Prop :=
  SyncJob.tour_operator_id j = u ∧ tripadvisor_job j ∧ active j.

#[global] Instance active_for_dec u j : Decision (active_for u j).
Proof. unfold active_for, tripadvisor_job, active. apply _. Defined.


Lemma select_running u js :
  select_where job_matches
    [eq_tour_operator_id u; eq_platform "tripadvisor"; in_status [pending; running]] js
  = filter (active_for u) js.
Proof.
  unfold select_where. apply list_filter_iff. intros j. cbn.
  unfold active_for, tripadvisor_job, active.
  rewrite !andb_True, bool_decide_spec, !Is_true_true, !String.eqb_eq.
  rewrite !elem_of_cons, elem_of_nil. intuition.
Qed.

Lemma insert_desc_length j l : length (insert_desc j l) = S (length l).
Proof.
  induction l as [|x l IH]; cbn; [done|].
  destruct (_ <=? _)%Z; cbn; [done|]. by rewrite IH.
Qed.

Lemma order_created_at_desc_length l : length (order_created_at_desc l) = length l.
Proof.
  unfold order_created_at_desc.
  induction l as [|x l IH]; cbn; [done|]. by rewrite insert_desc_length, IH.
Qed.

(** The dedup query, when it is not failed, finds a job exactly when the
    account has an active one. *)
Lemma handle_running_query u w :
  (handle (running_job_query u) w).2 = issued (running_job_query u) w
  ∧ (planned w (running_job_query u) = None →
     (existing_job (handle (running_job_query u) w).1 = None
      ↔ filter (active_for u) (review_sync_jobs w) = [])).
Proof.
  rewrite handle_async by done.
  destruct (planned w (running_job_query u)) as [o|]; [done|].
  split; [done|]. intros _. cbn. rewrite select_running.
  pose proof (order_created_at_desc_length (filter (active_for u) (review_sync_jobs w))) as Hl.
  destruct (order_created_at_desc _) as [|j l]; destruct (filter _ _) as [|j' l'];
    cbn in *; done.
Qed.

Lemma handle_insert v w :
  let c := jobs_insert_single v in
  match created_job (handle c w).1 with
  | Some job =>
      job = inserted_row v (issued c w)
      ∧ (handle c w).2
        = with_jobs (review_sync_jobs w ++ [job]) (S (next_job_id w)) (issued c w)
  | None => (handle c w).2 = issued c w
  end.
Proof.
  cbv zeta. rewrite handle_async by done.
  destruct (planned w (jobs_insert_single v)) as [o|] eqn:Hp; cbn [fst snd].
  - by rewrite (planned_insert_fails _ _ _ Hp).
  - done.
Qed.

Lemma handle_post b w :
  (handle (worker_post b) w).2 = issued (worker_post b) w
  ∧ (worker_accepted (handle (worker_post b) w).1 = true
     ↔ planned w (worker_post b) = None).
Proof.
  rewrite handle_async by done.
  destruct (planned w (worker_post b)) as [o|] eqn:Hp; cbn [fst snd]; [|done].
  by rewrite (planned_post_fails _ _ _ Hp).
Qed.

Definition mark_failed (jid : JobId) (msg : string) (t : Timestamp) (j : SyncJob.row)
  : SyncJob.row :=
  if SyncJob.id j =? jid then
    updated_row {| upd_status := failed; upd_error := msg; upd_completed_at := t |} j
  else j.

Lemma handle_update jid msg t w :
  let c := failed_update jid msg t in
  (planned w c = None
   ∧ (handle c w).2
     = with_jobs (mark_failed jid msg t <$> review_sync_jobs w) (next_job_id w)
         (issued c w))
  ∨ (planned w c ≠ None ∧ (handle c w).2 = issued c w).
Proof.
  cbv zeta. rewrite handle_async by done.
  destruct (planned w (failed_update jid msg t)) as [o|] eqn:Hp; [by right|].
  left. split; [done|]. cbn. f_equal. apply list_fmap_ext. intros i j _.
  unfold mark_failed. cbn. by rewrite andb_true_r.
Qed.


Lemma count_mark_failed u jid msg t js :
  length (filter (active_for u) (mark_failed jid msg t <$> js))
  ≤ length (filter (active_for u) js).
Proof.
  induction js as [|j js IH]; [done|]. cbn [fmap list_fmap].
  rewrite !filter_cons.
  destruct (decide (active_for u (mark_failed jid msg t j))) as [Ha|Ha].
  - rewrite decide_True; [cbn; lia|].
    unfold mark_failed in Ha. destruct (_ =? _); [|done].
    destruct Ha as (_ & _ & [Hs|Hs]); discriminate Hs.
  - destruct (decide (active_for u j)); cbn; lia.
Qed.

Lemma Forall2_impl_l {A B} (P Q : A → B → Prop) (R : A → Prop) l k :
  Forall R l → Forall2 P l k → (∀ x y, R x → P x y → Q x y) → Forall2 Q l k.
Proof.
  intros HR HP HQ. induction HP as [|x y l k Hxy HP IH]; [constructor|].
  apply Forall_cons in HR as [Hx HR]. constructor; auto.
Qed.

Arguments syncAccount : simpl never.

(** Every dispatch of a batch starts parked at its dedup query. *)
Definition started (acc : SyncAccount) (p : Proc unit) : Prop :=
  at_dedup acc p ∧ all_calls (request_of acc) p.

Lemma park_requests {A} P (p : Proc A) w : all_calls P p → all_calls P (park p w).1.
Proof.
  revert w. induction p as [a|e|c k IH]; intros w Hp; cbn; try done.
  destruct (synchronous c); [|done].
  destruct (handle c w) as [o w1]. apply IH, Hp.
Qed.

Lemma start_all_syncAccount batch w :
  ∃ out, Forall2 started batch (start_all (syncAccount <$> batch) w).1
         ∧ (start_all (syncAccount <$> batch) w).2 = with_stdout out w.
Proof.
  revert w. induction batch as [|acc batch IH]; intros w; cbn.
  - exists (stdout w). split; [constructor|apply with_stdout_id].
  - destruct (syncAccount_starts acc w) as (out & Hst & Hw).
    pose proof (park_requests _ _ w (syncAccount_requests acc)) as Hreq.
    destruct (park (syncAccount acc) w) as [p1 w1]. cbn in *. subst w1.
    destruct (IH (with_stdout out w)) as (out' & HF & Hw').
    destruct (start_all _ (with_stdout out w)) as [ps1 w2]. cbn in *. subst w2.
    exists out'. split; [by constructor|done].
Qed.



Section SingleActive.
Context (batch : list SyncAccount).
Hypothesis batch_nodup : NoDup (user_id <$> batch).





End SingleActive.

(** A dispatch that finds an active job stops after the dedup query. *)
Lemma syncAccount_skips acc w :
  planned w (running_job_query (user_id acc)) = None →
  filter (active_for (user_id acc)) (review_sync_jobs w) ≠ [] →
  review_sync_jobs (run (syncAccount acc) w).2 = review_sync_jobs w
  ∧ trace (run (syncAccount acc) w).2
    = trace w ++ [ev_call (running_job_query (user_id acc))].
Proof.
  intros Hp Hact.
  destruct (syncAccount_starts acc w) as (out0 & Hst & Hw0).
  rewrite run_park. destruct (park (syncAccount acc) w) as [p0 w0].
  cbn [fst snd] in *. subst w0.
  rewrite run_parked by (by eapply (at_stage_parked acc st_dedup)).
  pose proof (resume_at_stage acc st_dedup p0 (with_stdout out0 w) Hst) as Hr.
  cbv beta iota in Hr.
  pose proof (handle_running_query (user_id acc) (with_stdout out0 w)) as [Hw1 Hex].
  destruct (handle _ (with_stdout out0 w)) as [o w1]. cbn [fst snd] in *.
  destruct Hr as (out & Hw' & Hst'). subst w1.
  destruct (existing_job o) as [j|].
  - cbn in Hst'. destruct (resume p0 _) as [p1 w1]. cbn [fst snd] in *.
    subst p1 w1. done.
  - destruct Hact. by apply Hex.
Qed.


Definition city_walks : SyncAccount :=
  {| user_id := "u2"; company_name := "City Walks";
     tripadvisor_location_id := "g60763-d5678";
     last_tripadvisor_sync_at := None; timezone := None |}.




(** ** Settle-all: one failing worker call in a batch *)

Definition owned_by (u : string) (j : SyncJob.row) : Prop :=
  SyncJob.tour_operator_id j = u.

#[global] Instance owned_by_dec u j : Decision (owned_by u j).
Proof. unfold owned_by. apply _. Defined.

Lemma owned_snoc u (l : list SyncJob.row) j :
  filter (owned_by u) (l ++ [j])
  = filter (owned_by u) l ++ (if decide (owned_by u j) then [j] else []).
Proof. rewrite filter_app, filter_cons, filter_nil. by destruct (decide _). Qed.

Lemma active_among_owned u (l : list SyncJob.row) :
  filter (owned_by u) l = [] → filter (active_for u) l = [].
Proof.
  intros Hl. induction l as [|j l IH]; [done|].
  rewrite filter_cons in Hl. rewrite filter_cons.
  destruct (decide (owned_by u j)) as [Hj|Hj]; [done|].
  rewrite decide_False; [by apply IH|]. by intros [? _].
Qed.

Lemma mark_failed_id jid msg t j : SyncJob.id (mark_failed jid msg t j) = SyncJob.id j.
Proof. unfold mark_failed. by destruct (_ =? _). Qed.

Lemma mark_failed_owner jid msg t j :
  SyncJob.tour_operator_id (mark_failed jid msg t j) = SyncJob.tour_operator_id j.
Proof. unfold mark_failed. by destruct (_ =? _). Qed.

Lemma mark_failed_others jid msg t (l : list SyncJob.row) :
  Forall (fun j => SyncJob.id j ≠ jid) l → mark_failed jid msg t <$> l = l.
Proof.
  induction 1 as [|j l Hj Hl IH]; [done|]. cbn. rewrite IH. f_equal.
  unfold mark_failed. by rewrite (proj2 (Nat.eqb_neq _ _) Hj).
Qed.

Lemma owned_mark_failed u jid msg t (l : list SyncJob.row) :
  filter (owned_by u) (mark_failed jid msg t <$> l)
  = mark_failed jid msg t <$> filter (owned_by u) l.
Proof.
  induction l as [|j l IH]; [done|]. cbn [fmap list_fmap].
  rewrite !filter_cons, IH.
  destruct (decide (owned_by u j)) as [Hj|Hj].
  - rewrite decide_True; [done|]. unfold owned_by. by rewrite mark_failed_owner.
  - rewrite decide_False; [done|]. unfold owned_by. by rewrite mark_failed_owner.
Qed.

Lemma NoDup_fmap_eq {A B} (f : A → B) (l : list A) x y :
  NoDup (f <$> l) → x ∈ l → y ∈ l → f x = f y → x = y.
Proof.
  induction l as [|z l IH]; cbn; [by intros _ ?%elem_of_nil|].
  intros [Hz Hl]%NoDup_cons Hx%elem_of_cons Hy%elem_of_cons Hf.
  destruct Hx as [->|Hx], Hy as [->|Hy]; auto.
  - destruct Hz. rewrite Hf. by apply list_elem_of_fmap_2.
  - destruct Hz. rewrite <- Hf. by apply list_elem_of_fmap_2.
Qed.

Definition store_call (c : Call) : Prop := ∀ b, c ≠ worker_post b.

Lemma running_job_query_store u : store_call (running_job_query u).
Proof. intros b. unfold running_job_query. discriminate. Qed.

Lemma jobs_insert_store v : store_call (jobs_insert_single v).
Proof. intros b. discriminate. Qed.

Lemma failed_update_store jid msg t : store_call (failed_update jid msg t).
Proof. intros b. unfold failed_update. discriminate. Qed.

Section SettleAll.
Context (batch : list SyncAccount) (w0 : World) (down : string → bool).

Hypothesis batch_nodup : NoDup (user_id <$> batch).
Hypothesis fresh_ids :
  Forall (fun j => SyncJob.id j < next_job_id w0) (review_sync_jobs w0).
Hypothesis batch_idle :
  Forall (fun acc => filter (active_for (user_id acc)) (review_sync_jobs w0) = []) batch.
Hypothesis store_up :
  ∀ n c, store_call c → faults w0 n c = None.
Hypothesis worker_up :
  ∀ n b, down (userId b) = false → faults w0 n (worker_post b) = None.
Hypothesis worker_down :
  ∀ n b, down (userId b) = true →
         ∃ f, faults w0 n (worker_post b) = Some f ∧ ∀ e, f ≠ store_error e.

Definition failure_reason : string := "Failed to trigger worker sync".

(** The row a finished dispatch leaves behind. *)
Definition outcome (acc : SyncAccount) (job : SyncJob.row) : Prop :=
  if down (user_id acc) then
    SyncJob.status job = failed ∧ SyncJob.error job = Some failure_reason
  else
    SyncJob.status job = pending ∧ SyncJob.error job = None.

Definition posted (acc : SyncAccount) (job : SyncJob.row) (w : World) : Prop :=
  ev_call (worker_post (worker_request (SyncJob.id job) acc)) ∈ trace w.

(** The rows created so far, and what each stage knows of its own. *)
Definition stage_rows (acc : SyncAccount) (s : Stage) (w : World)
  (news : list SyncJob.row) : Prop :=
  match s with
  | st_dedup | st_insert _ => filter (owned_by (user_id acc)) news = []
  | st_post job =>
      filter (owned_by (user_id acc)) news = [job]
      ∧ SyncJob.status job = pending ∧ SyncJob.error job = None
  | st_update jid t =>
      down (user_id acc) = true
      ∧ ∃ job, filter (owned_by (user_id acc)) news = [job]
               ∧ SyncJob.id job = jid ∧ posted acc job w
  | st_done =>
      ∃ job, filter (owned_by (user_id acc)) news = [job]
             ∧ outcome acc job ∧ posted acc job w
  end.

Definition progress (w : World) (news : list SyncJob.row)
  (acc : SyncAccount) (p : Proc unit) : Prop :=
  ∃ s, at_stage acc s p ∧ stage_rows acc s w news.

Record ledger (w : World) (news : list SyncJob.row) : Prop := {
  ledger_faults : faults w = faults w0;
  ledger_next : next_job_id w0 ≤ next_job_id w;
  ledger_jobs : review_sync_jobs w = review_sync_jobs w0 ++ news;
  ledger_ids :
    Forall (fun j => next_job_id w0 ≤ SyncJob.id j < next_job_id w) news;
  ledger_nodup : NoDup (SyncJob.id <$> news);
  ledger_owners :
    Forall (fun j => SyncJob.tour_operator_id j ∈ user_id <$> batch) news
}.

Definition settle_inv (ps : list (Proc unit)) (w : World) : Prop :=
  ∃ news, ledger w news ∧ Forall2 (progress w news) batch ps.

Lemma planned_store w c :
  faults w = faults w0 → store_call c → planned w c = None.
Proof using store_up. intros Hf Hc. unfold planned. by rewrite Hf, store_up. Qed.

Lemma planned_worker w b :
  faults w = faults w0 →
  planned w (worker_post b) = None ↔ down (userId b) = false.
Proof using worker_up worker_down.
  intros Hf. unfold planned. rewrite Hf.
  destruct (down (userId b)) eqn:Hd.
  - destruct (worker_down (length (trace w)) b Hd) as (f & -> & Hne).
    split; [|done]. destruct f as [e|s t|e]; cbn; try done. by destruct (Hne e).
  - by rewrite worker_up.
Qed.

Lemma progress_kept w w' news news' a q :
  progress w news a q →
  filter (owned_by (user_id a)) news' = filter (owned_by (user_id a)) news →
  (∃ evs, trace w' = trace w ++ evs) →
  progress w' news' a q.
Proof.
  intros (s & Hs & Hrows) Heq [evs Ht]. exists s. split; [done|].
  destruct s; cbn in *; unfold posted in *; rewrite Heq.
  - done.
  - done.
  - done.
  - destruct Hrows as (? & job & ? & ? & ?). split; [done|]. exists job.
    rewrite Ht, elem_of_app. auto.
  - destruct Hrows as (job & ? & ? & ?). exists job.
    rewrite Ht, elem_of_app. auto.
Qed.

Lemma resume_progress acc p w news :
  acc ∈ batch → ledger w news → progress w news acc p →
  ∃ news', ledger (resume p w).2 news'
    ∧ progress (resume p w).2 news' acc (resume p w).1
    ∧ (∀ u, u ≠ user_id acc →
            filter (owned_by u) news' = filter (owned_by u) news)
    ∧ (∃ evs, trace (resume p w).2 = trace w ++ evs).
Proof using All.
  intros Hacc [Hf Hnext Hj Hids Hnd Hown] (s & Hs & Hrows).
  pose proof (resume_at_stage acc s p w Hs) as Hr.
  destruct s as [|t|job|jid t|]; cbv beta iota in Hr; cbn [stage_rows] in Hrows.
  - (* the dedup query finds nothing *)
    pose proof (handle_running_query (user_id acc) w) as [Hw1 Hex].
    specialize (Hex (planned_store w _ Hf (running_job_query_store _))).
    destruct (handle _ w) as [o w1]. cbn [fst snd] in *.
    destruct Hr as (out & -> & Hst). subst w1.
    assert (existing_job o = None) as Ho.
    { apply Hex. rewrite Hj, filter_app.
      pose proof (proj1 (Forall_forall _ _) batch_idle acc Hacc) as Hidle.
      cbn beta in Hidle. by rewrite Hidle, (active_among_owned _ _ Hrows). }
    rewrite Ho in Hst. exists news. split; [by split|].
    split; [by eexists|]. split; [done|]. by eexists.
  - (* the insert appends the account's row *)
    pose proof (handle_insert (new_job (user_id acc) false t) w) as Hh.
    cbv zeta in Hh. rewrite handle_async in Hh, Hr by done.
    rewrite (planned_store w _ Hf (jobs_insert_store _)) in Hh, Hr. cbn [fst snd] in *.
    destruct Hh as [_ Hw1]. destruct Hr as (out & -> & Hst). cbn in Hst |- *.
    set (job := inserted_row (new_job (user_id acc) false t) _) in *.
    exists (news ++ [job]). split; [split; cbn|].
    + done.
    + lia.
    + by rewrite Hj, app_assoc.
    + apply Forall_app. split.
      * eapply Forall_impl; [exact Hids|]. cbn. lia.
      * constructor; [|constructor]. cbn. lia.
    + rewrite fmap_app. apply NoDup_app. split; [done|]. split.
      * intros i Hi Hi'. apply list_elem_of_fmap_1 in Hi as (j & -> & Hjn).
        apply list_elem_of_singleton in Hi'. cbn in Hi'.
        apply (proj1 (Forall_forall _ _) Hids) in Hjn. lia.
      * cbn. apply NoDup_singleton.
    + apply Forall_app. split; [done|]. constructor; [|constructor].
      cbn. by apply list_elem_of_fmap_2.
    + split; [|split].
      * exists (st_post job). split; [exact Hst|]. cbn.
        rewrite owned_snoc, Hrows, decide_True; done.
      * intros u Hu. rewrite owned_snoc, decide_False; [by rewrite app_nil_r|].
        unfold owned_by. cbn. congruence.
      * by eexists.
  - (* the POST is accepted or not *)
    destruct Hrows as (Hmine & Hpend & Herr).
    pose proof (handle_post (worker_request (SyncJob.id job) acc) w) as [Hw1 Hacc'].
    rewrite (planned_worker w _ Hf) in Hacc'.
    change (userId _) with (user_id acc) in Hacc'.
    pose proof (handle_trace (worker_post (worker_request (SyncJob.id job) acc)) w eq_refl)
      as Ht.
    destruct (handle _ w) as [o w1]. cbn [fst snd] in *.
    destruct Hr as (out & -> & Hst). exists news.
    assert (posted acc job (with_stdout out w1)) as Hposted.
    { unfold posted. cbn. rewrite Ht, elem_of_app, list_elem_of_singleton. auto. }
    split; [subst w1; by split|]. split; [|split; [done|]].
    + destruct (worker_accepted o).
      * exists st_done. split; [done|]. exists job.
        split; [done|]. split; [|done].
        unfold outcome. by rewrite (proj1 Hacc' eq_refl).
      * exists (st_update (SyncJob.id job) (clock w1)). split; [done|].
        split; [|by exists job].
        destruct (down (user_id acc)); [done|]. by destruct (proj2 Hacc' eq_refl).
    + subst w1. by eexists.
  - (* the update marks the account's row *)
    destruct Hrows as (Hdown & job & Hmine & Hid & Hposted).
    pose proof (handle_update jid failure_reason t w) as Hh.
    cbv zeta in Hh.
    pose proof (handle_trace (failed_update jid failure_reason t) w eq_refl) as Ht.
    destruct Hh as [[_ Hw1]|[Hne _]];
      [|by destruct Hne; apply planned_store; [|apply failed_update_store]].
    change "Failed to trigger worker sync" with failure_reason in Hr.
    destruct (handle _ w) as [o w1]. cbn [fst snd] in *.
    destruct Hr as (out & -> & Hst). subst w1. cbn in Ht |- *.
    assert (owned_by (user_id acc) job ∧ job ∈ news) as [Hmy Hjob].
    { apply (list_elem_of_filter (owned_by (user_id acc))). rewrite Hmine. left. }
    pose proof (proj1 (Forall_forall _ _) Hids job Hjob) as Hbound.
    cbn beta in Hbound.
    exists (mark_failed jid failure_reason t <$> news). split; [split; cbn|].
    + done.
    + done.
    + rewrite Hj, fmap_app. f_equal. apply mark_failed_others.
      eapply Forall_impl; [exact fresh_ids|]. cbn. lia.
    + apply Forall_fmap. eapply Forall_impl; [exact Hids|].
      intros j. cbn. by rewrite mark_failed_id.
    + rewrite <- list_fmap_compose.
      erewrite list_fmap_ext; [exact Hnd|]. intros i j _. cbn.
      apply mark_failed_id.
    + apply Forall_fmap. eapply Forall_impl; [exact Hown|].
      intros j. cbn. by rewrite mark_failed_owner.
    + split; [|split].
      * exists st_done. split; [done|].
        exists (mark_failed jid failure_reason t job).
        rewrite owned_mark_failed, Hmine. split; [done|]. split.
        -- unfold outcome, mark_failed. rewrite Hdown, Hid, Nat.eqb_refl. done.
        -- unfold posted in *. rewrite mark_failed_id. cbn.
           rewrite elem_of_app. auto.
      * intros u Hu. rewrite owned_mark_failed. apply mark_failed_others.
        apply Forall_forall. intros j [Hju Hjn]%list_elem_of_filter Heq.
        apply Hu. rewrite <- Hju.
        assert (j = job) as -> by (eapply NoDup_fmap_eq; [exact Hnd|..]; congruence).
        exact Hmy.
      * by eexists.
  - rewrite Hr. exists news. split; [by split|]. split; [by exists st_done|].
    split; [done|]. exists []. by rewrite app_nil_r.
Qed.

Lemma settle_resume l1 p l2 w :
  settle_inv (l1 ++ p :: l2) w →
  settle_inv (l1 ++ (resume p w).1 :: l2) (resume p w).2.
Proof using All.
  intros (news & Hl & HF).
  apply Forall2_app_inv_r in HF as (b1 & b2' & HF1 & HF2 & Hb).
  apply Forall2_cons_inv_r in HF2 as (acc & b2 & Hp & HF2 & ->).
  assert (Forall (fun a => user_id a ≠ user_id acc) b1
          ∧ Forall (fun a => user_id a ≠ user_id acc) b2) as [Hb1 Hb2].
  { pose proof batch_nodup as Hnd. rewrite Hb, fmap_app, fmap_cons in Hnd.
    apply NoDup_app in Hnd as (_ & Hdis & Hnd).
    apply NoDup_cons in Hnd as [Hnot _].
    split; apply Forall_forall; intros a Ha Heq.
    - apply (Hdis (user_id a)); [by apply list_elem_of_fmap_2|].
      rewrite Heq. left.
    - apply Hnot. rewrite <- Heq. by apply list_elem_of_fmap_2. }
  assert (acc ∈ batch) as Hacc.
  { rewrite Hb, elem_of_app, elem_of_cons. auto. }
  destruct (resume_progress acc p w news Hacc Hl Hp)
    as (news' & Hl' & Hp' & Hothers & Htrace).
  exists news'. split; [done|]. rewrite Hb.
  apply Forall2_app; [|constructor; [done|]].
  - eapply Forall2_impl_l; [exact Hb1|exact HF1|]. intros a q Ha Hq.
    eapply progress_kept; [exact Hq|by apply Hothers|done].
  - eapply Forall2_impl_l; [exact Hb2|exact HF2|]. intros a q Ha Hq.
    eapply progress_kept; [exact Hq|by apply Hothers|done].
Qed.

(** Every account of the batch ends with exactly one new row, posted to
    the worker: pending where the worker accepted it, failed with the
    reason recorded where it did not; no other row is added or changed. *)
Lemma dispatchBatch_outcomes :
  ∃ news,
    review_sync_jobs (dispatchBatch batch w0).2 = review_sync_jobs w0 ++ news
    ∧ Forall (fun j => SyncJob.tour_operator_id j ∈ user_id <$> batch) news
    ∧ Forall (fun acc =>
                ∃ job, filter (owned_by (user_id acc)) news = [job]
                       ∧ outcome acc job
                       ∧ posted acc job (dispatchBatch batch w0).2) batch.
Proof using All.
  cbn.
  destruct (allSettled_inv settle_inv settle_resume (syncAccount <$> batch) w0)
    as (ps' & Hset & _ & (news & Hl & HF)).
  { destruct (start_all_syncAccount batch w0) as (out & HF & Hw).
    rewrite Hw. exists []. split.
    - split; cbn; try done; [by rewrite app_nil_r|constructor].
    - eapply Forall2_impl; [exact HF|]. intros a q [Hd _]. by exists st_dedup. }
  exists news. destruct Hl as [_ _ Hj _ _ Hown]. split; [done|]. split; [done|].
  eapply Forall2_Forall_l; [exact HF|].
  eapply Forall_impl; [exact Hset|]. intros q Hq a (s & Hs & Hrows).
  destruct s; cbn in Hs; try (destruct Hs as (k & -> & _); by destruct Hq).
  exact Hrows.
Qed.
End SettleAll.

(** C5. A batch of three distinct accounts without active jobs, a store
    that answers, and a worker that fails for [b] only, in whatever way and
    whenever it is called.  However the requests of the batch are
    interleaved, [a] and [c] end with one new pending row each, posted to
    the worker; [b] ends with one new row, marked failed with a non-empty
    error; nothing else is added to the table. *)
Theorem settle_all_isolates_failure (a b c : SyncAccount) (w : World) :
  NoDup [user_id a; user_id b; user_id c] →
  Forall (fun j => SyncJob.id j < next_job_id w) (review_sync_jobs w) →
  Forall (fun acc => filter (active_for (user_id acc)) (review_sync_jobs w) = [])
    [a; b; c] →
  (∀ n call, store_call call → faults w n call = None) →
  (∀ n body, userId body ≠ user_id b → faults w n (worker_post body) = None) →
  (∀ n body, userId body = user_id b →
             ∃ f, faults w n (worker_post body) = Some f ∧ ∀ e, f ≠ store_error e) →
  let w' := (dispatchBatch [a; b; c] w).2 in
  ∃ news ja jb jc msg,
    review_sync_jobs w' = review_sync_jobs w ++ news
    ∧ Forall (fun j => SyncJob.tour_operator_id j ∈ [user_id a; user_id b; user_id c]) news
    ∧ filter (owned_by (user_id a)) news = [ja]
    ∧ SyncJob.status ja = pending ∧ SyncJob.error ja = None
    ∧ ev_call (worker_post (worker_request (SyncJob.id ja) a)) ∈ trace w'
    ∧ filter (owned_by (user_id c)) news = [jc]
    ∧ SyncJob.status jc = pending ∧ SyncJob.error jc = None
    ∧ ev_call (worker_post (worker_request (SyncJob.id jc) c)) ∈ trace w'
    ∧ filter (owned_by (user_id b)) news = [jb]
    ∧ SyncJob.status jb = failed ∧ SyncJob.error jb = Some msg ∧ msg ≠ "".
Proof.
  intros Hnd Hfresh Hidle Hstore Hup Hdown. cbv zeta.
  set (down := fun u => bool_decide (u = user_id b)).
  destruct (dispatchBatch_outcomes [a; b; c] w down Hnd Hfresh Hidle Hstore)
    as (news & Hj & Hown & Hall).
  { intros n body Hd. apply Hup. by apply bool_decide_eq_false in Hd. }
  { intros n body Hd. apply Hdown. by apply bool_decide_eq_true in Hd. }
  apply NoDup_cons in Hnd as [Hab Hnd]. apply NoDup_cons in Hnd as [Hbc _].
  rewrite !elem_of_cons, elem_of_nil in Hab. rewrite elem_of_cons, elem_of_nil in Hbc.
  apply Forall_cons in Hall as [(ja & Ha & Hoa & Hpa) Hall].
  apply Forall_cons in Hall as [(jb & Hb & Hob & _) Hall].
  apply Forall_cons in Hall as [(jc & Hc & Hoc & Hpc) _].
  unfold outcome, down in Hoa, Hob, Hoc.
  rewrite bool_decide_eq_false_2 in Hoa by intuition.
  rewrite bool_decide_eq_true_2 in Hob by done.
  rewrite bool_decide_eq_false_2 in Hoc by intuition.
  exists news, ja, jb, jc, failure_reason.
  destruct Hoa, Hob, Hoc. unfold posted in *. auto 20.
Qed.

Definition river_cruises : SyncAccount :=
  {| user_id := "u3"; company_name := "River Cruises";
     tripadvisor_location_id := "g60763-d9012";
     last_tripadvisor_sync_at := None; timezone := None |}.

(** The worker answers 503 to every request for [u2]. *)
Definition worker_down_for_u2 : nat → Call → option Fault := fun _ c =>
  match c with
  | worker_post body =>
      if String.eqb (userId body) "u2" then Some (http_error 503 "unavailable")
      else None
  | _ => None
  end.

Definition three_account_world : World :=
  with_table [job_row 0 "u1" completed (day 19999 2 0) (Some (day 19999 2 5))]
    (initial_world [] (day 20000 2 0) worker_down_for_u2
       (fun _ => [2; 1; 0; 0; 1; 2; 1; 1; 0])).

Lemma settle_all_isolates_failure_witness :
  let w := three_account_world in
  let w' := (dispatchBatch [harbor_tours; city_walks; river_cruises] w).2 in
  ∃ news ja jb jc msg,
    review_sync_jobs w' = review_sync_jobs w ++ news
    ∧ Forall (fun j => SyncJob.tour_operator_id j ∈ ["u1"; "u2"; "u3"]) news
    ∧ filter (owned_by "u1") news = [ja]
    ∧ SyncJob.status ja = pending ∧ SyncJob.error ja = None
    ∧ ev_call (worker_post (worker_request (SyncJob.id ja) harbor_tours)) ∈ trace w'
    ∧ filter (owned_by "u3") news = [jc]
    ∧ SyncJob.status jc = pending ∧ SyncJob.error jc = None
    ∧ ev_call (worker_post (worker_request (SyncJob.id jc) river_cruises)) ∈ trace w'
    ∧ filter (owned_by "u2") news = [jb]
    ∧ SyncJob.status jb = failed ∧ SyncJob.error jb = Some msg ∧ msg ≠ "".
Proof.
  apply (settle_all_isolates_failure harbor_tours city_walks river_cruises
           three_account_world).
  - apply (bool_decide_unpack _). vm_compute. exact I.
  - repeat constructor.
  - repeat constructor.
  - intros n call Hcall. destruct call; try reflexivity. by destruct (Hcall body).
  - intros n body Hne. cbn in *. by apply String.eqb_neq in Hne as ->.
  - intros n body Heq. cbn in *. apply String.eqb_eq in Heq as ->.
    eexists. split; [reflexivity|]. discriminate.
Defined.

(** ** Batches and pacing *)

Lemma handle_request acc c w :
  request_of acc c →
  clock (handle c w).2 = clock w
  ∧ trace (handle c w).2 = trace w ++ (if synchronous c then [] else [ev_call c]).
Proof.
  intros Hc.
  destruct c; cbn in Hc; try done;
    try (rewrite handle_async by done; destruct (planned w _); cbn; done).
  - cbn. by rewrite app_nil_r.
  - cbn. by rewrite app_nil_r.
Qed.

Lemma park_request acc (p : Proc unit) w :
  all_calls (request_of acc) p →
  all_calls (request_of acc) (park p w).1
  ∧ clock (park p w).2 = clock w
  ∧ trace (park p w).2 = trace w.
Proof.
  revert w. induction p as [a|e|c k IH]; intros w Hp; cbn; try done.
  destruct Hp as [Hc Hk].
  destruct (synchronous c) eqn:Hs; [|by repeat split].
  destruct (handle_request acc c w Hc) as [Hcl Htr]. rewrite Hs, app_nil_r in Htr.
  destruct (handle c w) as [o w1]. cbn in *.
  destruct (IH o w1 (Hk o)) as (? & ? & ?). repeat split; congruence.
Qed.

Lemma resume_request acc (p : Proc unit) w :
  all_calls (request_of acc) p →
  all_calls (request_of acc) (resume p w).1
  ∧ clock (resume p w).2 = clock w
  ∧ trace (resume p w).2
    = trace w ++ match p with
                 | Vis c _ => if synchronous c then [] else [ev_call c]
                 | _ => []
                 end.
Proof.
  destruct p as [a|e|c k]; cbn; intros Hp; try (by rewrite app_nil_r).
  destruct Hp as [Hc Hk].
  destruct (handle_request acc c w Hc) as [Hcl Htr].
  destruct (handle c w) as [o w1]. cbn in *.
  destruct (park_request acc (k o) w1 (Hk o)) as (? & ? & ?).
  repeat split; congruence.
Qed.

(** The requests one batch adds to the trace: only requests of its own
    dispatches, among them the dedup query of every account of the batch. *)
Definition batch_segment (b : list SyncAccount) (seg : list Event) : Prop :=
  ∃ cs, seg = ev_call <$> cs
        ∧ Forall (fun c => ∃ acc, acc ∈ b ∧ request_of acc c) cs
        ∧ Forall (fun acc => running_job_query (user_id acc) ∈ cs) b.

Section BatchSegment.
Context (b : list SyncAccount) (w0 : World).

Definition dispatching (cs : list Call) (acc : SyncAccount) (p : Proc unit) : Prop :=
  all_calls (request_of acc) p
  ∧ (running_job_query (user_id acc) ∈ cs
     ∨ ∃ k, p = Vis (running_job_query (user_id acc)) k).

Definition segment_inv (ps : list (Proc unit)) (w : World) : Prop :=
  clock w = clock w0
  ∧ ∃ cs, trace w = trace w0 ++ (ev_call <$> cs)
          ∧ Forall (fun c => ∃ acc, acc ∈ b ∧ request_of acc c) cs
          ∧ Forall2 (dispatching cs) b ps.

Lemma segment_resume l1 p l2 w :
  segment_inv (l1 ++ p :: l2) w →
  segment_inv (l1 ++ (resume p w).1 :: l2) (resume p w).2.
Proof.
  intros (Hcl & cs & Htr & Hcs & HF).
  apply Forall2_app_inv_r in HF as (b1 & b2' & HF1 & HF2 & Hb).
  apply Forall2_cons_inv_r in HF2 as (acc & b2 & [Hp Hq] & HF2 & ->).
  destruct (resume_request acc p w Hp) as (Hp' & Hcl' & Htr').
  assert (acc ∈ b) as Hacc by (rewrite Hb, elem_of_app, elem_of_cons; auto).
  split; [congruence|].
  set (new := match p with
              | Vis c _ => if synchronous c then [] else [c]
              | _ => []
              end).
  assert (match p with
          | Vis c _ => if synchronous c then [] else [ev_call c]
          | _ => []
          end = ev_call <$> new) as Hnew.
  { unfold new. destruct p as [| |c k]; try done. by destruct (synchronous c). }
  exists (cs ++ new). split; [|split].
  - rewrite Htr', Htr, Hnew, fmap_app. by rewrite app_assoc.
  - apply Forall_app. split; [done|]. unfold new.
    destruct p as [| |c k]; try constructor.
    destruct (synchronous c); constructor; [|constructor].
    exists acc. split; [done|]. by destruct Hp.
  - rewrite Hb. apply Forall2_app; [|constructor].
    + eapply Forall2_impl; [exact HF1|]. intros a q [Ha Hd]. split; [done|].
      rewrite elem_of_app. tauto.
    + split; [done|]. left. rewrite elem_of_app.
      destruct Hq as [Hq|[k ->]]; [by left|]. right. unfold new. cbn. left.
    + eapply Forall2_impl; [exact HF2|]. intros a q [Ha Hd]. split; [done|].
      rewrite elem_of_app. tauto.
Qed.

Lemma dispatchBatch_segment :
  ∃ seg, trace (dispatchBatch b w0).2 = trace w0 ++ seg
         ∧ batch_segment b seg
         ∧ clock (dispatchBatch b w0).2 = clock w0.
Proof.
  cbn.
  destruct (allSettled_inv segment_inv segment_resume (syncAccount <$> b) w0)
    as (ps' & Hset & _ & (Hcl & cs & Htr & Hcs & HF)).
  { destruct (start_all_syncAccount b w0) as (out & HF & Hw).
    rewrite Hw. split; [done|]. exists []. split; [by rewrite app_nil_r|].
    split; [constructor|].
    eapply Forall2_impl; [exact HF|]. intros a q [Hd Ha]. split; [done|].
    right. destruct Hd as (k & -> & _). by exists k. }
  exists (ev_call <$> cs). split; [done|]. split; [|done].
  exists cs. split; [done|]. split; [done|].
  eapply Forall2_Forall_l; [exact HF|].
  eapply Forall_impl; [exact Hset|]. intros q Hq a [_ [Hin|[k ->]]]; [done|].
  by destruct Hq.
Qed.
End BatchSegment.

(** The body of the loop of [sweep_batches], at index [i]. *)
Definition batch_step (batches : list (list SyncAccount)) (i : nat) : M unit :=
  let batch := default [] (batches !! i) in
  run (console_log ("Processing batch " +:+ pretty (i + 1) +:+ "/"
                      +:+ pretty (length batches) +:+ " ("
                      +:+ pretty (length batch) +:+ " accounts)"));;
  dispatchBatch batch;;
  if i <? length batches - 1 then run (sleep 30000) else mret tt.

Lemma sweep_batches_loop batches :
  sweep_batches dispatchBatch batches
  = for_each (seq 0 (length batches)) (batch_step batches).
Proof. reflexivity. Qed.

(** The segments of the batches, a pacing delay between any two. *)
Fixpoint paced (segments : list (list Event)) : list Event :=
  match segments with
  | [] => []
  | seg :: rest =>
      match rest with
      | [] => seg
      | _ :: _ => seg ++ ev_call (set_timeout 30000) :: paced rest
      end
  end.

Lemma run_sleep ms w :
  run (sleep ms) w
  = (Fulfilled tt, with_clock (clock w + ms)%Z (issued (set_timeout ms) w)).
Proof.
  unfold sleep. cbn. unfold planned.
  by destruct (faults w _ _) as [[e|s b|e]|].
Qed.

Lemma M_bind_fulfilled {A B} (m : M A) (f : A → M B) w a w' :
  m w = (Fulfilled a, w') → (m ≫= f) w = f a w'.
Proof. intros H. unfold mbind, M_bind. by rewrite H. Qed.

Lemma batch_step_run batches i b w :
  batches !! i = Some b →
  ∃ seg, batch_segment b seg
    ∧ (batch_step batches i w).1 = Fulfilled tt
    ∧ trace (batch_step batches i w).2
      = trace w ++ seg ++ (if i <? length batches - 1
                           then [ev_call (set_timeout 30000)] else [])
    ∧ clock (batch_step batches i w).2
      = (clock w + (if (i <? length batches - 1)%nat then 30000 else 0))%Z.
Proof.
  intros Hb. unfold batch_step. rewrite Hb. change (default [] (Some b)) with b.
  erewrite M_bind_fulfilled; [|reflexivity].
  match goal with
  | |- context [(dispatchBatch b ≫= ?f) ?w1] =>
      destruct (dispatchBatch_segment b w1) as (seg & Htr & Hseg & Hcl);
      rewrite (M_bind_fulfilled (dispatchBatch b) f w1 tt (dispatchBatch b w1).2 eq_refl);
      set (w2 := (dispatchBatch b w1).2) in *; clearbody w2
  end.
  exists seg. split; [done|].
  destruct (i <? length batches - 1).
  - rewrite run_sleep. cbn. rewrite Htr, Hcl. cbn.
    split; [done|]. split; [by rewrite <- app_assoc|done].
  - cbn. rewrite Htr, Hcl, app_nil_r. cbn. split; [done|]. split; [done|lia].
Qed.

Lemma sweep_from batches : ∀ n i w,
  i + n = length batches →
  let r := for_each (seq i n) (batch_step batches) w in
  ∃ segments,
    Forall2 batch_segment (drop i batches) segments
    ∧ r.1 = Fulfilled tt
    ∧ trace r.2 = trace w ++ paced segments
    ∧ clock r.2 = (clock w + Z.of_nat (n - 1) * 30000)%Z.
Proof.
  induction n as [|n IH]; intros i w Hlen; cbv zeta.
  - exists []. rewrite drop_ge by lia. cbn.
    split; [constructor|]. split; [done|]. split; [by rewrite app_nil_r|lia].
  - assert (is_Some (batches !! i)) as [b Hb] by (apply lookup_lt_is_Some; lia).
    destruct (batch_step_run batches i b w Hb) as (seg & Hseg & Hok & Htr & Hcl).
    cbn [seq for_each].
    destruct (batch_step batches i w) as [[[]|e] w1] eqn:Hstep; [|done].
    cbn [fst snd] in *. erewrite M_bind_fulfilled; [|exact Hstep].
    destruct (IH (S i) w1 ltac:(lia)) as (segments & HF & Hok' & Htr' & Hcl').
    exists (seg :: segments).
    rewrite (drop_S batches b i Hb). split; [by constructor|]. split; [done|].
    rewrite Htr', Hcl', Htr, Hcl.
    destruct n as [|n].
    + rewrite drop_ge in HF by lia. apply Forall2_nil_inv_l in HF as ->.
      rewrite (proj2 (Nat.ltb_ge _ _)) by lia. cbn.
      split; [by rewrite !app_nil_r|lia].
    + pose proof (Forall2_length _ _ _ HF) as Hl. rewrite length_drop in Hl.
      destruct segments as [|s' rest]; [cbn in Hl; lia|].
      rewrite (proj2 (Nat.ltb_lt _ _)) by lia.
      split; [cbn; by rewrite <- !app_assoc|lia].
Qed.

Lemma getAccountsForSync_run w :
  planned w (profiles_select eligible_filters) = None →
  run getAccountsForSync w
  = (Fulfilled (selected_columns <$> filter eligible (profiles w)),
     issued (profiles_select eligible_filters) w).
Proof.
  intros Hp. unfold getAccountsForSync, await, mbind, Proc_bind.
  cbn [run try_catch bind]. rewrite handle_async, Hp by done. cbn.
  by rewrite select_eligible.
Qed.

(** The pacing delays in a trace, in milliseconds. *)
Definition timers (t : list Event) : list Z :=
  omap (fun e => match e with
                 | ev_call (set_timeout ms) => Some ms
                 | _ => None
                 end) t.

Lemma timers_app t1 t2 : timers (t1 ++ t2) = timers t1 ++ timers t2.
Proof. apply omap_app. Qed.

Lemma timers_segment b seg : batch_segment b seg → timers seg = [].
Proof.
  intros (cs & -> & Hcs & _). induction Hcs as [|c cs (acc & _ & Hc) _ IH]; [done|].
  destruct c; cbn in Hc; try done; exact IH.
Qed.

Lemma timers_paced batches segments :
  Forall2 batch_segment batches segments →
  timers (paced segments) = replicate (length segments - 1) 30000%Z.
Proof.
  induction 1 as [|b seg batches segments Hseg HF IH]; [done|].
  cbn [paced]. destruct segments as [|seg' rest].
  - by rewrite (timers_segment b seg).
  - rewrite timers_app, (timers_segment b seg Hseg). cbn [app].
    change (timers (?e :: ?t)) with (timers [e] ++ timers t).
    rewrite IH. cbn. by rewrite Nat.sub_0_r.
Qed.

(** C4. A sweep entered with the flag down whose account fetch answers
    with N > 0 eligible accounts cuts them into ceil(N/5) batches of 5 (the
    last may be smaller).  Between raising and lowering the flag its trace
    is: the fetch, then the requests of batch 1, a 30 s timer, the requests
    of batch 2, a timer, ..., the requests of the last batch.  The requests
    of a batch are requests of its own dispatches only (no timer among
    them) and include the dedup query of each of its accounts.  So the
    timers of the sweep are ceil(N/5) - 1 timers of 30 s, and the clock,
    which only timers advance, ends (ceil(N/5) - 1) * 30 s later. *)
Theorem sweep_batches_and_pacing (w : World) :
  isRunning w = false →
  (∀ n, faults w n (profiles_select eligible_filters) = None) →
  let accounts := selected_columns <$> filter eligible (profiles w) in
  0 < length accounts →
  ∃ batches segments,
    chunkArray accounts 5 = Some batches
    ∧ length batches = ceil_div (length accounts) 5
    ∧ concat batches = accounts
    ∧ Forall (fun b => length b ≤ 5) batches
    ∧ (∀ k b, batches !! k = Some b → S k < length batches → length b = 5)
    ∧ Forall2 batch_segment batches segments
    ∧ trace (runDailySync w).2
      = trace w
        ++ [ev_isRunning true; ev_call (profiles_select eligible_filters)]
        ++ paced segments ++ [ev_isRunning false]
    ∧ timers (trace (runDailySync w).2)
      = timers (trace w) ++ replicate (ceil_div (length accounts) 5 - 1) 30000%Z
    ∧ clock (runDailySync w).2
      = (clock w + Z.of_nat (ceil_div (length accounts) 5 - 1) * 30000)%Z.
Proof.
  intros Hw Hfetch accounts Hpos.
  destruct (chunkArray_spec accounts 5 ltac:(lia))
    as (batches & Hchunk & [Hcat Hlen Hbound Hfull]).
  unfold runDailySync. rewrite (runDailySyncWith_idle _ _ w Hw).
  set (w1 := with_stdout _ (set_isRunning true w)).
  assert (planned w1 (profiles_select eligible_filters) = None) as Hp.
  { unfold planned. cbn. by rewrite Hfetch. }
  pose proof (getAccountsForSync_run w1 Hp) as Hget.
  change (selected_columns <$> filter eligible (profiles w1)) with accounts in Hget.
  unfold try_catch_finally, sweep_body.
  erewrite M_bind_fulfilled; [|exact Hget].
  erewrite M_bind_fulfilled; [|reflexivity].
  rewrite (proj2 (Nat.eqb_neq _ _)) by lia. rewrite Hchunk.
  rewrite sweep_batches_loop.
  match goal with
  | |- context [(for_each ?l ?body ≫= ?f) ?w2] =>
      destruct (sweep_from batches (length batches) 0 w2 eq_refl)
        as (segments & HF & Hok & Htr & Hcl);
      destruct (for_each l body w2) as [[[]|e] w3] eqn:Hloop; [|done];
      rewrite (M_bind_fulfilled (for_each l body) f w2 tt w3 Hloop)
  end.
  cbn [fst snd] in *. rewrite drop_0 in HF.
  exists batches, segments. repeat (split; [done|]).
  match goal with
  | |- trace ?wf = ?t ∧ _ => assert (trace wf = t) as Htrace
  end.
  { cbn. rewrite Htr. cbn. by rewrite <- !app_assoc. }
  split; [exact Htrace|]. split.
  - rewrite Htrace, !timers_app, (timers_paced batches segments HF).
    change (timers [ev_isRunning true; _]) with (@nil Z).
    change (timers [ev_isRunning false]) with (@nil Z).
    rewrite app_nil_r. cbn [app]. do 2 f_equal.
    apply Forall2_length in HF. rewrite <- Hlen. lia.
  - cbn. rewrite Hcl, Hlen. done.
Qed.

(** Seven eligible accounts and one without lock: two batches. *)
Definition seven_account_world : World :=
  initial_world
    (unlocked_profile
       :: (locked_profile <$> ["a"; "b"; "c"; "d"; "e"; "f"; "g"]))
    (day 20000 2 0) worker_down_for_u2 (fun _ => [4; 0; 3; 3; 1; 2; 0; 1]).

Lemma sweep_batches_and_pacing_witness :
  let w := seven_account_world in
  let accounts := selected_columns <$> filter eligible (profiles w) in
  ∃ batches segments,
    chunkArray accounts 5 = Some batches
    ∧ length batches = ceil_div (length accounts) 5
    ∧ concat batches = accounts
    ∧ Forall (fun b => length b ≤ 5) batches
    ∧ (∀ k b, batches !! k = Some b → S k < length batches → length b = 5)
    ∧ Forall2 batch_segment batches segments
    ∧ trace (runDailySync w).2
      = trace w
        ++ [ev_isRunning true; ev_call (profiles_select eligible_filters)]
        ++ paced segments ++ [ev_isRunning false]
    ∧ timers (trace (runDailySync w).2)
      = timers (trace w) ++ replicate (ceil_div (length accounts) 5 - 1) 30000%Z
    ∧ clock (runDailySync w).2
      = (clock w + Z.of_nat (ceil_div (length accounts) 5 - 1) * 30000)%Z.
Proof.
  apply (sweep_batches_and_pacing seven_account_world).
  - reflexivity.
  - intros n. reflexivity.
  - vm_compute. lia.
Defined.

Example seven_accounts_two_batches :
  chunkArray ["a"; "b"; "c"; "d"; "e"; "f"; "g"] 5
  = Some [["a"; "b"; "c"; "d"; "e"]; ["f"; "g"]]
  ∧ clock (runDailySync seven_account_world).2
    = (clock seven_account_world + 30000)%Z.
Proof. vm_compute. auto. Qed.

(** * Further properties of the scheduler *)

(** ** Methods that never reject *)

(** An answer the environment can give to a request: a request that does
    not give up control always completes. *)
Definition answers (c : Call) (o : Settled (Resp c)) : Prop :=
  synchronous c = true → ∃ r, o = Fulfilled r.

(** No answer of the environment leads the process to a [throw] that is
    not caught. *)
Fixpoint never_throws {A} (p : Proc A) : Prop :=
  match p with
  | Ret _ => True
  | Throw _ => False
  | Vis c k => ∀ o, answers c o → never_throws (k o)
  end.

Lemma handle_answers c w : answers c (handle c w).1.
Proof.
  intros Hc. unfold handle. rewrite Hc. destruct (perform c w) as [r w']. by exists r.
Qed.

Lemma never_throws_run {A} (p : Proc A) w :
  never_throws p → ∃ a, (run p w).1 = Fulfilled a.
Proof.
  revert w. induction p as [a|e|c k IH]; intros w Hp; cbn in *; [by exists a|done|].
  pose proof (handle_answers c w) as Ho.
  destruct (handle c w) as [o w1]. apply IH, Hp, Ho.
Qed.

Lemma never_throws_bind {A B} (p : Proc A) (f : A → Proc B) :
  never_throws p → (∀ a, never_throws (f a)) → never_throws (p ≫= f).
Proof.
  intros Hp Hf. unfold mbind, Proc_bind.
  induction p as [a|e|c k IH]; cbn in *; [apply Hf|done|].
  intros o Ho. apply IH, Hp, Ho.
Qed.

(** A [try] block whose handler does not throw: whatever the body does. *)
Lemma never_throws_try_catch {A} (p : Proc A) (h : JsError → Proc A) :
  (∀ e, never_throws (h e)) → never_throws (try_catch p h).
Proof.
  intros Hh. induction p as [a|e|c k IH]; cbn; [done|apply Hh|].
  intros o _. apply IH.
Qed.

Lemma never_throws_console level line : never_throws (await (console level line)).
Proof. intros o Ho. by destruct (Ho eq_refl) as [r ->]. Qed.

Lemma never_throws_logged {A} line (a : A) :
  never_throws (console_error line;; mret a).
Proof. apply never_throws_bind; [apply never_throws_console|done]. Qed.

Lemma never_throws_logSyncError errorType err userId :
  never_throws (logSyncError errorType err userId).
Proof. apply never_throws_try_catch. intros e. apply never_throws_console. Qed.

Lemma never_throws_syncAccount acc : never_throws (syncAccount acc).
Proof.
  apply never_throws_try_catch. intros e.
  apply never_throws_bind; [apply never_throws_console|].
  intros _. apply never_throws_logSyncError.
Qed.

(** X1. Every method of the scheduler that wraps its body in [try]/[catch]
    settles fulfilled, whatever the store, the worker and the fault plan
    do: [getAccountsForSync], [getRunningJob], [createSyncJob],
    [triggerWorkerSync], [markJobFailed], [logSyncError], [getSyncStats]
    and [syncAccount] never reject. *)
Theorem guarded_methods_never_reject (w : World) :
  (∃ accounts, (run getAccountsForSync w).1 = Fulfilled accounts)
  ∧ (∀ userId, ∃ job, (run (getRunningJob userId) w).1 = Fulfilled job)
  ∧ (∀ userId fullHistory,
       ∃ job, (run (createSyncJob userId fullHistory) w).1 = Fulfilled job)
  ∧ (∀ jobId account,
       ∃ success, (run (triggerWorkerSync jobId account) w).1 = Fulfilled success)
  ∧ (∀ jobId errorMessage, (run (markJobFailed jobId errorMessage) w).1 = Fulfilled tt)
  ∧ (∀ errorType err userId,
       (run (logSyncError errorType err userId) w).1 = Fulfilled tt)
  ∧ (∃ stats, (run getSyncStats w).1 = Fulfilled stats)
  ∧ (∀ account, (run (syncAccount account) w).1 = Fulfilled tt).
Proof.
  repeat apply conj.
  - apply never_throws_run, never_throws_try_catch. intros e. apply never_throws_logged.
  - intros u.
    apply never_throws_run, never_throws_try_catch. intros e. apply never_throws_logged.
  - intros u full.
    apply never_throws_run, never_throws_try_catch. intros e. apply never_throws_logged.
  - intros jid acc.
    apply never_throws_run, never_throws_try_catch. intros e. apply never_throws_logged.
  - intros jid msg.
    destruct (never_throws_run (markJobFailed jid msg) w) as [[] ->]; [|done].
    apply never_throws_try_catch. intros e. apply never_throws_console.
  - intros ty err u.
    destruct (never_throws_run (logSyncError ty err u) w) as [[] ->]; [|done].
    apply never_throws_logSyncError.
  - apply never_throws_run, never_throws_try_catch. intros e. apply never_throws_logged.
  - intros acc.
    destruct (never_throws_run (syncAccount acc) w) as [[] ->]; [|done].
    apply never_throws_syncAccount.
Qed.

(** ** One dispatch, request by request *)

(** What is on the console has no bearing on a request. *)
Lemma handle_with_stdout c out w :
  synchronous c = false →
  handle c (with_stdout out w) = ((handle c w).1, with_stdout out (handle c w).2).
Proof.
  intros Hc. rewrite !handle_async by done.
  change (planned (with_stdout out w) c) with (planned w c).
  destruct (planned w c); [done|]. by destruct c.
Qed.

(** The requests of [syncAccount] in their order, the console left out:
    the dedup query; the insert when it found nothing; the POST when a row
    came back; the update when the POST was not accepted. *)
Definition dispatch_requests (acc : SyncAccount) (w : World) : World :=
  let '(found, w1) := handle (running_job_query (user_id acc)) w in
  match existing_job found with
  | Some _ => w1
  | None =>
      let '(inserted, w2) :=
        handle (jobs_insert_single (new_job (user_id acc) false (clock w1))) w1 in
      match created_job inserted with
      | None => w2
      | Some job =>
          let '(response, w3) :=
            handle (worker_post (worker_request (SyncJob.id job) acc)) w2 in
          if worker_accepted response then w3
          else (handle (failed_update (SyncJob.id job) "Failed to trigger worker sync"
                          (clock w3)) w3).2
      end
  end.

Lemma syncAccount_run acc w :
  ∃ out, run (syncAccount acc) w = (Fulfilled tt, with_stdout out (dispatch_requests acc w)).
Proof.
  unfold dispatch_requests.
  destruct (syncAccount_starts acc w) as (out0 & Hst & Hw0).
  rewrite run_park. destruct (park (syncAccount acc) w) as [p0 w0].
  cbn [fst snd] in *. subst w0.
  rewrite run_parked by (by eapply (at_stage_parked acc st_dedup)).
  pose proof (resume_at_stage acc st_dedup p0 (with_stdout out0 w) Hst) as H1.
  cbv beta iota in H1. rewrite handle_with_stdout in H1 by done.
  destruct (handle (running_job_query (user_id acc)) w) as [o1 w1].
  cbn [fst snd] in H1. destruct H1 as (out1 & Hw1 & Hst1).
  destruct (resume p0 _) as [p1 w1']. cbn [fst snd] in *. subst w1'.
  destruct (existing_job o1) as [j|].
  { cbn in Hst1. subst p1. by eexists. }
  rewrite run_parked by (by eapply (at_stage_parked acc (st_insert _))).
  pose proof (resume_at_stage acc _ p1 (with_stdout out1 (with_stdout out0 w1)) Hst1) as H2.
  cbv beta iota in H2.
  change (with_stdout out1 (with_stdout out0 w1)) with (with_stdout out1 w1) in *.
  change (clock (with_stdout out1 w1)) with (clock w1) in *.
  rewrite handle_with_stdout in H2 by done.
  destruct (handle (jobs_insert_single _) w1) as [o2 w2].
  cbn [fst snd] in H2. destruct H2 as (out2 & Hw2 & Hst2).
  destruct (resume p1 _) as [p2 w2']. cbn [fst snd] in *. subst w2'.
  change (with_stdout out2 (with_stdout out1 w2)) with (with_stdout out2 w2) in *.
  destruct (created_job o2) as [job|].
  2: { cbn in Hst2. subst p2. by eexists. }
  rewrite run_parked by (by eapply (at_stage_parked acc (st_post _))).
  pose proof (resume_at_stage acc _ p2 (with_stdout out2 w2) Hst2) as H3.
  cbv beta iota in H3. rewrite handle_with_stdout in H3 by done.
  destruct (handle (worker_post _) w2) as [o3 w3].
  cbn [fst snd] in H3. destruct H3 as (out3 & Hw3 & Hst3).
  destruct (resume p2 _) as [p3 w3']. cbn [fst snd] in *. subst w3'.
  change (with_stdout out3 (with_stdout out2 w3)) with (with_stdout out3 w3) in *.
  destruct (worker_accepted o3).
  { cbn in Hst3. subst p3. by eexists. }
  rewrite run_parked by (by eapply (at_stage_parked acc (st_update _ _))).
  pose proof (resume_at_stage acc _ p3 (with_stdout out3 w3) Hst3) as H4.
  cbv beta iota in H4.
  change (clock (with_stdout out3 w3)) with (clock w3) in *.
  rewrite handle_with_stdout in H4 by done.
  destruct (handle (failed_update _ _ _) w3) as [o4 w4].
  cbn [fst snd] in H4. destruct H4 as (out4 & Hw4 & Hst4).
  destruct (resume p3 _) as [p4 w4']. cbn [fst snd] in *. subst w4'.
  cbn in Hst4. subst p4. by eexists.
Qed.

(** ** The methods one by one *)

Definition fetch_accounts : Call := profiles_select eligible_filters.

(** X2. [getAccountsForSync] issues one request.  When it is answered, the
    result is the eligible profiles (location and lock timestamp present),
    in table order, reduced to the five selected columns.  When it fails,
    by an error result or by a rejection, the result is the empty list and
    one error line is written; the failure is not passed on. *)
Theorem getAccountsForSync_result (w : World) :
  let r := run getAccountsForSync w in
  trace r.2 = trace w ++ [ev_call fetch_accounts]
  ∧ review_sync_jobs r.2 = review_sync_jobs w
  ∧ clock r.2 = clock w
  ∧ match planned w fetch_accounts with
    | None =>
        r.1 = Fulfilled (selected_columns <$> filter eligible (profiles w))
        ∧ stdout r.2 = stdout w
    | Some _ =>
        r.1 = Fulfilled [] ∧ ∃ line, stdout r.2 = stdout w ++ [(log_error, line)]
    end.
Proof.
  cbv zeta. unfold getAccountsForSync, fetch_accounts, await, mbind, Proc_bind.
  cbn [run try_catch bind]. rewrite handle_async by done.
  unfold planned.
  destruct (faults w (length (trace w)) (profiles_select eligible_filters))
    as [[e|s b|e]|]; cbn; rewrite ?select_eligible; eauto 10.
Qed.

(** X3. [triggerWorkerSync] issues exactly one POST, carrying the job id,
    the account's user id and location, [fullHistory = false] and priority
    [normal].  It resolves to [true] when the worker answers with an ok
    status; to [false], with one error line, when the status is not ok
    (the line quotes status and body) or when the request rejects.  It
    never touches the job table or the clock. *)
Theorem triggerWorkerSync_result (jobId : JobId) (account : SyncAccount) (w : World) :
  let post := worker_post {| jobId := jobId; userId := user_id account;
                             tripAdvisorUrl := tripadvisor_location_id account;
                             fullHistory := false; priority := "normal" |} in
  let r := run (triggerWorkerSync jobId account) w in
  trace r.2 = trace w ++ [ev_call post]
  ∧ review_sync_jobs r.2 = review_sync_jobs w
  ∧ clock r.2 = clock w
  ∧ match faults w (length (trace w)) post with
    | Some (http_error status body) =>
        r.1 = Fulfilled false
        ∧ stdout r.2 = stdout w ++ [(log_error, "Worker API error: " +:+ pretty status
                                                  +:+ " - " +:+ body)]
    | Some (thrown e) =>
        r.1 = Fulfilled false
        ∧ stdout r.2 = stdout w ++ [(log_error, "Error triggering worker sync: " +:+ e)]
    | _ => r.1 = Fulfilled true ∧ stdout r.2 = stdout w
    end.
Proof.
  cbv zeta. unfold triggerWorkerSync, worker_request, await, mbind, Proc_bind.
  cbn [run try_catch bind]. rewrite handle_async by done.
  unfold planned.
  destruct (faults w (length (trace w)) _) as [[e|s b|e]|]; cbn; auto.
Qed.

(** What [markJobFailed] writes into a row. *)
Definition marked (jobId : JobId) (errorMessage : string) (now : Timestamp)
  (before after : SyncJob.row) : Prop :=
  if SyncJob.id before =? jobId then
    SyncJob.status after = failed
    ∧ SyncJob.error after = Some errorMessage
    ∧ SyncJob.completed_at after = Some now
    ∧ SyncJob.id after = SyncJob.id before
    ∧ SyncJob.tour_operator_id after = SyncJob.tour_operator_id before
    ∧ SyncJob.platform after = SyncJob.platform before
    ∧ SyncJob.full_history after = SyncJob.full_history before
    ∧ SyncJob.total_available after = SyncJob.total_available before
    ∧ SyncJob.imported_count after = SyncJob.imported_count before
    ∧ SyncJob.created_at after = SyncJob.created_at before
    ∧ SyncJob.started_at after = SyncJob.started_at before
  else after = before.

(** X4. [markJobFailed] issues one update and resolves, whatever happens.
    When the update is carried out, every row with the given id gets
    status [failed], the error message and [completed_at] set to the time
    of the call, whatever its status was; every other row is left as it
    is.  When the update comes back with an error result, the result is
    not looked at: the table is unchanged and nothing is logged.  When the
    update rejects, one error line is written. *)
Theorem markJobFailed_effect (jobId : JobId) (errorMessage : string) (w : World) :
  let update := failed_update jobId errorMessage (clock w) in
  let r := run (markJobFailed jobId errorMessage) w in
  r.1 = Fulfilled tt
  ∧ trace r.2 = trace w ++ [ev_call update]
  ∧ clock r.2 = clock w
  ∧ match faults w (length (trace w)) update with
    | Some (store_error _) =>
        review_sync_jobs r.2 = review_sync_jobs w ∧ stdout r.2 = stdout w
    | Some (thrown e) =>
        review_sync_jobs r.2 = review_sync_jobs w
        ∧ stdout r.2 = stdout w ++ [(log_error, "Error marking job as failed: " +:+ e)]
    | _ =>
        Forall2 (marked jobId errorMessage (clock w))
          (review_sync_jobs w) (review_sync_jobs r.2)
        ∧ stdout r.2 = stdout w
    end.
Proof.
  cbv zeta. unfold markJobFailed, failed_update, await, mbind, Proc_bind.
  cbn [run try_catch bind handle synchronous perform fst snd].
  unfold planned.
  assert (Forall2 (marked jobId errorMessage (clock w)) (review_sync_jobs w)
            ((fun j => if matches_all job_matches [eq_id jobId] j
                       then updated_row {| upd_status := failed;
                                           upd_error := errorMessage;
                                           upd_completed_at := clock w |} j
                       else j) <$> review_sync_jobs w)) as Hmarked.
  { apply Forall2_fmap_r, Forall_Forall2_diag, Forall_forall. intros j _.
    unfold marked. cbn. rewrite andb_true_r. by destruct (SyncJob.id j =? jobId). }
  destruct (faults w (length (trace w)) _) as [[e|s b|e]|]; cbn; auto.
Qed.

(** ** The dedup query *)

Lemma order_created_at_desc_head l h t :
  order_created_at_desc l = h :: t →
  h ∈ l ∧ Forall (fun x => (SyncJob.created_at x ≤ SyncJob.created_at h)%Z) l.
Proof.
  revert h t. induction l as [|x l IH]; intros h t; [done|].
  unfold order_created_at_desc in *. cbn [foldr].
  destruct (foldr insert_desc [] l) as [|h' t'] eqn:Hsorted.
  - assert (l = []) as ->.
    { pose proof (order_created_at_desc_length l) as Hl.
      unfold order_created_at_desc in Hl. rewrite Hsorted in Hl.
      by destruct l. }
    cbn. intros [= <- <-]. split; [left|]. constructor; [lia|constructor].
  - destruct (IH h' t' eq_refl) as [Hin Hall]. cbn [insert_desc].
    destruct (Z.leb_spec (SyncJob.created_at h') (SyncJob.created_at x)) as [Hle|Hlt].
    + intros [= <- <-]. split; [left|]. constructor; [lia|].
      eapply Forall_impl; [exact Hall|]. cbn. lia.
    + intros [= <- <-]. split; [by right|]. constructor; [lia|done].
Qed.

(** X5. When its query is answered, [getRunningJob] returns a job
    exactly when the account has a pending or running tripadvisor job,
    and the job it returns is one of those with the latest [created_at];
    jobs of other accounts, other platforms or other statuses play no
    part.  It changes nothing in the table. *)
Theorem getRunningJob_returns_newest (userId : string) (w : World) :
  planned w (running_job_query userId) = None →
  let r := run (getRunningJob userId) w in
  review_sync_jobs r.2 = review_sync_jobs w
  ∧ match r.1 with
    | Fulfilled (Some job) =>
        job ∈ review_sync_jobs w
        ∧ active_for userId job
        ∧ ∀ other, other ∈ review_sync_jobs w → active_for userId other →
                   (SyncJob.created_at other ≤ SyncJob.created_at job)%Z
    | Fulfilled None => ∀ job, job ∈ review_sync_jobs w → ¬ active_for userId job
    | Rejected _ => False
    end.
Proof.
  intros Hp. cbv zeta.
  pose proof (getRunningJob_run userId w) as Hrun.
  rewrite handle_async, Hp in Hrun by done.
  destruct Hrun as [out ->]. cbn [fst snd perform running_job_query].
  split; [done|]. rewrite select_running.
  change (review_sync_jobs (issued _ w)) with (review_sync_jobs w).
  destruct (order_created_at_desc (filter (active_for userId) (review_sync_jobs w)))
    as [|h t] eqn:Hsorted.
  - cbn. intros job Hin Hact.
    pose proof (order_created_at_desc_length
                  (filter (active_for userId) (review_sync_jobs w))) as Hl.
    rewrite Hsorted in Hl.
    assert (job ∈ filter (active_for userId) (review_sync_jobs w)) as Hjob
      by (by apply list_elem_of_filter).
    destruct (filter _ _); [by apply elem_of_nil in Hjob|done].
  - destruct (order_created_at_desc_head _ _ _ Hsorted) as [Hin Hall].
    apply list_elem_of_filter in Hin as [Hact Hin]. cbn.
    split; [done|]. split; [done|]. intros other Ho Hoact.
    apply (proj1 (Forall_forall _ _) Hall). by apply list_elem_of_filter.
Qed.

(** [u1] has an old pending job, a newer running one and a still newer
    completed one. *)
Definition three_jobs_world : World :=
  with_table [job_row 0 "u1" pending (day 20000 2 0) None;
              job_row 1 "u1" running (day 20000 3 0) None;
              job_row 2 "u1" completed (day 20000 4 0) (Some (day 20000 4 5))]
    (initial_world [] (day 20000 5 0) quiet_plan no_schedule).

Lemma getRunningJob_returns_newest_witness :
  let w := three_jobs_world in
  let r := run (getRunningJob "u1") w in
  review_sync_jobs r.2 = review_sync_jobs w
  ∧ match r.1 with
    | Fulfilled (Some job) =>
        job ∈ review_sync_jobs w
        ∧ active_for "u1" job
        ∧ ∀ other, other ∈ review_sync_jobs w → active_for "u1" other →
                   (SyncJob.created_at other ≤ SyncJob.created_at job)%Z
    | Fulfilled None => ∀ job, job ∈ review_sync_jobs w → ¬ active_for "u1" job
    | Rejected _ => False
    end.
Proof. apply (getRunningJob_returns_newest "u1" three_jobs_world). reflexivity. Defined.

(** ** The request sequences of a dispatch *)

Lemma handle_running_query_frame u w :
  (handle (running_job_query u) w).2 = issued (running_job_query u) w.
Proof. apply handle_running_query. Qed.

(** X6. The requests of one [syncAccount] call form one of four
    sequences, and the job table follows them: the dedup query alone, or
    the dedup query and a failed insert (table unchanged in both); then
    the POST (one pending row appended); then the failure update (the
    appended row is there, marked failed if the update was carried out).
    So no POST is sent without a row inserted by this call, no row is
    marked failed without a POST, at most one row is added, and the clock
    is not advanced. *)
Theorem syncAccount_request_sequences (acc : SyncAccount) (w : World) :
  let w' := (run (syncAccount acc) w).2 in
  let dedup := running_job_query (user_id acc) in
  let insert := jobs_insert_single (new_job (user_id acc) false (clock w)) in
  let row := inserted_row (new_job (user_id acc) false (clock w)) w in
  let post := worker_post (worker_request (next_job_id w) acc) in
  let reason := "Failed to trigger worker sync" in
  let update := failed_update (next_job_id w) reason (clock w) in
  clock w' = clock w
  ∧ ((trace w' = trace w ++ [ev_call dedup]
      ∧ review_sync_jobs w' = review_sync_jobs w)
     ∨ (trace w' = trace w ++ [ev_call dedup; ev_call insert]
        ∧ review_sync_jobs w' = review_sync_jobs w)
     ∨ (trace w' = trace w ++ [ev_call dedup; ev_call insert; ev_call post]
        ∧ review_sync_jobs w' = review_sync_jobs w ++ [row])
     ∨ (trace w' = trace w ++ [ev_call dedup; ev_call insert; ev_call post; ev_call update]
        ∧ (review_sync_jobs w' = review_sync_jobs w ++ [row]
           ∨ review_sync_jobs w'
             = mark_failed (next_job_id w) reason (clock w)
                 <$> (review_sync_jobs w ++ [row])))).
Proof.
  cbv zeta. destruct (syncAccount_run acc w) as [out ->]. cbn [fst snd].
  unfold dispatch_requests.
  rewrite (surjective_pairing (handle (running_job_query (user_id acc)) w)).
  rewrite handle_running_query_frame.
  destruct (existing_job _) as [j|]; [split; [done|by left]|].
  set (w1 := issued (running_job_query (user_id acc)) w).
  pose proof (handle_insert (new_job (user_id acc) false (clock w)) w1) as Hins.
  cbv zeta in Hins. change (clock w1) with (clock w).
  destruct (handle (jobs_insert_single _) w1) as [o2 w2]. cbn [fst snd] in Hins.
  destruct (created_job o2) as [job|].
  2: { subst w2. split; [done|]. right. left. cbn. by rewrite <- app_assoc. }
  destruct Hins as [-> ->].
  set (w2 := with_jobs _ _ _).
  change (SyncJob.id (inserted_row _ _)) with (next_job_id w).
  pose proof (handle_post (worker_request (next_job_id w) acc) w2) as [Hw3 _].
  destruct (handle (worker_post _) w2) as [o3 w3]. cbn [fst snd] in Hw3. subst w3.
  destruct (worker_accepted o3).
  { split; [done|]. right. right. left. cbn. by rewrite <- !app_assoc. }
  set (w3 := issued _ w2). change (clock w3) with (clock w).
  pose proof (handle_update (next_job_id w) "Failed to trigger worker sync" (clock w) w3)
    as Hupd.
  cbv zeta in Hupd.
  destruct Hupd as [[_ ->]|[_ ->]]; (split; [done|]); right; right; right; cbn;
    rewrite <- !app_assoc; (split; [done|]); [by right|by left].
Qed.

(** X7. A row whose POST and failure update both fail stays pending: the
    worker was never told about it, and the next dispatch for the account,
    finding it, does nothing. *)
Theorem unmarked_row_blocks_account (acc : SyncAccount) (w : World) (fp fu : Fault) :
  let n := length (trace w) in
  let row := inserted_row (new_job (user_id acc) false (clock w)) w in
  filter (active_for (user_id acc)) (review_sync_jobs w) = [] →
  faults w n (running_job_query (user_id acc)) = None →
  faults w (n + 1) (jobs_insert_single (new_job (user_id acc) false (clock w))) = None →
  faults w (n + 2) (worker_post (worker_request (next_job_id w) acc)) = Some fp →
  (∀ e, fp ≠ store_error e) →
  faults w (n + 3) (failed_update (next_job_id w) "Failed to trigger worker sync" (clock w))
    = Some fu →
  (∀ s b, fu ≠ http_error s b) →
  faults w (n + 4) (running_job_query (user_id acc)) = None →
  let w' := (run (syncAccount acc) w).2 in
  let w'' := (run (syncAccount acc) w').2 in
  review_sync_jobs w' = review_sync_jobs w ++ [row]
  ∧ SyncJob.status row = pending
  ∧ trace w'' = trace w' ++ [ev_call (running_job_query (user_id acc))]
  ∧ review_sync_jobs w'' = review_sync_jobs w'.
Proof.
  intros n row Hidle Hf1 Hf2 Hf3 Hfp Hf4 Hfu Hf5. cbv zeta. unfold n in *. clear n.
  assert (trace (run (syncAccount acc) w).2
          = trace w ++ [ev_call (running_job_query (user_id acc));
                        ev_call (jobs_insert_single (new_job (user_id acc) false (clock w)));
                        ev_call (worker_post (worker_request (next_job_id w) acc));
                        ev_call (failed_update (next_job_id w)
                                   "Failed to trigger worker sync" (clock w))]
          ∧ review_sync_jobs (run (syncAccount acc) w).2 = review_sync_jobs w ++ [row]
          ∧ faults (run (syncAccount acc) w).2 = faults w) as (Htr & Hjobs & Hfaults).
  { destruct (syncAccount_run acc w) as [out ->]. cbn [fst snd].
    unfold dispatch_requests.
    pose proof (handle_running_query (user_id acc) w) as [Hw1 Hex].
    specialize (Hex ltac:(unfold planned; by rewrite Hf1)).
    destruct (handle (running_job_query (user_id acc)) w) as [o1 w1].
    cbn [fst snd] in *. subst w1. rewrite (proj2 Hex Hidle).
    set (w1 := issued (running_job_query (user_id acc)) w).
    change (clock w1) with (clock w).
    rewrite (handle_async (jobs_insert_single _)) by done.
    assert (planned w1 (jobs_insert_single (new_job (user_id acc) false (clock w))) = None)
      as ->.
    { unfold planned. cbn. rewrite length_app. cbn. by rewrite Hf2. }
    cbn [perform fst snd single created_job error_and pg_ok error data from_option].
    set (w2 := with_jobs _ _ _).
    change (SyncJob.id (inserted_row _ _)) with (next_job_id w).
    rewrite (handle_async (worker_post _)) by done.
    assert (∃ o, planned w2 (worker_post (worker_request (next_job_id w) acc)) = Some o)
      as [o3 Hp3].
    { unfold planned. cbn. rewrite !length_app. cbn.
      replace (length (trace w) + 1 + 1) with (length (trace w) + 2) by lia.
      rewrite Hf3. destruct fp as [e|s b|e]; cbn; eauto. by destruct (Hfp e). }
    rewrite Hp3, (planned_post_fails _ _ _ Hp3).
    set (w3 := issued _ w2). change (clock w3) with (clock w).
    rewrite (handle_async (failed_update _ _ _)) by done.
    assert (∃ o, planned w3 (failed_update (next_job_id w)
                               "Failed to trigger worker sync" (clock w)) = Some o)
      as [o4 ->].
    { unfold planned. cbn. rewrite !length_app. cbn.
      replace (length (trace w) + 1 + 1 + 1) with (length (trace w) + 3) by lia.
      rewrite Hf4.
      destruct fu as [e|s b|e]; cbn; eauto. by destruct (Hfu s b). }
    cbn. rewrite <- !app_assoc. done. }
  split; [done|]. split; [done|].
  apply and_comm. apply syncAccount_skips.
  - unfold planned. rewrite Hfaults, Htr, length_app. cbn.
    by rewrite Hf5.
  - rewrite Hjobs, filter_app, Hidle, filter_cons, decide_True; [done|].
    unfold active_for, tripadvisor_job, active. cbn. auto.
Qed.

(** The worker and the store both fail once the row is in. *)
Definition worker_and_update_down : nat → Call → option Fault := fun _ c =>
  match c with
  | worker_post _ => Some (thrown "ECONNREFUSED")
  | jobs_update _ _ =>
      Some (store_error {| code := "57014"; message := "statement timeout" |})
  | _ => None
  end.

Lemma unmarked_row_blocks_account_witness :
  let w := initial_world [] 1000%Z worker_and_update_down no_schedule in
  let row := inserted_row (new_job "u1" false 1000%Z) w in
  let w' := (run (syncAccount harbor_tours) w).2 in
  let w'' := (run (syncAccount harbor_tours) w').2 in
  review_sync_jobs w' = review_sync_jobs w ++ [row]
  ∧ SyncJob.status row = pending
  ∧ trace w'' = trace w' ++ [ev_call (running_job_query "u1")]
  ∧ review_sync_jobs w'' = review_sync_jobs w'.
Proof.
  apply (unmarked_row_blocks_account harbor_tours
           (initial_world [] 1000%Z worker_and_update_down no_schedule)
           (thrown "ECONNREFUSED")
           (store_error {| code := "57014"; message := "statement timeout" |}));
    try reflexivity; intros; discriminate.
Defined.

(** X8. A row whose POST fails and whose failure update is carried out
    does not hold the account back: the next dispatch, finding no active
    job, inserts a fresh row with the next id.  (With the update failing
    as well the row stays pending and the account is held back, see
    above.) *)
Theorem failed_row_frees_account (acc : SyncAccount) (w : World) (fp : Fault) :
  let n := length (trace w) in
  let row := inserted_row (new_job (user_id acc) false (clock w)) w in
  let reason := "Failed to trigger worker sync" in
  filter (active_for (user_id acc)) (review_sync_jobs w) = [] →
  faults w n (running_job_query (user_id acc)) = None →
  faults w (n + 1) (jobs_insert_single (new_job (user_id acc) false (clock w))) = None →
  faults w (n + 2) (worker_post (worker_request (next_job_id w) acc)) = Some fp →
  (∀ e, fp ≠ store_error e) →
  faults w (n + 3) (failed_update (next_job_id w) reason (clock w)) = None →
  faults w (n + 4) (running_job_query (user_id acc)) = None →
  let w' := (run (syncAccount acc) w).2 in
  let w'' := (run (syncAccount acc) w').2 in
  review_sync_jobs w'
  = mark_failed (next_job_id w) reason (clock w) <$> (review_sync_jobs w ++ [row])
  ∧ filter (active_for (user_id acc)) (review_sync_jobs w') = []
  ∧ ∃ cs, trace w'' = trace w' ++ [ev_call (running_job_query (user_id acc));
                                   ev_call (jobs_insert_single
                                              (new_job (user_id acc) false (clock w)))]
                        ++ (ev_call <$> cs).
Proof.
  intros n row reason Hidle Hf1 Hf2 Hf3 Hfp Hf4 Hf5. cbv zeta.
  unfold n, reason in *. clear n reason.
  assert (trace (run (syncAccount acc) w).2
          = trace w ++ [ev_call (running_job_query (user_id acc));
                        ev_call (jobs_insert_single (new_job (user_id acc) false (clock w)));
                        ev_call (worker_post (worker_request (next_job_id w) acc));
                        ev_call (failed_update (next_job_id w)
                                   "Failed to trigger worker sync" (clock w))]
          ∧ review_sync_jobs (run (syncAccount acc) w).2
            = mark_failed (next_job_id w) "Failed to trigger worker sync" (clock w)
                <$> (review_sync_jobs w ++ [row])
          ∧ faults (run (syncAccount acc) w).2 = faults w
          ∧ clock (run (syncAccount acc) w).2 = clock w) as (Htr & Hjobs & Hfaults & Hclock).
  { destruct (syncAccount_run acc w) as [out ->]. cbn [fst snd].
    unfold dispatch_requests.
    pose proof (handle_running_query (user_id acc) w) as [Hw1 Hex].
    specialize (Hex ltac:(unfold planned; by rewrite Hf1)).
    destruct (handle (running_job_query (user_id acc)) w) as [o1 w1].
    cbn [fst snd] in *. subst w1. rewrite (proj2 Hex Hidle).
    set (w1 := issued (running_job_query (user_id acc)) w).
    change (clock w1) with (clock w).
    rewrite (handle_async (jobs_insert_single _)) by done.
    assert (planned w1 (jobs_insert_single (new_job (user_id acc) false (clock w))) = None)
      as ->.
    { unfold planned. cbn. rewrite length_app. cbn. by rewrite Hf2. }
    cbn [perform fst snd single created_job error_and pg_ok error data from_option].
    set (w2 := with_jobs _ _ _).
    change (SyncJob.id (inserted_row _ _)) with (next_job_id w).
    rewrite (handle_async (worker_post _)) by done.
    assert (∃ o, planned w2 (worker_post (worker_request (next_job_id w) acc)) = Some o)
      as [o3 Hp3].
    { unfold planned. cbn. rewrite !length_app. cbn.
      replace (length (trace w) + 1 + 1) with (length (trace w) + 2) by lia.
      rewrite Hf3. destruct fp as [e|s b|e]; cbn; eauto. by destruct (Hfp e). }
    rewrite Hp3, (planned_post_fails _ _ _ Hp3).
    set (w3 := issued _ w2). change (clock w3) with (clock w).
    pose proof (handle_update (next_job_id w) "Failed to trigger worker sync" (clock w) w3)
      as Hupd.
    cbv zeta in Hupd. destruct Hupd as [[_ ->]|[Hne _]].
    - cbn. rewrite <- !app_assoc. done.
    - destruct Hne. unfold planned. cbn. rewrite !length_app. cbn.
      replace (length (trace w) + 1 + 1 + 1) with (length (trace w) + 3) by lia.
      by rewrite Hf4. }
  assert (filter (active_for (user_id acc)) (review_sync_jobs (run (syncAccount acc) w).2)
          = []) as Hfree.
  { rewrite Hjobs, fmap_app, filter_app.
    assert (filter (active_for (user_id acc))
              (mark_failed (next_job_id w) "Failed to trigger worker sync" (clock w)
                 <$> review_sync_jobs w) = []) as ->.
    { pose proof (count_mark_failed (user_id acc) (next_job_id w)
                    "Failed to trigger worker sync" (clock w) (review_sync_jobs w)) as Hle.
      rewrite Hidle in Hle.
      destruct (filter _ (mark_failed _ _ _ <$> _)); [done|cbn in Hle; lia]. }
    cbn [fmap list_fmap app]. rewrite filter_cons, decide_False; [done|].
    unfold mark_failed, row. cbn. rewrite Nat.eqb_refl.
    intros (_ & _ & [Hs|Hs]); discriminate Hs. }
  split; [done|]. split; [done|].
  set (w' := (run (syncAccount acc) w).2) in *.
  destruct (syncAccount_run acc w') as [out ->]. cbn [fst snd].
  unfold dispatch_requests.
  pose proof (handle_running_query (user_id acc) w') as [Hw1 Hex].
  assert (planned w' (running_job_query (user_id acc)) = None) as Hp.
  { unfold planned. rewrite Hfaults, Htr, length_app. cbn. by rewrite Hf5. }
  specialize (Hex Hp).
  destruct (handle (running_job_query (user_id acc)) w') as [o1 w1].
  cbn [fst snd] in *. subst w1. rewrite (proj2 Hex Hfree).
  set (w1 := issued (running_job_query (user_id acc)) w').
  change (clock w1) with (clock w'). rewrite Hclock.
  pose proof (handle_trace (jobs_insert_single (new_job (user_id acc) false (clock w)))
                w1 eq_refl) as Ht2.
  destruct (handle (jobs_insert_single _) w1) as [o2 w2]. cbn [snd] in Ht2.
  destruct (created_job o2) as [job|].
  2: { exists []. cbn [trace with_stdout]. rewrite Ht2. cbn. by rewrite <- app_assoc. }
  pose proof (handle_frame (worker_post (worker_request (SyncJob.id job) acc)) w2)
    as [_ _ _ _ [cs3 Hcs3]].
  destruct (handle (worker_post _) w2) as [o3 w3]. cbn [snd] in Hcs3.
  destruct (worker_accepted o3).
  { exists cs3. cbn [trace with_stdout]. rewrite Hcs3, Ht2. cbn.
    by rewrite <- !app_assoc. }
  pose proof (handle_frame (failed_update (SyncJob.id job)
                              "Failed to trigger worker sync" (clock w3)) w3)
    as [_ _ _ _ [cs4 Hcs4]].
  exists (cs3 ++ cs4). cbn [trace with_stdout].
  rewrite Hcs4, Hcs3, Ht2, fmap_app. cbn. by rewrite <- !app_assoc.
Qed.

(** The worker refuses the first job and nothing else fails. *)
Definition worker_refuses_once : nat → Call → option Fault := fun n c =>
  match n, c with
  | 2, worker_post _ => Some (http_error 503 "unavailable")
  | _, _ => None
  end.

Lemma failed_row_frees_account_witness :
  let w := initial_world [] 1000%Z worker_refuses_once no_schedule in
  let row := inserted_row (new_job "u1" false 1000%Z) w in
  let reason := "Failed to trigger worker sync" in
  let w' := (run (syncAccount harbor_tours) w).2 in
  let w'' := (run (syncAccount harbor_tours) w').2 in
  review_sync_jobs w'
  = mark_failed 0 reason 1000%Z <$> (review_sync_jobs w ++ [row])
  ∧ filter (active_for "u1") (review_sync_jobs w') = []
  ∧ ∃ cs, trace w'' = trace w' ++ [ev_call (running_job_query "u1");
                                   ev_call (jobs_insert_single (new_job "u1" false 1000%Z))]
                        ++ (ev_call <$> cs).
Proof.
  apply (failed_row_frees_account harbor_tours
           (initial_world [] 1000%Z worker_refuses_once no_schedule)
           (http_error 503 "unavailable"));
    try reflexivity; intros; discriminate.
Defined.

(** ** Status counts under failure *)

(** The four count queries of [getSyncStats], in the order of the array
    given to [Promise.all]. *)
Definition count_accounts : Call := profiles_count eligible_filters.
Definition count_active : Call :=
  jobs_count [eq_platform "tripadvisor"; in_status [pending; running]].
Definition count_today (today : Z) (s : JobStatus) : Call :=
  jobs_count [eq_platform "tripadvisor"; eq_status s;
              gte_created_at (at_utc today 0 0 0);
              lt_created_at (at_utc today 23 59 59)].

Definition stats_queries (today : Z) : list Call :=
  [count_accounts; count_active; count_today today completed; count_today today failed].

Definition no_stats : SyncStats :=
  {| totalAccounts := 0; activeJobs := 0; completedToday := 0; failedToday := 0 |}.

(** What the answer to a count query contributes to the report:
    [result.count || 0]. *)
Definition reported (o : Settled (PgResponse unit)) : nat :=
  match o with
  | Fulfilled r => default 0 (count r)
  | Rejected _ => 0
  end.

Definition rejected {A} (o : Settled A) : bool :=
  match o with
  | Fulfilled _ => false
  | Rejected _ => true
  end.

(** The answer to a count query issued after [i] other requests. *)
Definition count_answer (w : World) (i : nat) (c : Call) (n : nat)
  : Settled (PgResponse unit) :=
  match faults w (length (trace w) + i) c with
  | Some (store_error e) => Fulfilled (pg_error e)
  | Some (thrown e) => Rejected e
  | _ => Fulfilled (pg_ok None (Some n))
  end.

Lemma handle_profiles_count fs w i w0 :
  faults w = faults w0 → length (trace w) = length (trace w0) + i →
  profiles w = profiles w0 →
  handle (profiles_count fs) w
  = (count_answer w0 i (profiles_count fs)
       (length (select_where profile_matches fs (profiles w0))),
     issued (profiles_count fs) w).
Proof.
  intros Hf Ht Hp. rewrite handle_async by done. unfold planned, count_answer.
  rewrite Hf, Ht. destruct (faults w0 _ _) as [[e|s b|e]|]; cbn; by rewrite ?Hp.
Qed.

Lemma handle_jobs_count fs w i w0 :
  faults w = faults w0 → length (trace w) = length (trace w0) + i →
  review_sync_jobs w = review_sync_jobs w0 →
  handle (jobs_count fs) w
  = (count_answer w0 i (jobs_count fs)
       (length (select_where job_matches fs (review_sync_jobs w0))),
     issued (jobs_count fs) w).
Proof.
  intros Hf Ht Hp. rewrite handle_async by done. unfold planned, count_answer.
  rewrite Hf, Ht. destruct (faults w0 _ _) as [[e|s b|e]|]; cbn; by rewrite ?Hp.
Qed.

(** The four answers [getSyncStats] works with. *)
Lemma getSyncStats_answers w :
  let today := utc_date (clock w) in
  let a := count_answer w 0 count_accounts (length (filter eligible (profiles w))) in
  let b := count_answer w 1 count_active
             (length (filter (fun j => tripadvisor_job j ∧ active j) (review_sync_jobs w))) in
  let c := count_answer w 2 (count_today today completed)
             (length (filter (in_window today completed) (review_sync_jobs w))) in
  let d := count_answer w 3 (count_today today failed)
             (length (filter (in_window today failed) (review_sync_jobs w))) in
  let w4 := with_trace (trace w ++ (ev_call <$> stats_queries today)) w in
  run getSyncStats w =
  if rejected a || rejected b || rejected c || rejected d then
    let e := match a, b, c, d with
             | Rejected e, _, _, _ => e
             | _, Rejected e, _, _ => e
             | _, _, Rejected e, _ => e
             | _, _, _, Rejected e => e
             | _, _, _, _ => ""
             end in
    (Fulfilled no_stats,
     with_stdout (stdout w ++ [(log_error, "Error getting sync stats: " +:+ e)]) w4)
  else
    (Fulfilled {| totalAccounts := reported a; activeJobs := reported b;
                  completedToday := reported c; failedToday := reported d |}, w4).
Proof.
  cbv zeta. unfold getSyncStats, settle, await, mbind, Proc_bind.
  cbn [run try_catch bind].
  change (handle date_now w) with (Fulfilled (clock w), w). cbn [run try_catch bind].
  rewrite (handle_profiles_count _ w 0 w) by (try done; lia).
  rewrite select_eligible.
  set (w1 := issued _ w).
  rewrite (handle_jobs_count _ w1 1 w) by (try done; cbn; rewrite length_app; done).
  rewrite select_active.
  set (w2 := issued _ w1).
  rewrite (handle_jobs_count _ w2 2 w)
    by (try done; cbn; rewrite !length_app; cbn; lia).
  rewrite select_in_window.
  set (w3 := issued _ w2).
  rewrite (handle_jobs_count _ w3 3 w)
    by (try done; cbn; rewrite !length_app; cbn; lia).
  rewrite select_in_window.
  match goal with
  | |- context [issued ?c w3] =>
      assert (issued c w3
              = with_trace (trace w ++ (ev_call <$> stats_queries (utc_date (clock w)))) w)
        as ->
  end.
  { unfold issued, with_trace. cbn. by rewrite <- !app_assoc. }
  destruct (count_answer w 0 _ _) as [a|ea];
    destruct (count_answer w 1 _ _) as [b|eb];
    destruct (count_answer w 2 _ _) as [c|ec];
    destruct (count_answer w 3 _ _) as [d|ed]; reflexivity.
Qed.

(** X9. [getSyncStats] only reads: it issues its four count queries, all
    four even when one of the first fails, and leaves the tables, the id
    counter, the clock and the flag as they are. *)
Theorem getSyncStats_reads_only (w : World) :
  let w' := (run getSyncStats w).2 in
  trace w' = trace w ++ (ev_call <$> stats_queries (utc_date (clock w)))
  ∧ profiles w' = profiles w
  ∧ review_sync_jobs w' = review_sync_jobs w
  ∧ next_job_id w' = next_job_id w
  ∧ clock w' = clock w
  ∧ isRunning w' = isRunning w.
Proof.
  cbv zeta. pose proof (getSyncStats_answers w) as H. cbv zeta in H. rewrite H.
  by destruct (_ || _).
Qed.

(** X10. When one of the four count queries rejects, the report is all
    zeros, also for the counts that were answered, and one error line is
    written; [getSyncStats] itself does not reject. *)
Theorem getSyncStats_rejection_gives_zeros (w : World) (i : nat) (c : Call) (e : JsError) :
  stats_queries (utc_date (clock w)) !! i = Some c →
  faults w (length (trace w) + i) c = Some (thrown e) →
  (run getSyncStats w).1 = Fulfilled no_stats
  ∧ ∃ line, stdout (run getSyncStats w).2 = stdout w ++ [(log_error, line)].
Proof.
  intros Hi Hf. pose proof (getSyncStats_answers w) as H. cbv zeta in H. rewrite H.
  clear H.
  assert (rejected (count_answer w i c
                      match i with
                      | 0 => length (filter eligible (profiles w))
                      | 1 => length (filter (fun j => tripadvisor_job j ∧ active j)
                                       (review_sync_jobs w))
                      | 2 => length (filter (in_window (utc_date (clock w)) completed)
                                       (review_sync_jobs w))
                      | _ => length (filter (in_window (utc_date (clock w)) failed)
                                       (review_sync_jobs w))
                      end) = true) as Hrej.
  { unfold count_answer. by rewrite Hf. }
  destruct i as [|[|[|[|i]]]]; cbn in Hi; try done; injection Hi as <-;
    rewrite Hrej, ?orb_true_r; cbn; eauto.
Qed.

(** The first count query times out at the connection. *)
Definition accounts_count_rejects : nat → Call → option Fault := fun _ c =>
  match c with
  | profiles_count _ => Some (thrown "fetch failed")
  | _ => None
  end.

Lemma getSyncStats_rejection_gives_zeros_witness :
  let w := with_table [job_row 0 "a" pending (day 20000 2 0) None]
             (initial_world [locked_profile "a"] (day 20000 12 0)
                accounts_count_rejects no_schedule) in
  (run getSyncStats w).1 = Fulfilled no_stats
  ∧ ∃ line, stdout (run getSyncStats w).2 = stdout w ++ [(log_error, line)].
Proof.
  apply (getSyncStats_rejection_gives_zeros
           (with_table [job_row 0 "a" pending (day 20000 2 0) None]
              (initial_world [locked_profile "a"] (day 20000 12 0)
                 accounts_count_rejects no_schedule))
           0 count_accounts "fetch failed"); reflexivity.
Defined.

(** [result.count || 0] for an answer that may be an error result. *)
Definition unless_error (f : option Fault) (n : nat) : nat :=
  match f with
  | Some (store_error _) => 0
  | _ => n
  end.

(** X11. When no count query rejects, each of the four counts is reported
    on its own: a query that comes back with an error result is reported
    as 0, without a line on the console, next to the true counts of the
    others. *)
Theorem getSyncStats_error_result_reads_as_zero (w : World) :
  let n := length (trace w) in
  let today := utc_date (clock w) in
  (∀ i c e, stats_queries today !! i = Some c → faults w (n + i) c ≠ Some (thrown e)) →
  (run getSyncStats w).1
  = Fulfilled
      {| totalAccounts :=
           unless_error (faults w n count_accounts)
             (length (filter eligible (profiles w)));
         activeJobs :=
           unless_error (faults w (n + 1) count_active)
             (length (filter (fun j => tripadvisor_job j ∧ active j) (review_sync_jobs w)));
         completedToday :=
           unless_error (faults w (n + 2) (count_today today completed))
             (length (filter (in_window today completed) (review_sync_jobs w)));
         failedToday :=
           unless_error (faults w (n + 3) (count_today today failed))
             (length (filter (in_window today failed) (review_sync_jobs w))) |}
  ∧ stdout (run getSyncStats w).2 = stdout w.
Proof.
  intros n today Hq. pose proof (getSyncStats_answers w) as H. cbv zeta in H.
  rewrite H. clear H. fold today. fold n.
  assert (∀ i c k, stats_queries today !! i = Some c →
            rejected (count_answer w i c k) = false
            ∧ reported (count_answer w i c k) = unless_error (faults w (n + i) c) k)
    as Hans.
  { intros i c k Hi. specialize (Hq i c). unfold count_answer. fold n.
    destruct (faults w (n + i) c) as [[e|s b|e]|]; cbn; try done.
    by destruct (Hq e Hi). }
  destruct (Hans 0 count_accounts (length (filter eligible (profiles w))) eq_refl)
    as [-> ->].
  destruct (Hans 1 count_active
              (length (filter (fun j => tripadvisor_job j ∧ active j)
                         (review_sync_jobs w))) eq_refl) as [-> ->].
  destruct (Hans 2 (count_today today completed)
              (length (filter (in_window today completed) (review_sync_jobs w))) eq_refl)
    as [-> ->].
  destruct (Hans 3 (count_today today failed)
              (length (filter (in_window today failed) (review_sync_jobs w))) eq_refl)
    as [-> ->].
  cbn. by rewrite Nat.add_0_r.
Qed.

(** The count of active jobs comes back with an error result. *)
Definition active_count_errors : nat → Call → option Fault := fun n c =>
  match n, c with
  | 1, jobs_count _ =>
      Some (store_error {| code := "57014"; message := "statement timeout" |})
  | _, _ => None
  end.

Lemma getSyncStats_error_result_reads_as_zero_witness :
  let w := with_table [job_row 0 "a" pending (day 20000 2 0) None;
                       job_row 1 "b" completed (day 20000 3 0) (Some (day 20000 3 5))]
             (initial_world [locked_profile "a"; locked_profile "b"] (day 20000 12 0)
                active_count_errors no_schedule) in
  (run getSyncStats w).1
  = Fulfilled {| totalAccounts := 2; activeJobs := 0;
                 completedToday := 1; failedToday := 0 |}
  ∧ stdout (run getSyncStats w).2 = stdout w.
Proof.
  apply (getSyncStats_error_result_reads_as_zero
           (with_table [job_row 0 "a" pending (day 20000 2 0) None;
                        job_row 1 "b" completed (day 20000 3 0) (Some (day 20000 3 5))]
              (initial_world [locked_profile "a"; locked_profile "b"] (day 20000 12 0)
                 active_count_errors no_schedule))).
  intros [|[|[|[|i]]]] c e Hi; cbn in Hi; try done; injection Hi as <-; discriminate.
Defined.

(** *** The last second of the day *)

Lemma length_filter_split {A} (P Q R : A → Prop)
  `{!∀ x, Decision (P x), !∀ x, Decision (Q x), !∀ x, Decision (R x)} (l : list A) :
  (∀ x, P x ↔ Q x ∨ R x) → (∀ x, Q x → R x → False) →
  length (filter P l) = length (filter Q l) + length (filter R l).
Proof.
  intros HP Hex. induction l as [|x l IH]; [done|].
  rewrite !filter_cons.
  destruct (decide (P x)) as [Hp|Hp], (decide (Q x)) as [Hq|Hq],
    (decide (R x)) as [Hr|Hr]; cbn; rewrite IH; try lia.
  - destruct (Hex x Hq Hr).
  - apply HP in Hp. tauto.
  - destruct Hp. apply HP. auto.
  - destruct Hp. apply HP. auto.
  - destruct Hp. apply HP. auto.
Qed.

(** Created today, in the second the window leaves out. *)
Definition in_last_second (today : Z) (s : JobStatus) (j : SyncJob.row) : Prop :=
  tripadvisor_job j ∧ SyncJob.status j = s
  ∧ last_second today (SyncJob.created_at j).

#[global] Instance in_last_second_dec today s j : Decision (in_last_second today s j).
Proof. unfold in_last_second, tripadvisor_job, last_second. apply _. Defined.

#[global] Instance created_on_dec today s j : Decision (created_on today s j).
Proof. unfold created_on, tripadvisor_job. apply _. Defined.

Lemma created_on_split today s j :
  created_on today s j ↔ in_window today s j ∨ in_last_second today s j.
Proof.
  unfold created_on, in_window, in_last_second, last_second, tripadvisor_job.
  unfold at_utc, utc_date, ms_per_day.
  pose proof (Z.div_mod (SyncJob.created_at j) 86400000 ltac:(lia)) as Hdm.
  pose proof (Z.mod_pos_bound (SyncJob.created_at j) 86400000 ltac:(lia)) as Hmb.
  split.
  - intros (Hp & Hs & <-).
    destruct (decide (SyncJob.created_at j
                      < SyncJob.created_at j / 86400000 * 86400000
                        + ((23 * 60 + 59) * 60 + 59) * 1000)%Z).
    + left. repeat split; try done; lia.
    + right. repeat split; try done; lia.
  - intros [(Hp & Hs & Ht)|(Hp & Hs & Ht)]; (split; [done|]); (split; [done|]);
      symmetry;
      apply (Z.div_unique _ _ _ (SyncJob.created_at j - today * 86400000)); lia.
Qed.

(** X12. The day window of [completedToday] and [failedToday] ends at
    23:59:59: with all queries answered, each of the two counts is the
    number of tripadvisor jobs of that status created on the current UTC
    day, less those created in its last second. *)
Theorem getSyncStats_leaves_out_last_second (w : World) :
  quiet_counts w →
  let today := utc_date (clock w) in
  ∃ stats, (run getSyncStats w).1 = Fulfilled stats
    ∧ completedToday stats
      + length (filter (in_last_second today completed) (review_sync_jobs w))
      = length (filter (created_on today completed) (review_sync_jobs w))
    ∧ failedToday stats
      + length (filter (in_last_second today failed) (review_sync_jobs w))
      = length (filter (created_on today failed) (review_sync_jobs w)).
Proof.
  intros Hq today. rewrite (getSyncStats_run w Hq). eexists. split; [reflexivity|].
  cbn [completedToday failedToday]. fold today. rewrite !select_in_window.
  assert (∀ s, length (filter (in_window today s) (review_sync_jobs w))
               + length (filter (in_last_second today s) (review_sync_jobs w))
               = length (filter (created_on today s) (review_sync_jobs w))) as Hsplit.
  { intros s. symmetry. apply length_filter_split.
    - intros j. apply created_on_split.
    - intros j (_ & _ & [_ Hlt]) (_ & _ & [Hge _]). lia. }
  split; apply Hsplit.
Qed.

(** A job created and completed half a second before midnight. *)
Definition midnight_world : World :=
  with_table
    [job_row 0 "a" completed (at_utc 20000 23 59 59 + 500)%Z
       (Some (at_utc 20000 23 59 59 + 700)%Z)]
    (initial_world [locked_profile "a"] (at_utc 20000 23 59 59 + 900)%Z
       quiet_plan no_schedule).

Lemma getSyncStats_leaves_out_last_second_witness :
  let w := midnight_world in
  let today := utc_date (clock w) in
  ∃ stats, (run getSyncStats w).1 = Fulfilled stats
    ∧ completedToday stats
      + length (filter (in_last_second today completed) (review_sync_jobs w))
      = length (filter (created_on today completed) (review_sync_jobs w))
    ∧ failedToday stats
      + length (filter (in_last_second today failed) (review_sync_jobs w))
      = length (filter (created_on today failed) (review_sync_jobs w)).
Proof.
  apply (getSyncStats_leaves_out_last_second midnight_world). split; reflexivity.
Defined.

(** ** A sweep without accounts *)

Lemma getAccountsForSync_failed w o :
  planned w fetch_accounts = Some o →
  ∃ line, run getAccountsForSync w
          = (Fulfilled [], with_stdout (stdout w ++ [(log_error, line)])
                             (issued fetch_accounts w)).
Proof.
  unfold getAccountsForSync, fetch_accounts, await, mbind, Proc_bind.
  cbn [run try_catch bind]. rewrite handle_async by done.
  unfold planned.
  destruct (faults w (length (trace w)) (profiles_select eligible_filters))
    as [[e|s b|e]|]; cbn; intros [= <-]; cbn; eauto.
Qed.

(** X13. A sweep that finds no account, because no profile is eligible or
    because the fetch fails (by an error result or a rejection), ends
    fulfilled after the fetch: its only request is the fetch, between the
    raising and the lowering of the flag; no job row is created, no timer
    is set, and its last words are that no accounts were found. *)
Theorem runDailySync_without_accounts (w : World) :
  isRunning w = false →
  filter eligible (profiles w) = []
  ∨ (∃ e, faults w (S (length (trace w))) fetch_accounts = Some (store_error e))
  ∨ (∃ e, faults w (S (length (trace w))) fetch_accounts = Some (thrown e)) →
  let r := runDailySync w in
  r.1 = Fulfilled tt
  ∧ trace r.2 = trace w ++ [ev_isRunning true; ev_call fetch_accounts; ev_isRunning false]
  ∧ review_sync_jobs r.2 = review_sync_jobs w
  ∧ clock r.2 = clock w
  ∧ isRunning r.2 = false
  ∧ ∃ lines, stdout r.2 = lines ++ [(log_info, "Found 0 accounts for sync");
                                    (log_info, "No accounts found for sync")].
Proof.
  intros Hw Hnone. cbv zeta. unfold runDailySync.
  rewrite (runDailySyncWith_idle _ _ w Hw).
  set (w1 := with_stdout _ (set_isRunning true w)).
  assert (∃ out, run getAccountsForSync w1
                 = (Fulfilled [], with_stdout out (issued fetch_accounts w1)))
    as [out Hget].
  { destruct (planned w1 fetch_accounts) as [o|] eqn:Hp.
    - destruct (getAccountsForSync_failed w1 o Hp) as [line ->]. by eexists.
    - rewrite (getAccountsForSync_run w1 Hp).
      assert (filter eligible (profiles w1) = []) as ->; [|by eexists (stdout w1)].
      destruct Hnone as [H|[[e H]|[e H]]]; [done| |];
        unfold planned in Hp; cbn in Hp; rewrite length_app in Hp; cbn in Hp;
        rewrite Nat.add_1_r, H in Hp; discriminate Hp. }
  unfold try_catch_finally, sweep_body.
  erewrite M_bind_fulfilled; [|exact Hget].
  unfold mbind, M_bind. cbn. rewrite <- !app_assoc.
  repeat (split; [done|]). eexists. vm_compute. reflexivity.
Qed.

Lemma runDailySync_without_accounts_witness :
  let w := unlocked_world in
  let r := runDailySync w in
  r.1 = Fulfilled tt
  ∧ trace r.2 = trace w ++ [ev_isRunning true; ev_call fetch_accounts; ev_isRunning false]
  ∧ review_sync_jobs r.2 = review_sync_jobs w
  ∧ clock r.2 = clock w
  ∧ isRunning r.2 = false
  ∧ ∃ lines, stdout r.2 = lines ++ [(log_info, "Found 0 accounts for sync");
                                    (log_info, "No accounts found for sync")].
Proof.
  apply (runDailySync_without_accounts unlocked_world).
  - reflexivity.
  - left. reflexivity.
Defined.

(** ** The manual trigger *)

Definition lookup_account (userId : string) : Call :=
  profiles_select_single [eq_user_id userId; not_is_null_tripadvisor_location_id].

Definition announce_manual (w : World) : World :=
  with_stdout (stdout w ++ [(log_info, "Triggering manual sync...")]) w.

(** X14. Without a user id, and also with the empty string as user id,
    the manual trigger is the daily sweep after one console line; so while
    a sweep is in progress it issues no request and changes nothing in the
    store. *)
Theorem triggerManualSync_without_user_is_sweep (userId : option string) (w : World) :
  truthy userId = false →
  triggerManualSync userId w = runDailySync (announce_manual w)
  ∧ (isRunning w = true →
     (triggerManualSync userId w).1 = Fulfilled tt
     ∧ trace (triggerManualSync userId w).2 = trace w
     ∧ review_sync_jobs (triggerManualSync userId w).2 = review_sync_jobs w).
Proof.
  intros Ht.
  assert (triggerManualSync userId w = runDailySync (announce_manual w)) as ->.
  { unfold triggerManualSync. rewrite Ht. reflexivity. }
  split; [done|]. intros Hw. unfold runDailySync.
  by rewrite (runDailySyncWith_busy _ _ (announce_manual w) Hw).
Qed.

Lemma triggerManualSync_without_user_is_sweep_witness :
  let w := set_isRunning true seven_account_world in
  triggerManualSync (Some "") w = runDailySync (announce_manual w)
  ∧ (isRunning w = true →
     (triggerManualSync (Some "") w).1 = Fulfilled tt
     ∧ trace (triggerManualSync (Some "") w).2 = trace w
     ∧ review_sync_jobs (triggerManualSync (Some "") w).2 = review_sync_jobs w).
Proof.
  apply (triggerManualSync_without_user_is_sweep (Some "")
           (set_isRunning true seven_account_world)).
  reflexivity.
Defined.

(** The profiles the lookup of the manual trigger matches. *)
Definition integrated (userId : string) (r : Profile.row) : Prop :=
  Profile.user_id r = userId ∧ Profile.tripadvisor_location_id r ≠ None.

#[global] Instance integrated_dec userId r : Decision (integrated userId r).
Proof. unfold integrated. apply _. Defined.

Lemma select_integrated userId ps :
  select_where profile_matches [eq_user_id userId; not_is_null_tripadvisor_location_id] ps
  = filter (integrated userId) ps.
Proof.
  unfold select_where. apply list_filter_iff. intros r. cbn. unfold integrated.
  rewrite !andb_True, bool_decide_spec, Is_true_true, String.eqb_eq. intuition.
Qed.

Lemma triggerManualSync_user userId w :
  truthy (Some userId) = true →
  triggerManualSync (Some userId) w
  = let '(o, w1) := handle (lookup_account userId) (announce_manual w) in
    match o with
    | Fulfilled r =>
        match error r, data r with
        | None, Some account => run (syncAccount account) w1
        | _, _ => run (console_error "Account not found or no TripAdvisor integration") w1
        end
    | Rejected e => (Rejected e, w1)
    end.
Proof.
  intros Ht. unfold triggerManualSync. rewrite Ht.
  unfold mbind at 1, M_bind. cbn [run console_log await].
  change (handle (console log_info "Triggering manual sync...") w)
    with (Fulfilled tt, announce_manual w).
  cbn [run]. unfold mbind, M_bind. cbn [run await default].
  change (id userId) with userId. unfold lookup_account.
  destruct (handle _ (announce_manual w)) as [[r|e] w1]; cbn [run]; [|done].
  by destruct (error r), (data r).
Qed.

(** X15. With a user id the manual trigger does not consult the flag of
    the sweep: also while a sweep is in progress it looks the account up
    and, when the lookup is answered with exactly one profile, dispatches
    it, starting with the dedup query.  It leaves the flag as it is. *)
Theorem triggerManualSync_user_ignores_flag (userId : string) (row : Profile.row)
  (w : World) :
  truthy (Some userId) = true →
  isRunning w = true →
  planned w (lookup_account userId) = None →
  filter (integrated userId) (profiles w) = [row] →
  let r := triggerManualSync (Some userId) w in
  r.1 = Fulfilled tt
  ∧ isRunning r.2 = true
  ∧ ∃ cs, trace r.2 = trace w ++ [ev_call (lookup_account userId);
                                  ev_call (running_job_query userId)]
                        ++ (ev_call <$> cs).
Proof.
  intros Ht Hw Hp Hrow. cbv zeta. rewrite (triggerManualSync_user _ _ Ht).
  rewrite handle_async by done.
  change (planned (announce_manual w) ?c) with (planned w c). rewrite Hp.
  cbn [perform lookup_account fst snd]. rewrite select_integrated.
  change (profiles (issued _ (announce_manual w))) with (profiles w). rewrite Hrow.
  cbn [fmap list_fmap single error data pg_ok].
  assert (integrated userId row) as [Hu _].
  { apply (list_elem_of_filter (integrated userId) (profiles w)). rewrite Hrow. left. }
  set (acc := selected_columns row).
  set (w1 := issued _ (announce_manual w)).
  destruct (syncAccount_run acc w1) as [out Hrun]. rewrite Hrun. cbn [fst snd].
  split; [done|].
  assert (frame w1 (dispatch_requests acc w1)
          ∧ ∃ cs, trace (dispatch_requests acc w1)
                  = trace w1 ++ ev_call (running_job_query (user_id acc)) :: (ev_call <$> cs))
    as [[_ Hflag _ _ _] [cs Hcs]].
  { pose proof (run_frame (syncAccount acc) w1) as Hfr. rewrite Hrun in Hfr.
    split.
    - destruct Hfr as [? ? ? ? [cs' Hcs']]. by split; [| | | |exists cs'].
    - unfold dispatch_requests.
      pose proof (handle_running_query_frame (user_id acc) w1) as Hh.
      destruct (handle (running_job_query (user_id acc)) w1) as [o w2].
      cbn [snd] in Hh. subst w2.
      destruct (existing_job o); [by exists []|].
      set (w2 := issued _ w1).
      pose proof (handle_frame (jobs_insert_single (new_job (user_id acc) false (clock w2)))
                    w2) as [_ _ _ _ [cs2 Hcs2]].
      destruct (handle (jobs_insert_single _) w2) as [o2 w3]. cbn [snd] in Hcs2.
      destruct (created_job o2) as [job|].
      2: { exists cs2. rewrite Hcs2. cbn. by rewrite <- app_assoc. }
      pose proof (handle_frame (worker_post (worker_request (SyncJob.id job) acc)) w3)
        as [_ _ _ _ [cs3 Hcs3]].
      destruct (handle (worker_post _) w3) as [o3 w4]. cbn [snd] in Hcs3.
      destruct (worker_accepted o3).
      { exists (cs2 ++ cs3). rewrite Hcs3, Hcs2, fmap_app. cbn.
        by rewrite <- !app_assoc. }
      pose proof (handle_frame (failed_update (SyncJob.id job)
                                  "Failed to trigger worker sync" (clock w4)) w4)
        as [_ _ _ _ [cs4 Hcs4]].
      exists (cs2 ++ cs3 ++ cs4). rewrite Hcs4, Hcs3, Hcs2, !fmap_app. cbn.
      by rewrite <- !app_assoc. }
  split.
  - cbn. rewrite Hflag. exact Hw.
  - exists cs. cbn. rewrite Hcs. cbn. unfold acc. cbn. rewrite Hu.
    by rewrite <- !app_assoc.
Qed.

(** A sweep is in progress and [u1] has a location but no lock. *)
Lemma triggerManualSync_user_ignores_flag_witness :
  let w := set_isRunning true unlocked_world in
  let r := triggerManualSync (Some "u1") w in
  r.1 = Fulfilled tt
  ∧ isRunning r.2 = true
  ∧ ∃ cs, trace r.2 = trace w ++ [ev_call (lookup_account "u1");
                                  ev_call (running_job_query "u1")]
                        ++ (ev_call <$> cs).
Proof.
  apply (triggerManualSync_user_ignores_flag "u1" unlocked_profile
           (set_isRunning true unlocked_world)); reflexivity.
Defined.

(** X16. The lookup of the manual trigger is outside every [try]: when it
    rejects, [triggerManualSync] rejects with the same error.  When it
    comes back with an error result, or matches no profile or more than
    one, the trigger writes that the account was not found and resolves.
    In all these cases nothing is dispatched: the lookup is the only
    request and the job table is unchanged. *)
Theorem triggerManualSync_lookup_failure (userId : string) (w : World) :
  truthy (Some userId) = true →
  planned w (lookup_account userId) ≠ None
  ∨ length (filter (integrated userId) (profiles w)) ≠ 1 →
  let r := triggerManualSync (Some userId) w in
  trace r.2 = trace w ++ [ev_call (lookup_account userId)]
  ∧ review_sync_jobs r.2 = review_sync_jobs w
  ∧ match faults w (length (trace w)) (lookup_account userId) with
    | Some (thrown e) => r.1 = Rejected e ∧ stdout r.2 = stdout (announce_manual w)
    | _ =>
        r.1 = Fulfilled tt
        ∧ stdout r.2
          = stdout (announce_manual w)
            ++ [(log_error, "Account not found or no TripAdvisor integration")]
    end.
Proof.
  intros Ht Hfail. cbv zeta. rewrite (triggerManualSync_user _ _ Ht).
  rewrite handle_async by done.
  change (planned (announce_manual w) ?c) with (planned w c).
  unfold planned in *.
  destruct (faults w (length (trace w)) (lookup_account userId)) as [[e|s b|e]|];
    cbn in Hfail |- *; try done.
  - rewrite select_integrated.
    destruct Hfail as [Hfail|Hlen]; [done|].
    destruct (filter (integrated userId) (profiles w)) as [|r [|r' l]]; cbn; done.
  - rewrite select_integrated.
    destruct Hfail as [Hfail|Hlen]; [done|].
    destruct (filter (integrated userId) (profiles w)) as [|r [|r' l]]; cbn; done.
Qed.

Definition lookup_rejects : nat → Call → option Fault := fun _ c =>
  match c with
  | profiles_select_single _ => Some (thrown "fetch failed")
  | _ => None
  end.

Lemma triggerManualSync_lookup_failure_witness :
  let w := initial_world [unlocked_profile] 1000%Z lookup_rejects no_schedule in
  let r := triggerManualSync (Some "u1") w in
  trace r.2 = trace w ++ [ev_call (lookup_account "u1")]
  ∧ review_sync_jobs r.2 = review_sync_jobs w
  ∧ r.1 = Rejected "fetch failed" ∧ stdout r.2 = stdout (announce_manual w).
Proof.
  apply (triggerManualSync_lookup_failure "u1"
           (initial_world [unlocked_profile] 1000%Z lookup_rejects no_schedule)).
  - reflexivity.
  - left. discriminate.
Defined.

(** ** More on [chunkArray] *)

(** X17. With a batch size of 0 the loop of [chunkArray] makes no
    progress: on a non-empty array it does not finish, however many
    iterations it is given.  On the empty array it returns no batch, for
    every size. *)
Theorem chunkArray_zero_size_never_returns {T} (array : list T) :
  array ≠ [] →
  (∀ fuel, chunkArray_loop fuel array 0 0 [] = None)
  ∧ chunkArray array 0 = None
  ∧ ∀ size, chunkArray (@nil T) size = Some [].
Proof.
  intros Hne.
  assert (0 < length array) as Hlen by (destruct array; [done|cbn; lia]).
  assert (∀ fuel chunks, chunkArray_loop fuel array 0 0 chunks = None) as Hloop.
  { induction fuel as [|fuel IH]; intros chunks; rewrite chunkArray_loop_eq;
      rewrite (proj2 (Nat.ltb_lt _ _) Hlen); [done|]. apply IH. }
  split; [intros fuel; apply Hloop|]. split; [apply Hloop|]. done.
Qed.

Lemma chunkArray_zero_size_never_returns_witness :
  (∀ fuel, chunkArray_loop fuel ["a"; "b"] 0 0 [] = None)
  ∧ chunkArray ["a"; "b"] 0 = None
  ∧ ∀ size, chunkArray (@nil string) size = Some [].
Proof. apply (chunkArray_zero_size_never_returns ["a"; "b"]). discriminate. Defined.

Lemma chunked_lookup {T} (size : nat) (rest : list (list T)) : ∀ l k c,
  concat rest = l →
  Forall (fun c => length c ≤ size) rest →
  (∀ k c, rest !! k = Some c → S k < length rest → length c = size) →
  rest !! k = Some c → c = take size (drop (k * size) l).
Proof.
  induction rest as [|c0 rest IH]; intros l k c Hcat Hbound Hfull Hk.
  - by rewrite lookup_nil in Hk.
  - apply Forall_cons in Hbound as [Hc0 Hbound]. cbn in Hcat. subst l.
    destruct k as [|k]; cbn in Hk.
    + injection Hk as <-. rewrite Nat.mul_0_l, drop_0. destruct rest as [|c1 rest].
      * cbn. rewrite app_nil_r. by rewrite take_ge.
      * rewrite take_app_le by (rewrite (Hfull 0 c0 eq_refl); cbn; lia).
        rewrite take_ge; [done|]. rewrite (Hfull 0 c0 eq_refl); cbn; lia.
    + assert (length c0 = size) as Hlen.
      { apply (Hfull 0 c0 eq_refl). cbn. apply lookup_lt_Some in Hk. lia. }
      replace (S k * size) with (length c0 + k * size) by (cbn; lia).
      rewrite <- drop_drop, drop_app_length.
      apply (IH (concat rest) k c eq_refl Hbound); [|done].
      intros k' c' Hk' Hlt. apply (Hfull (S k') c' Hk'). cbn. lia.
Qed.

Lemma ceil_div_gt (n d k : nat) : 0 < d → k < ceil_div n d → k * d < n.
Proof.
  intros Hd Hk. unfold ceil_div in Hk.
  assert (S k * d ≤ n + d - 1) as H.
  { etrans; [|apply (Nat.Div0.mul_div_le _ d)]. rewrite (Nat.mul_comm d).
    apply Nat.mul_le_mono_r. lia. }
  cbn in H. lia.
Qed.

(** X18. For a positive size, [chunkArray] returns ceil(n / size) batches
    for an array of n elements; batch number k (from 0) is the slice of
    the array from position k * size to (k + 1) * size; and no batch is
    empty. *)
Theorem chunkArray_batches_are_slices {T} (array : list T) (size : nat) :
  0 < size →
  ∃ chunks, chunkArray array size = Some chunks
    ∧ length chunks = ceil_div (length array) size
    ∧ (∀ k, k < length chunks →
            chunks !! k = Some (slice array (k * size) (k * size + size)))
    ∧ Forall (fun c => c ≠ []) chunks.
Proof.
  intros Hsize.
  destruct (chunkArray_spec array size Hsize) as (chunks & Hrun & [Hcat Hlen Hbound Hfull]).
  exists chunks. split; [done|]. split; [done|].
  assert (∀ k c, chunks !! k = Some c → c = slice array (k * size) (k * size + size))
    as Hslice.
  { intros k c Hk. unfold slice. replace (k * size + size - k * size) with size by lia.
    by apply (chunked_lookup size chunks). }
  split.
  - intros k Hk. destruct (lookup_lt_is_Some_2 chunks k Hk) as [c Hc].
    by rewrite Hc, (Hslice k c Hc).
  - apply Forall_forall. intros c Hin.
    apply list_elem_of_lookup in Hin as [k Hk].
    pose proof (lookup_lt_Some _ _ _ Hk) as Hlt. rewrite Hlen in Hlt.
    apply (ceil_div_gt _ _ _ Hsize) in Hlt.
    rewrite (Hslice k c Hk). unfold slice. intros Hnil.
    apply (f_equal length) in Hnil. rewrite length_take, length_drop in Hnil.
    cbn in Hnil. lia.
Qed.

Lemma chunkArray_batches_are_slices_witness :
  ∃ chunks, chunkArray ["a"; "b"; "c"; "d"; "e"; "f"; "g"] 3 = Some chunks
    ∧ length chunks = ceil_div 7 3
    ∧ (∀ k, k < length chunks →
            chunks !! k
            = Some (slice ["a"; "b"; "c"; "d"; "e"; "f"; "g"] (k * 3) (k * 3 + 3)))
    ∧ Forall (fun c => c ≠ []) chunks.
Proof. apply (chunkArray_batches_are_slices ["a"; "b"; "c"; "d"; "e"; "f"; "g"] 3). lia. Defined.

(** ** What a sweep can cost *)

Definition is_post (e : Event) : bool :=
  match e with
  | ev_call (worker_post _) => true
  | _ => false
  end.

(** The POSTs in a trace. *)
Definition posts (t : list Event) : nat := length (filter (fun e => is_post e = true) t).

Lemma posts_app t1 t2 : posts (t1 ++ t2) = posts t1 + posts t2.
Proof. unfold posts. by rewrite filter_app, length_app. Qed.

Lemma posts_singleton e : posts [e] = if is_post e then 1 else 0.
Proof. unfold posts. rewrite filter_cons. by destruct (is_post e). Qed.

Arguments posts : simpl never.

(** What a dispatch at a given stage may already have used up: a row of
    the job table, a POST. *)
Definition row_spent (s : Stage) : nat :=
  match s with
  | st_dedup | st_insert _ => 0
  | _ => 1
  end.

Definition post_spent (s : Stage) : nat :=
  match s with
  | st_dedup | st_insert _ | st_post _ => 0
  | _ => 1
  end.

Section Cost.
Context (batch : list SyncAccount) (w0 : World).

Definition cost_inv (ps : list (Proc unit)) (w : World) : Prop :=
  ∃ stages,
    Forall3 (fun acc s p => at_stage acc s p) batch stages ps
    ∧ length (review_sync_jobs w)
      ≤ length (review_sync_jobs w0) + sum_list (row_spent <$> stages)
    ∧ posts (trace w) ≤ posts (trace w0) + sum_list (post_spent <$> stages).

(** One resumption takes the dispatch to a stage that accounts for what
    it has used. *)
Lemma resume_cost acc s p w :
  at_stage acc s p →
  ∃ s', at_stage acc s' (resume p w).1
    ∧ length (review_sync_jobs (resume p w).2) + row_spent s
      ≤ length (review_sync_jobs w) + row_spent s'
    ∧ posts (trace (resume p w).2) + post_spent s
      ≤ posts (trace w) + post_spent s'.
Proof.
  intros Hs. pose proof (resume_at_stage acc s p w Hs) as Hr.
  destruct s as [|t|job|jid t|]; cbv beta iota in Hr.
  - pose proof (handle_running_query (user_id acc) w) as [Hw1 _].
    destruct (handle _ w) as [o w1]. cbn [fst snd] in *.
    destruct Hr as (out & -> & Hst). subst w1. eexists. split; [exact Hst|].
    cbn. rewrite posts_app, posts_singleton. cbn. destruct (existing_job o); cbn; lia.
  - pose proof (handle_insert (new_job (user_id acc) false t) w) as Hh.
    pose proof (handle_trace (jobs_insert_single (new_job (user_id acc) false t)) w eq_refl)
      as Ht.
    cbv zeta in Hh. destruct (handle _ w) as [o w1]. cbn [fst snd] in *.
    destruct Hr as (out & -> & Hst). eexists. split; [exact Hst|].
    cbn. rewrite Ht, posts_app, posts_singleton. cbn.
    destruct (created_job o) as [job|].
    + destruct Hh as [_ ->]. cbn. rewrite length_app. cbn. lia.
    + subst w1. cbn. lia.
  - pose proof (handle_post (worker_request (SyncJob.id job) acc) w) as [Hw1 _].
    destruct (handle _ w) as [o w1]. cbn [fst snd] in *.
    destruct Hr as (out & -> & Hst). subst w1. eexists. split; [exact Hst|].
    cbn. rewrite posts_app, posts_singleton. cbn. destruct (worker_accepted o); cbn; lia.
  - pose proof (handle_update jid "Failed to trigger worker sync" t w) as Hh.
    pose proof (handle_trace (failed_update jid "Failed to trigger worker sync" t) w eq_refl)
      as Ht.
    cbv zeta in Hh. destruct (handle _ w) as [o w1]. cbn [fst snd] in *.
    destruct Hr as (out & -> & Hst). exists st_done. split; [exact Hst|].
    cbn. rewrite Ht, posts_app, posts_singleton. cbn.
    destruct Hh as [[_ ->]|[_ ->]]; cbn; rewrite ?length_fmap; lia.
  - rewrite Hr. exists st_done. split; [done|]. cbn. lia.
Qed.

Lemma cost_resume l1 p l2 w :
  cost_inv (l1 ++ p :: l2) w →
  cost_inv (l1 ++ (resume p w).1 :: l2) (resume p w).2.
Proof.
  intros (stages & HF & Hrows & Hposts).
  apply Forall3_app_inv_r in HF as (b1 & b2' & s1 & s2' & Hb & -> & HF1 & HF2).
  apply Forall3_cons_inv_r in HF2 as (acc & b2 & s & s2 & -> & -> & Hs & HF2).
  destruct (resume_cost acc s p w Hs) as (s' & Hs' & Hr & Hp).
  exists (s1 ++ s' :: s2). split; [|split].
  - rewrite Hb. apply Forall3_app; [done|]. by constructor.
  - rewrite fmap_app, sum_list_with_app in *. cbn in *. lia.
  - rewrite fmap_app, sum_list_with_app in *. cbn in *. lia.
Qed.

Lemma sum_list_bounded (f : Stage → nat) (stages : list Stage) :
  (∀ s, f s ≤ 1) → sum_list (f <$> stages) ≤ length stages.
Proof.
  intros Hf. induction stages as [|s stages IH]; cbn; [done|].
  specialize (Hf s). lia.
Qed.

Lemma dispatchBatch_cost :
  length (review_sync_jobs (dispatchBatch batch w0).2)
  ≤ length (review_sync_jobs w0) + length batch
  ∧ posts (trace (dispatchBatch batch w0).2) ≤ posts (trace w0) + length batch.
Proof.
  cbn.
  destruct (allSettled_inv cost_inv cost_resume (syncAccount <$> batch) w0)
    as (ps' & _ & _ & (stages & HF & Hrows & Hposts)).
  { destruct (start_all_syncAccount batch w0) as (out & HF & Hw).
    rewrite Hw. exists (replicate (length batch) st_dedup). split; [|split].
    - clear Hw. induction HF as [|acc p b ps [Hd _] HF IH]; cbn; by constructor.
    - cbn. rewrite fmap_replicate, sum_list_replicate. cbn. lia.
    - cbn. rewrite fmap_replicate, sum_list_replicate. cbn. lia. }
  apply Forall3_length_lm in HF.
  pose proof (sum_list_bounded row_spent stages ltac:(by intros []; cbn; lia)).
  pose proof (sum_list_bounded post_spent stages ltac:(by intros []; cbn; lia)).
  lia.
Qed.
End Cost.

Lemma batch_step_cost batches i b w :
  batches !! i = Some b →
  (batch_step batches i w).1 = Fulfilled tt
  ∧ length (review_sync_jobs (batch_step batches i w).2)
    ≤ length (review_sync_jobs w) + length b
  ∧ posts (trace (batch_step batches i w).2) ≤ posts (trace w) + length b.
Proof.
  intros Hb. unfold batch_step. rewrite Hb. change (default [] (Some b)) with b.
  erewrite M_bind_fulfilled; [|reflexivity].
  match goal with
  | |- context [(dispatchBatch b ≫= ?f) ?w1] =>
      destruct (dispatchBatch_cost b w1) as [Hrows Hposts];
      rewrite (M_bind_fulfilled (dispatchBatch b) f w1 tt (dispatchBatch b w1).2 eq_refl);
      set (w2 := (dispatchBatch b w1).2) in *; clearbody w2
  end.
  cbn in Hrows, Hposts.
  destruct (i <? length batches - 1).
  - rewrite run_sleep. cbn. rewrite posts_app, posts_singleton. cbn. split; [done|]. lia.
  - cbn. split; [done|]. lia.
Qed.

Lemma sweep_cost batches : ∀ n i w,
  i + n = length batches →
  let r := for_each (seq i n) (batch_step batches) w in
  r.1 = Fulfilled tt
  ∧ length (review_sync_jobs r.2)
    ≤ length (review_sync_jobs w) + length (concat (drop i batches))
  ∧ posts (trace r.2) ≤ posts (trace w) + length (concat (drop i batches)).
Proof.
  induction n as [|n IH]; intros i w Hlen; cbv zeta.
  - cbn. split; [done|]. lia.
  - assert (is_Some (batches !! i)) as [b Hb] by (apply lookup_lt_is_Some; lia).
    destruct (batch_step_cost batches i b w Hb) as (Hok & Hrows & Hposts).
    cbn [seq for_each].
    destruct (batch_step batches i w) as [[[]|e] w1] eqn:Hstep; [|done].
    cbn [fst snd] in *. erewrite M_bind_fulfilled; [|exact Hstep].
    destruct (IH (S i) w1 ltac:(lia)) as (Hok' & Hrows' & Hposts').
    rewrite (drop_S batches b i Hb). cbn [concat]. rewrite length_app.
    split; [done|]. lia.
Qed.

(** X19. Whatever fails and however the requests of a batch are
    interleaved, one call of [runDailySync] adds at most one row to the
    job table and sends at most one POST to the worker per eligible
    profile. *)
Theorem runDailySync_cost (w : World) :
  let w' := (runDailySync w).2 in
  let accounts := filter eligible (profiles w) in
  length (review_sync_jobs w') ≤ length (review_sync_jobs w) + length accounts
  ∧ posts (trace w') ≤ posts (trace w) + length accounts.
Proof.
  cbv zeta. unfold runDailySync.
  destruct (isRunning w) eqn:Hw.
  { rewrite (runDailySyncWith_busy _ _ w Hw). cbn. lia. }
  rewrite (runDailySyncWith_idle _ _ w Hw).
  set (w1 := with_stdout _ (set_isRunning true w)).
  assert (∃ accounts out,
            run getAccountsForSync w1
            = (Fulfilled accounts, with_stdout out (issued fetch_accounts w1))
            ∧ length accounts ≤ length (filter eligible (profiles w)))
    as (accounts & out & Hget & Hlen).
  { destruct (planned w1 fetch_accounts) as [o|] eqn:Hp.
    - destruct (getAccountsForSync_failed w1 o Hp) as [line ->].
      eexists _, _. split; [done|]. cbn. lia.
    - rewrite (getAccountsForSync_run w1 Hp).
      eexists _, (stdout w1). split; [done|]. by rewrite length_fmap. }
  unfold try_catch_finally, sweep_body.
  erewrite M_bind_fulfilled; [|exact Hget].
  erewrite M_bind_fulfilled; [|reflexivity].
  destruct (length accounts =? 0);
    [cbn; rewrite !posts_app, !posts_singleton; cbn; lia|].
  destruct (chunkArray_spec accounts 5 ltac:(lia)) as (batches & -> & [Hcat _ _ _]).
  rewrite sweep_batches_loop.
  match goal with
  | |- context [(for_each ?l ?body ≫= ?f) ?w2] =>
      destruct (sweep_cost batches (length batches) 0 w2 eq_refl)
        as (Hok & Hrows & Hposts);
      destruct (for_each l body w2) as [[[]|e] w3] eqn:Hloop; [|done];
      rewrite (M_bind_fulfilled (for_each l body) f w2 tt w3 Hloop)
  end.
  cbn [fst snd] in *. rewrite drop_0, Hcat in Hrows, Hposts.
  cbn in Hrows, Hposts |- *. rewrite !posts_app, !posts_singleton in *. cbn in *. lia.
Qed.

(** * The service around the scheduler *)

(** The scheduler object also holds the handle of its cron task
    ([private cronJob: any = null]); the module exports one instance of
    it, [syncScheduler], and four HTTP handlers over that instance, which
    [index.ts] mounts next to a webhook.

    - node-cron is a registry of tasks: [cron.schedule] adds a task and
      returns its handle, [destroy] on a handle removes the task.  When a
      task fires is node-cron's business and is not modelled.
    - A handler is a function from the request's body and the service to
      the reply and the service.  Of the JSON values a body can carry, the
      model has strings and [undefined] (an absent key).
    - [triggerManualSync(req, res)] does not await the sync it starts: the
      model gives the reply together with the state in which the detached
      promise has settled. *)

Record CronTask := {
  expression : string;
  cron_timezone : string;
  scheduled : bool
}.

Definition TaskId := nat.

Record Service := {
  world : World;
  cronJob : option TaskId;
  cron_tasks : list (TaskId * CronTask);
  next_task : TaskId;
  NODE_ENV : option string;
  WEBHOOK_API_KEY : option string
}.

Definition with_world (w : World) (s : Service) : Service :=
  {| world := w; cronJob := cronJob s; cron_tasks := cron_tasks s;
     next_task := next_task s; NODE_ENV := NODE_ENV s;
     WEBHOOK_API_KEY := WEBHOOK_API_KEY s |}.

(** [console.log(line)] outside the scheduler's methods *)
Definition say (line : string) (s : Service) : Service :=
  with_world (handle (console log_info line) (world s)).2 s.

(** The task [start] registers. *)
Definition daily_task : CronTask :=
  {| expression := "0 2 * * *"; cron_timezone := "UTC"; scheduled := true |}.

(** [cron.schedule(expression, callback, options)] followed by the
    assignment of the handle to [this.cronJob] *)
Definition schedule_cronJob (t : CronTask) (s : Service) : Service :=
  {| world := world s; cronJob := Some (next_task s);
     cron_tasks := cron_tasks s ++ [(next_task s, t)];
     next_task := S (next_task s); NODE_ENV := NODE_ENV s;
     WEBHOOK_API_KEY := WEBHOOK_API_KEY s |}.

(** [this.cronJob.destroy(); this.cronJob = null] *)
Definition destroy_cronJob (h : TaskId) (s : Service) : Service :=
  {| world := world s; cronJob := None;
     cron_tasks := filter (fun t => t.1 ≠ h) (cron_tasks s);
     next_task := next_task s; NODE_ENV := NODE_ENV s;
     WEBHOOK_API_KEY := WEBHOOK_API_KEY s |}.

Definition start (s : Service) : Service :=
  match cronJob s with
  | Some _ => say "Sync scheduler is already running" s
  | None =>
      say "TripAdvisor sync scheduler started - daily sync at 2:00 AM UTC"
        (schedule_cronJob daily_task s)
  end.

Definition stop (s : Service) : Service :=
  match cronJob s with
  | Some h => say "TripAdvisor sync scheduler stopped" (destroy_cronJob h s)
  | None => s
  end.

(** [export const syncScheduler = new TripAdvisorSyncScheduler()] in a
    process with the given store and environment variables *)
Definition new_service (w : World) (node_env api_key : option string) : Service :=
  {| world := w; cronJob := None; cron_tasks := []; next_task := 0;
     NODE_ENV := node_env; WEBHOOK_API_KEY := api_key |}.

(** ** Replies *)

Inductive Body :=
| json_status (isRunning schedulerActive : bool) (nextRun : string) (stats : SyncStats)
| json_message (text : string)
| json_message_user (text : string) (userId : option string)
| json_error (text : string).

Record Reply := { http_code : nat; body : Body }.

(** The handlers the scheduler module exports. *)
Module Api.

Definition getSyncStatus (s : Service) : Reply * Service :=
  let '(o, w) := run getSyncStats (world s) in
  match o with
  | Fulfilled stats =>
      ({| http_code := 200;
          body := json_status (isRunning w) (bool_decide (cronJob s ≠ None))
                    "2:00 AM UTC daily" stats |},
       with_world w s)
  | Rejected _ =>
      ({| http_code := 500; body := json_error "Failed to get sync status" |},
       with_world w s)
  end.

(** [.catch(error => console.error('Manual sync error:', error))] *)
Definition logged_if_rejected (r : Settled unit * World) : World :=
  match r.1 with
  | Fulfilled _ => r.2
  | Rejected e => (run (console_error ("Manual sync error: " +:+ e)) r.2).2
  end.

Definition triggerManualSync (userId : option string) (s : Service) : Reply * Service :=
  ({| http_code := 200;
      body := json_message_user
                (if truthy userId then "Manual sync triggered for user"
                 else "Manual sync triggered for all accounts") userId |},
   with_world (logged_if_rejected (triggerManualSync userId (world s))) s).

Definition startScheduler (s : Service) : Reply * Service :=
  ({| http_code := 200; body := json_message "Sync scheduler started" |}, start s).

Definition stopScheduler (s : Service) : Reply * Service :=
  ({| http_code := 200; body := json_message "Sync scheduler stopped" |}, stop s).

End Api.

(** The body of a request to [/api/webhook/sync]. *)
Module Webhook.
Record request := {
  action : option string;
  userId : option string;
  apiKey : option string
}.
End Webhook.

Definition webhook (req : Webhook.request) (s : Service) : Reply * Service :=
  if bool_decide (Webhook.apiKey req ≠ WEBHOOK_API_KEY s) then
    ({| http_code := 401; body := json_error "Unauthorized" |}, s)
  else
    match Webhook.action req with
    | Some "trigger_sync" =>
        let '(o, w) := triggerManualSync (Webhook.userId req) (world s) in
        match o with
        | Fulfilled _ =>
            ({| http_code := 200; body := json_message "Sync triggered" |}, with_world w s)
        | Rejected _ =>
            ({| http_code := 500; body := json_error "Webhook processing failed" |},
             with_world w s)
        end
    | Some "start_scheduler" =>
        ({| http_code := 200; body := json_message "Scheduler started" |}, start s)
    | Some "stop_scheduler" =>
        ({| http_code := 200; body := json_message "Scheduler stopped" |}, stop s)
    | _ => ({| http_code := 400; body := json_error "Invalid action" |}, s)
    end.

(** [if (process.env.NODE_ENV === 'production')] *)
Definition production (s : Service) : bool :=
  bool_decide (NODE_ENV s = Some "production").

(** The last statement of the scheduler module, run when it is loaded. *)
Definition load_scheduler (s : Service) : Service :=
  if production s then
    say "TripAdvisor sync scheduler auto-started in production mode" (start s)
  else s.

(** The callback [index.ts] gives to [app.listen]. *)
Definition on_listening (port : string) (s : Service) : Service :=
  let s1 := say ("TripAdvisor Sync Scheduler running on port " +:+ port) s in
  let s2 := say ("Health check: http://localhost:" +:+ port +:+ "/health") s1 in
  if production s2 then say "Automated sync scheduler started" (start s2) else s2.

(** [index.ts] imports the scheduler module, then listens. *)
Definition boot (port : string) (s : Service) : Service :=
  on_listening port (load_scheduler s).

(** The handler of SIGTERM and SIGINT, up to [process.exit]. *)
Definition on_signal (signal : string) (s : Service) : Service :=
  stop (say ("Received " +:+ signal +:+ ", shutting down gracefully...") s).

(** ** The cron task *)

Inductive Op := op_start | op_stop.

Definition apply_op (s : Service) (op : Op) : Service :=
  match op with
  | op_start => start s
  | op_stop => stop s
  end.

(** The registry holds the scheduler's task and nothing else. *)
Definition registry_ok (s : Service) : Prop :=
  cron_tasks s = match cronJob s with
                 | Some h => [(h, daily_task)]
                 | None => []
                 end.

(** What neither [start] nor [stop] touches. *)
Definition same_store (s s' : Service) : Prop :=
  review_sync_jobs (world s') = review_sync_jobs (world s)
  ∧ profiles (world s') = profiles (world s)
  ∧ trace (world s') = trace (world s)
  ∧ isRunning (world s') = isRunning (world s)
  ∧ faults (world s') = faults (world s)
  ∧ NODE_ENV s' = NODE_ENV s
  ∧ WEBHOOK_API_KEY s' = WEBHOOK_API_KEY s.

#[global] Instance same_store_preorder : PreOrder same_store.
Proof.
  split.
  - by intros s.
  - intros s1 s2 s3 (? & ? & ? & ? & ? & ? & ?) (? & ? & ? & ? & ? & ? & ?).
    repeat split; congruence.
Qed.

Lemma start_registry s :
  registry_ok s → registry_ok (start s) ∧ cronJob (start s) ≠ None ∧ same_store s (start s).
Proof.
  unfold registry_ok, start. intros Hs.
  destruct (cronJob s) as [h|] eqn:Hc; cbn; rewrite ?Hc, ?Hs; done.
Qed.

Lemma stop_registry s :
  registry_ok s → registry_ok (stop s) ∧ cronJob (stop s) = None ∧ same_store s (stop s).
Proof.
  unfold registry_ok, stop. intros Hs.
  destruct (cronJob s) as [h|] eqn:Hc; cbn; rewrite ?Hc, ?Hs; [|done].
  rewrite filter_cons, decide_False by (cbn; auto). done.
Qed.

Lemma apply_ops_registry ops : ∀ s,
  registry_ok s →
  registry_ok (foldl apply_op s ops)
  ∧ same_store s (foldl apply_op s ops)
  ∧ ∀ op, last ops = Some op → (cronJob (foldl apply_op s ops) ≠ None ↔ op = op_start).
Proof.
  induction ops as [|op ops IH] using rev_ind; intros s Hs.
  - cbn. done.
  - rewrite foldl_app. cbn [foldl]. destruct (IH s Hs) as (Hok & Hsame & _).
    rewrite last_snoc. destruct op; cbn.
    + destruct (start_registry _ Hok) as (? & ? & ?).
      split; [done|]. split; [by etrans|]. intros op [= <-]. done.
    + destruct (stop_registry _ Hok) as (? & Hnone & ?).
      split; [done|]. split; [by etrans|]. intros op [= <-]. rewrite Hnone. done.
Qed.

(** X20. Whatever sequence of [start] and [stop] calls the scheduler
    receives, node-cron holds at most one task of it, the daily one
    ('0 2 * * *', UTC), and holds it exactly when [cronJob] is set, which
    is exactly when the last call was [start]: a repeated [start]
    registers nothing, a [stop] removes the task.  The calls touch
    neither the store nor the flag of the sweep. *)
Theorem scheduler_lifecycle (ops : list Op) (s : Service) :
  registry_ok s →
  let s' := foldl apply_op s ops in
  cron_tasks s' = match cronJob s' with
                  | Some h => [(h, daily_task)]
                  | None => []
                  end
  ∧ length (cron_tasks s') ≤ 1
  ∧ (∀ op, last ops = Some op → (cronJob s' ≠ None ↔ op = op_start))
  ∧ review_sync_jobs (world s') = review_sync_jobs (world s)
  ∧ trace (world s') = trace (world s)
  ∧ isRunning (world s') = isRunning (world s).
Proof.
  intros Hs. cbv zeta.
  destruct (apply_ops_registry ops s Hs) as (Hok & (? & ? & ? & ? & _) & Hlast).
  split; [exact Hok|]. split; [|by auto].
  rewrite Hok. destruct (cronJob _); cbn; lia.
Qed.

Lemma scheduler_lifecycle_witness :
  let s := new_service unlocked_world None None in
  let s' := foldl apply_op s [op_start; op_start; op_stop; op_start; op_start] in
  cron_tasks s' = match cronJob s' with
                  | Some h => [(h, daily_task)]
                  | None => []
                  end
  ∧ length (cron_tasks s') ≤ 1
  ∧ (∀ op, last [op_start; op_start; op_stop; op_start; op_start] = Some op →
           (cronJob s' ≠ None ↔ op = op_start))
  ∧ review_sync_jobs (world s') = review_sync_jobs (world s)
  ∧ trace (world s') = trace (world s)
  ∧ isRunning (world s') = isRunning (world s).
Proof.
  apply (scheduler_lifecycle [op_start; op_start; op_stop; op_start; op_start]
           (new_service unlocked_world None None)).
  reflexivity.
Defined.

(** ** Start-up and shutdown *)

Lemma say_registry line s :
  registry_ok s → registry_ok (say line s) ∧ cronJob (say line s) = cronJob s
                  ∧ same_store s (say line s).
Proof. done. Qed.

(** X21. In production the scheduler is started twice while the service
    comes up, once when the scheduler module is loaded and once when the
    server listens; the second call finds the task of the first and
    registers nothing.  So after start-up one daily task is registered in
    production and none otherwise, and after SIGTERM or SIGINT none is
    left. *)
Theorem boot_registers_one_task (port signal : string) (w : World)
  (node_env api_key : option string) :
  let s := boot port (new_service w node_env api_key) in
  cron_tasks s = (if bool_decide (node_env = Some "production")
                  then [(0, daily_task)] else [])
  ∧ cronJob s = (if bool_decide (node_env = Some "production") then Some 0 else None)
  ∧ (node_env = Some "production" →
     (log_info, "Sync scheduler is already running") ∈ stdout (world s))
  ∧ cron_tasks (on_signal signal s) = []
  ∧ cronJob (on_signal signal s) = None.
Proof.
  cbv zeta. unfold boot, load_scheduler, on_listening, production.
  cbn [NODE_ENV new_service say with_world].
  destruct (bool_decide (node_env = Some "production")) eqn:Hprod;
    cbn [NODE_ENV new_service say with_world]; rewrite ?Hprod.
  - cbn. rewrite Hprod. cbn. split; [done|]. split; [done|]. split; [|done].
    intros _. rewrite !elem_of_app, !list_elem_of_singleton. auto 10.
  - cbn. rewrite ?Hprod. cbn. split; [done|]. split; [done|]. split; [|done].
    intros Hp. by apply bool_decide_eq_false in Hprod.
Qed.

(** ** The handlers *)

(** X22. [GET /api/sync/status] always answers 200: since [getSyncStats]
    never rejects, the 500 branch of the handler is not taken.  The reply
    carries the flag of the sweep, whether a cron task is registered
    ([cronJob !== null]) and the four counts; the handler changes neither
    the job table nor the cron task. *)
Theorem getSyncStatus_always_reports (s : Service) :
  let r := Api.getSyncStatus s in
  (∃ stats,
     r.1 = {| http_code := 200;
              body := json_status (isRunning (world s))
                        (bool_decide (cronJob s ≠ None)) "2:00 AM UTC daily" stats |}
     ∧ (run getSyncStats (world s)).1 = Fulfilled stats)
  ∧ review_sync_jobs (world r.2) = review_sync_jobs (world s)
  ∧ cronJob r.2 = cronJob s
  ∧ cron_tasks r.2 = cron_tasks s.
Proof.
  cbv zeta. unfold Api.getSyncStatus.
  pose proof (getSyncStats_answers (world s)) as H. cbv zeta in H. rewrite H.
  destruct (_ || _); cbn; split; eauto.
Qed.

(** X23. After any sequence of start and stop requests to the API, the
    status endpoint reports the scheduler active exactly when the last of
    them was a start request. *)
Theorem schedulerActive_follows_last_request (ops : list Op) (op : Op) (s : Service) :
  registry_ok s →
  let step s op := match op with
                   | op_start => (Api.startScheduler s).2
                   | op_stop => (Api.stopScheduler s).2
                   end in
  ∃ running stats,
    (Api.getSyncStatus (foldl step s (ops ++ [op]))).1
    = {| http_code := 200;
         body := json_status running
                   (match op with op_start => true | op_stop => false end)
                   "2:00 AM UTC daily" stats |}.
Proof.
  intros Hs step.
  assert (foldl step s (ops ++ [op]) = foldl apply_op s (ops ++ [op])) as ->.
  { generalize (ops ++ [op]). intros l. revert s Hs.
    induction l as [|o l IH] using rev_ind; intros s Hs; [done|].
    rewrite !foldl_app. cbn. rewrite IH by done. by destruct o. }
  destruct (apply_ops_registry (ops ++ [op]) s Hs) as (_ & _ & Hlast).
  specialize (Hlast op (last_snoc _ _)).
  unfold Api.getSyncStatus.
  pose proof (getSyncStats_answers (world (foldl apply_op s (ops ++ [op])))) as H.
  cbv zeta in H. rewrite H. clear H.
  assert (bool_decide (cronJob (foldl apply_op s (ops ++ [op])) ≠ None)
          = match op with op_start => true | op_stop => false end) as ->.
  { destruct op.
    - apply bool_decide_eq_true_2. by apply Hlast.
    - apply bool_decide_eq_false_2. intros Hc. by apply Hlast in Hc. }
  destruct (_ || _); cbn; eauto.
Qed.

Lemma schedulerActive_follows_last_request_witness :
  let s := new_service unlocked_world None None in
  let step s op := match op with
                   | op_start => (Api.startScheduler s).2
                   | op_stop => (Api.stopScheduler s).2
                   end in
  ∃ running stats,
    (Api.getSyncStatus (foldl step s ([op_start; op_start] ++ [op_stop]))).1
    = {| http_code := 200;
         body := json_status running false "2:00 AM UTC daily" stats |}.
Proof.
  apply (schedulerActive_follows_last_request [op_start; op_start] op_stop
           (new_service unlocked_world None None)).
  reflexivity.
Defined.

Definition trigger_sync_for (userId : string) (s : Service) : Webhook.request :=
  {| Webhook.action := Some "trigger_sync"; Webhook.userId := Some userId;
     Webhook.apiKey := WEBHOOK_API_KEY s |}.

(** X24. A lookup that rejects, at the two endpoints that trigger a sync
    for one user.  [POST /api/sync/trigger] does not await the sync: it
    answers 200 all the same, and the error goes to the console.  The
    webhook awaits it: it answers 500 and writes nothing.  Neither
    creates a job row. *)
Theorem lookup_rejection_at_the_endpoints (userId : string) (e : JsError) (s : Service) :
  truthy (Some userId) = true →
  faults (world s) (length (trace (world s))) (lookup_account userId) = Some (thrown e) →
  let direct := Api.triggerManualSync (Some userId) s in
  let hooked := webhook (trigger_sync_for userId s) s in
  direct.1 = {| http_code := 200;
                body := json_message_user "Manual sync triggered for user" (Some userId) |}
  ∧ stdout (world direct.2)
    = stdout (world s) ++ [(log_info, "Triggering manual sync...");
                           (log_error, "Manual sync error: " +:+ e)]
  ∧ hooked.1 = {| http_code := 500; body := json_error "Webhook processing failed" |}
  ∧ stdout (world hooked.2)
    = stdout (world s) ++ [(log_info, "Triggering manual sync...")]
  ∧ review_sync_jobs (world direct.2) = review_sync_jobs (world s)
  ∧ review_sync_jobs (world hooked.2) = review_sync_jobs (world s).
Proof.
  intros Ht Hf. cbv zeta.
  assert (triggerManualSync (Some userId) (world s)
          = (Rejected e, issued (lookup_account userId) (announce_manual (world s))))
    as Hrun.
  { rewrite (triggerManualSync_user _ _ Ht). rewrite handle_async by done.
    change (planned (announce_manual ?w) ?c) with (planned w c).
    unfold planned. rewrite Hf. reflexivity. }
  unfold Api.triggerManualSync, Api.logged_if_rejected, webhook, trigger_sync_for.
  rewrite bool_decide_eq_false_2 by auto.
  cbn [Webhook.action Webhook.userId Webhook.apiKey]. rewrite Hrun, Ht. cbn.
  rewrite <- !app_assoc. done.
Qed.

Lemma lookup_rejection_at_the_endpoints_witness :
  let s := new_service (initial_world [unlocked_profile] 1000%Z lookup_rejects no_schedule)
             None (Some "secret") in
  let direct := Api.triggerManualSync (Some "u1") s in
  let hooked := webhook (trigger_sync_for "u1" s) s in
  direct.1 = {| http_code := 200;
                body := json_message_user "Manual sync triggered for user" (Some "u1") |}
  ∧ stdout (world direct.2)
    = stdout (world s) ++ [(log_info, "Triggering manual sync...");
                           (log_error, "Manual sync error: " +:+ "fetch failed")]
  ∧ hooked.1 = {| http_code := 500; body := json_error "Webhook processing failed" |}
  ∧ stdout (world hooked.2)
    = stdout (world s) ++ [(log_info, "Triggering manual sync...")]
  ∧ review_sync_jobs (world direct.2) = review_sync_jobs (world s)
  ∧ review_sync_jobs (world hooked.2) = review_sync_jobs (world s).
Proof.
  apply (lookup_rejection_at_the_endpoints "u1" "fetch failed"
           (new_service (initial_world [unlocked_profile] 1000%Z lookup_rejects no_schedule)
              None (Some "secret"))); reflexivity.
Defined.

(** X25. The webhook carries out an action exactly when the key in the
    request equals the configured one: with any other key it answers 401
    and leaves the service as it is.  The comparison is between possibly
    absent values, so a service started without [WEBHOOK_API_KEY] takes a
    request without [apiKey] as authorised. *)
Theorem webhook_authorisation (req : Webhook.request) (s : Service) :
  (Webhook.apiKey req ≠ WEBHOOK_API_KEY s →
   webhook req s = ({| http_code := 401; body := json_error "Unauthorized" |}, s))
  ∧ (Webhook.apiKey req = WEBHOOK_API_KEY s → http_code (webhook req s).1 ≠ 401)
  ∧ (WEBHOOK_API_KEY s = None → Webhook.apiKey req = None →
     Webhook.action req = Some "start_scheduler" →
     webhook req s
     = ({| http_code := 200; body := json_message "Scheduler started" |}, start s)).
Proof.
  unfold webhook. split; [|split].
  - intros Hne. by rewrite bool_decide_eq_true_2.
  - intros Heq. rewrite bool_decide_eq_false_2 by auto.
    destruct (Webhook.action req) as [a|]; [|done].
    repeat (match goal with
            | |- context [match ?a with EmptyString => _ | String _ _ => _ end] =>
                destruct a as [|? a]; try done
            | |- context [match ?c with Ascii.Ascii _ _ _ _ _ _ _ _ => _ end] =>
                destruct c as [[] [] [] [] [] [] [] []]; try done
            end).
    destruct (triggerManualSync _ _) as [[?|?] ?]; done.
  - intros Hkey Hreq Hact. rewrite bool_decide_eq_false_2 by (rewrite Hkey, Hreq; auto).
    by rewrite Hact.
Qed.

(** X26. The webhook answers "Sync triggered" whenever [triggerManualSync]
    resolves, also when it resolved without dispatching anything: for a
    user the lookup does not find (no such profile, no location, or more
    than one match), the reply is 200 "Sync triggered" while the lookup
    was the only request and no job row was created. *)
Theorem webhook_reports_trigger_without_dispatch (userId : string) (s : Service) :
  truthy (Some userId) = true →
  planned (world s) (lookup_account userId) = None →
  length (filter (integrated userId) (profiles (world s))) ≠ 1 →
  let r := webhook (trigger_sync_for userId s) s in
  r.1 = {| http_code := 200; body := json_message "Sync triggered" |}
  ∧ trace (world r.2) = trace (world s) ++ [ev_call (lookup_account userId)]
  ∧ review_sync_jobs (world r.2) = review_sync_jobs (world s).
Proof.
  intros Ht Hp Hlen. cbv zeta. unfold webhook, trigger_sync_for.
  rewrite bool_decide_eq_false_2 by auto.
  cbn [Webhook.action Webhook.userId Webhook.apiKey].
  rewrite (triggerManualSync_user _ _ Ht). rewrite handle_async by done.
  change (planned (announce_manual ?w) ?c) with (planned w c). rewrite Hp.
  cbn [perform lookup_account fst snd]. rewrite select_integrated.
  change (profiles (issued _ (announce_manual ?w))) with (profiles w).
  destruct (filter (integrated userId) (profiles (world s))) as [|r [|r' l]]; cbn; done.
Qed.

Lemma webhook_reports_trigger_without_dispatch_witness :
  let s := new_service unlocked_world None (Some "secret") in
  let r := webhook (trigger_sync_for "u9" s) s in
  r.1 = {| http_code := 200; body := json_message "Sync triggered" |}
  ∧ trace (world r.2) = trace (world s) ++ [ev_call (lookup_account "u9")]
  ∧ review_sync_jobs (world r.2) = review_sync_jobs (world s).
Proof.
  apply (webhook_reports_trigger_without_dispatch "u9"
           (new_service unlocked_world None (Some "secret")));
    [reflexivity|reflexivity|vm_compute; lia].
Defined.
